(** * Paper identity resolution of deepresearch_flow: a shallow embedding

    Embeds the title matcher and file resolution of
    [paper/db_match.py], identity resolution and alias registration of
    [paper/snapshot/update.py], the content-addressed image store of
    [paper/snapshot/image_utils.py] and the supplement pass of
    [paper/snapshot/supplement.py].

    Text is modelled as Rocq [string] over ASCII.  On ASCII input the
    NFKD folding and the Greek-letter table of [_normalize_title_key] are
    the identity, so they are not written out.  Python floats (similarity
    ratios, thresholds) are modelled as exact rationals [Q]. *)

From Stdlib Require Import String Ascii List Bool Arith ZArith Lia QArith.
Import ListNotations.
Open Scope string_scope.
Open Scope nat_scope.

(** ** Python string primitives over ASCII *)
Module Py.

Definition code (c : ascii) : nat := nat_of_ascii c.

(** [str.isspace] on ASCII: \t \n \v \f \r, the separators 0x1c-0x1f and
    the blank. *)
Definition is_space (c : ascii) : bool :=
  let n := code c in
  ((9 <=? n) && (n <=? 13)) || ((28 <=? n) && (n <=? 32)).

Definition is_digit (c : ascii) : bool :=
  let n := code c in (48 <=? n) && (n <=? 57).

Definition is_lower (c : ascii) : bool :=
  let n := code c in (97 <=? n) && (n <=? 122).

Definition is_upper (c : ascii) : bool :=
  let n := code c in (65 <=? n) && (n <=? 90).

Definition is_alpha (c : ascii) : bool := is_lower c || is_upper c.

Definition lower_char (c : ascii) : ascii :=
  if is_upper c then ascii_of_nat (code c + 32) else c.

Fixpoint lower (s : string) : string :=
  match s with
  | EmptyString => EmptyString
  | String c s' => String (lower_char c) (lower s')
  end.

Fixpoint of_list (l : list ascii) : string :=
  match l with
  | [] => EmptyString
  | c :: l' => String c (of_list l')
  end.

Fixpoint to_list (s : string) : list ascii :=
  match s with
  | EmptyString => []
  | String c s' => c :: to_list s'
  end.

(** [str.split()] without arguments: maximal runs of non-whitespace. *)
Fixpoint split_acc (s : string) (cur : list ascii) : list string :=
  match s with
  | EmptyString =>
      match cur with [] => [] | _ => [of_list (rev cur)] end
  | String c s' =>
      if is_space c then
        match cur with
        | [] => split_acc s' []
        | _ => of_list (rev cur) :: split_acc s' []
        end
      else split_acc s' (c :: cur)
  end.

Definition split (s : string) : list string := split_acc s [].

(** [" ".join(tokens)]. *)
Fixpoint join_space (l : list string) : string :=
  match l with
  | [] => EmptyString
  | [x] => x
  | x :: l' => x ++ " " ++ join_space l'
  end.

(** [str.startswith]: [startswith s p] holds when [p] is a prefix of [s]. *)
Definition startswith (s p : string) : bool := String.prefix p s.

(** [sub in s]. *)
Fixpoint contains (s sub : string) : bool :=
  String.prefix sub s ||
  match s with
  | EmptyString => false
  | String _ s' => contains s' sub
  end.

Fixpoint lstrip (s : string) : string :=
  match s with
  | EmptyString => EmptyString
  | String c s' => if is_space c then lstrip s' else s
  end.

Definition rstrip (s : string) : string :=
  of_list (rev (to_list (lstrip (of_list (rev (to_list s)))))).

Definition strip (s : string) : string := rstrip (lstrip s).

Definition endswith (s suf : string) : bool :=
  String.prefix (of_list (rev (to_list suf))) (of_list (rev (to_list s))).

(** [str.isdigit] on ASCII: non-empty and all digits. *)
Definition isdigit (s : string) : bool :=
  match s with
  | EmptyString => false
  | _ => forallb is_digit (to_list s)
  end.

(** [str.replace(old, new)] for a one-character [old]. *)
Fixpoint replace_char (s : string) (old : ascii) (new : string) : string :=
  match s with
  | EmptyString => EmptyString
  | String c s' =>
      if Ascii.eqb c old then new ++ replace_char s' old new
      else String c (replace_char s' old new)
  end.

Definition drop_last (n : nat) (s : string) : string :=
  substring 0 (String.length s - n) s.

End Py.

(** ** Title matching constants of db_match.py *)
Definition _TITLE_PREFIX_LEN := 16.
Definition _TITLE_MIN_CHARS := 24.
Definition _TITLE_MIN_TOKENS := 4.
Definition _LEADING_NUMERIC_MAX_LEN := 2.
Definition _SIMILARITY_MAX_STEPS := 10.
Definition _AUTHOR_YEAR_MIN_SIMILARITY : Q := (8 # 10)%Q.
Definition _SIMILARITY_START : Q := (95 # 100)%Q.
Definition _SIMILARITY_STEP : Q := (5 # 100)%Q.

(** [_title_overlap_match]. *)
Definition _title_overlap_match (a b : string) : bool :=
  if (String.eqb a "") || (String.eqb b "") then false
  else if String.eqb a b then true
  else
    let '(shorter, longer) :=
      if String.length a <=? String.length b then (a, b) else (b, a) in
    let token_count := List.length (Py.split shorter) in
    if (_TITLE_MIN_CHARS <=? String.length shorter)
       || (_TITLE_MIN_TOKENS <=? token_count) then
      Py.startswith longer shorter || Py.contains longer shorter
    else false.

(** ** Title normalisation ([_normalize_title_key] and its helpers) *)
Module Norm.
Import Py.

Definition is_alnum (c : ascii) : bool := is_alpha c || is_digit c.

(** Regex word characters [A-Za-z0-9_]. *)
Definition is_word (c : ascii) : bool := is_alnum c || Ascii.eqb c "_"%char.

Definition greek_names : list string :=
  ["alpha"; "beta"; "gamma"; "delta"; "epsilon"; "zeta"; "eta"; "theta";
   "iota"; "kappa"; "lambda"; "mu"; "nu"; "xi"; "omicron"; "pi"; "rho";
   "sigma"; "tau"; "upsilon"; "phi"; "chi"; "psi"; "omega"].

(** A word boundary right after a matched name. *)
Definition boundary_at (s : string) : bool :=
  match s with
  | EmptyString => true
  | String c _ => negb (is_word c)
  end.

(** The first alternative [name] of the alternation that matches
    (ignoring case) at the start of [s] and is followed by [\b]. *)
Fixpoint greek_at (names : list string) (s : string) : option nat :=
  match names with
  | [] => None
  | n :: ns =>
      let k := String.length n in
      if String.eqb (lower (substring 0 k s)) n
         && (k <=? String.length s)
         && boundary_at (substring k (String.length s - k) s)
      then Some k else greek_at ns s
  end.

(** [re.sub(r"\\(alpha|...|omega)\b", r" \1 ", value, flags=re.IGNORECASE)]. *)
Fixpoint latex_greek_fuel (fuel : nat) (s : string) : string :=
  match fuel with
  | O => s
  | S f =>
      match s with
      | EmptyString => EmptyString
      | String c s' =>
          if Ascii.eqb c "\"%char then
            match greek_at greek_names s' with
            | Some k =>
                " " ++ substring 0 k s' ++ " " ++
                latex_greek_fuel f (substring k (String.length s' - k) s')
            | None => String c (latex_greek_fuel f s')
            end
          else String c (latex_greek_fuel f s')
      end
  end.

Definition latex_greek (s : string) : string :=
  latex_greek_fuel (String.length s) s.

(** [value.replace("{", "").replace("}", "")]. *)
Definition drop_braces (s : string) : string :=
  replace_char (replace_char s "{"%char "") "}"%char "".

(** [re.sub(r"([a-z])([0-9])", r"\1 \2", value, flags=re.IGNORECASE)]. *)
Fixpoint split_alpha_digit (s : string) : string :=
  match s with
  | String c1 (String c2 rest as s') =>
      if is_alpha c1 && is_digit c2 then
        String c1 (String " "%char (String c2 (split_alpha_digit rest)))
      else String c1 (split_alpha_digit s')
  | _ => s
  end.

(** [re.sub(r"([0-9])([a-z])", r"\1 \2", value, flags=re.IGNORECASE)]. *)
Fixpoint split_digit_alpha (s : string) : string :=
  match s with
  | String c1 (String c2 rest as s') =>
      if is_digit c1 && is_alpha c2 then
        String c1 (String " "%char (String c2 (split_digit_alpha rest)))
      else String c1 (split_digit_alpha s')
  | _ => s
  end.

(** [re.sub(r"[^a-z0-9]+", " ", value)] on a lower-cased value. *)
Fixpoint non_alnum_to_space (prev_sep : bool) (s : string) : string :=
  match s with
  | EmptyString => EmptyString
  | String c s' =>
      if is_lower c || is_digit c then String c (non_alnum_to_space false s')
      else if prev_sep then non_alnum_to_space true s'
      else String " "%char (non_alnum_to_space true s')
  end.

(** The loop that merges a stray one-character token into the next one. *)
Fixpoint merge_tokens (tokens : list string) : list string :=
  match tokens with
  | [] => []
  | token :: rest =>
      match rest with
      | next :: rest' =>
          if String.length token =? 1 then (token ++ next) :: merge_tokens rest'
          else token :: merge_tokens rest
      | [] => [token]
      end
  end.

Definition _normalize_title_key (title : string) : string :=
  let value := latex_greek title in
  let value := drop_braces value in
  let value := replace_char value "_"%char " " in
  let value := split_alpha_digit value in
  let value := split_digit_alpha value in
  let value := non_alnum_to_space false (lower value) in
  (* re.sub(r"\s+", " ", value).strip() then value.split() *)
  let tokens := split (strip value) in
  match tokens with
  | [] => ""
  | _ => join_space (merge_tokens tokens)
  end.

Definition _compact_title_key (title_key : string) : string :=
  replace_char title_key " "%char "".

Fixpoint drop_leading_numeric (tokens : list string) : list string :=
  match tokens with
  | token :: rest =>
      if isdigit token && (String.length token <=? _LEADING_NUMERIC_MAX_LEN)
      then drop_leading_numeric rest else tokens
  | [] => []
  end.

Definition _strip_leading_numeric_tokens (title_key : string) : string :=
  let tokens := split title_key in
  let kept := drop_leading_numeric tokens in
  if List.length kept =? List.length tokens then title_key
  else join_space kept.

Definition _title_prefix_key (title_key : string) : option string :=
  if List.length (split title_key) <? _TITLE_MIN_TOKENS then None
  else
    let compact := _compact_title_key title_key in
    if String.length compact <? _TITLE_PREFIX_LEN then None
    else
      let prefix := substring 0 _TITLE_PREFIX_LEN compact in
      if String.eqb prefix "" then None else Some ("prefix:" ++ prefix).

End Norm.

(** ** File names ([_extract_title_from_filename] and friends) *)
Module Fname.
Import Py.

Definition is_hex_or_dash (c : ascii) : bool :=
  is_digit c || (let n := code c in (97 <=? n) && (n <=? 102))
  || (let n := code c in (65 <=? n) && (n <=? 70)) || Ascii.eqb c "-"%char.

Definition nl : string := String (ascii_of_nat 10) EmptyString.

Definition drop (n : nat) (s : string) : string :=
  substring n (String.length s - n) s.

(** [-[0-9a-f\-]{8,}$] (case-insensitive) against the rest after [.pdf];
    [$] also matches before a final newline, which is kept. *)
Definition hash_tail (r : string) : option string :=
  match r with
  | String c h =>
      if Ascii.eqb c "-"%char then
        if (8 <=? String.length h) && forallb is_hex_or_dash (to_list h)
        then Some ""
        else if endswith h nl then
          let h' := drop_last 1 h in
          if (8 <=? String.length h') && forallb is_hex_or_dash (to_list h')
          then Some nl else None
        else None
      else None
  | EmptyString => None
  end.

(** [_strip_pdf_hash_suffix]: [re.sub(r"(?i)(\.pdf)(?:-[0-9a-f\-]{8,})$",
    r"\1", name)], the leftmost match. *)
Fixpoint strip_pdf_fuel (fuel i : nat) (name : string) : string :=
  match fuel with
  | O => name
  | S f =>
      let at_i := drop i name in
      if String.eqb (lower (substring 0 4 at_i)) ".pdf" then
        match hash_tail (drop 4 at_i) with
        | Some e => substring 0 (i + 4) name ++ e
        | None => strip_pdf_fuel f (S i) name
        end
      else strip_pdf_fuel f (S i) name
  end.

Definition _strip_pdf_hash_suffix (name : string) : string :=
  strip_pdf_fuel (S (String.length name)) 0 name.

Definition no_newline (s : string) : bool :=
  negb (existsb (fun c => Ascii.eqb c (ascii_of_nat 10)) (to_list s)).

(** Four ASCII digits at the start of [s], returning them and the rest. *)
Definition digits4 (s : string) : option (string * string) :=
  let d := substring 0 4 s in
  if (String.length d =? 4) && forallb is_digit (to_list d)
  then Some (d, drop 4 s) else None.

Definition dash (s : string) : option string :=
  match s with
  | String c s' => if Ascii.eqb c "-"%char then Some s' else None
  | EmptyString => None
  end.

(** [\s*-\s*\d{4}\s*-\s*(.+)$] at the start of [t] (rest already stripped). *)
Definition tail_year_title (t : string) : option string :=
  match dash (lstrip t) with
  | Some t2 =>
      match digits4 (lstrip t2) with
      | Some (_, t4) =>
          match dash (lstrip t4) with
          | Some t6 =>
              let x := lstrip t6 in
              if negb (String.eqb x "") && no_newline x then Some x else None
          | None => None
          end
      | None => None
      end
  | None => None
  end.

(** [re.match(r"\s*\d{4}\s*-\s*(.+)$", base)]. *)
Definition match_year_first (base : string) : option string :=
  match digits4 (lstrip base) with
  | Some (_, rest) =>
      match dash (lstrip rest) with
      | Some t =>
          let x := lstrip t in
          if negb (String.eqb x "") && no_newline x then Some x else None
      | None => None
      end
  | None => None
  end.

(** [re.match(r"\s*.+?\s*-\s*\d{4}\s*-\s*(.+)$", base)] on a stripped
    [base]: the lazy [.+?] takes the shortest prefix that lets the rest
    match. *)
Fixpoint lazy_author_fuel (fuel e : nat) (base : string) : option string :=
  match fuel with
  | O => None
  | S f =>
      if no_newline (substring 0 e base) then
        match tail_year_title (drop e base) with
        | Some x => Some x
        | None => lazy_author_fuel f (S e) base
        end
      else None
  end.

Definition match_author_year (base : string) : option string :=
  lazy_author_fuel (String.length base) 1 base.

Definition _extract_title_from_filename (name : string) : string :=
  let base := name in
  let base := if endswith (lower base) ".md" then drop_last 3 base else base in
  let base := if contains (lower base) ".pdf-" then _strip_pdf_hash_suffix base
              else base in
  let base := if endswith (lower base) ".pdf" then drop_last 4 base else base in
  let base := strip (replace_char base "_"%char " ") in
  match match_year_first base with
  | Some x => strip x
  | None =>
      match match_author_year base with
      | Some x => strip x
      | None => strip base
      end
  end.

(** [(?:19|20)\d{2}] at the start of [s]. *)
Definition year4 (s : string) : option (string * string) :=
  match digits4 s with
  | Some (d, rest) =>
      if String.eqb (substring 0 2 d) "19" || String.eqb (substring 0 2 d) "20"
      then Some (d, rest) else None
  | None => None
  end.

(** [\s*-\s*((?:19|20)\d{2})\s*-\s*] at the start of [t]. *)
Definition tail_year (t : string) : option string :=
  match dash (lstrip t) with
  | Some t2 =>
      match year4 (lstrip t2) with
      | Some (y, t4) =>
          match dash (lstrip t4) with Some _ => Some y | None => None end
      | None => None
      end
  | None => None
  end.

Fixpoint count_leading_ws (s : string) : nat :=
  match s with
  | String c s' => if is_space c then S (count_leading_ws s') else 0
  | EmptyString => 0
  end.

(** [.+?] from position [k]: the shortest end [e] that lets the tail match. *)
Fixpoint lazy_from (fuel k e : nat) (base : string) : option (string * string) :=
  match fuel with
  | O => None
  | S f =>
      if no_newline (substring k (e - k) base) then
        match tail_year (drop e base) with
        | Some y => Some (y, strip (substring k (e - k) base))
        | None => lazy_from f k (S e) base
        end
      else None
  end.

(** The greedy leading [\s*] backtracks from the most whitespace down. *)
Fixpoint leading_ws_backtrack (k : nat) (base : string) : option (string * string) :=
  match lazy_from (String.length base) k (S k) base with
  | Some r => Some r
  | None =>
      match k with
      | O => None
      | S k' => leading_ws_backtrack k' base
      end
  end.

Definition _extract_year_author_from_filename (name : string)
  : option string * option string :=
  let base := name in
  let base := if endswith (lower base) ".md" then drop_last 3 base else base in
  let base := if contains (lower base) ".pdf-" then _strip_pdf_hash_suffix base
              else base in
  let base := if endswith (lower base) ".pdf" then drop_last 4 base else base in
  match leading_ws_backtrack (count_leading_ws base) base with
  | Some (y, author) => (Some y, Some author)
  | None =>
      match year4 (lstrip base) with
      | Some (y, rest) =>
          match dash (lstrip rest) with
          | Some _ => (Some y, None)
          | None => (None, None)
          end
      | None => (None, None)
      end
  end.

(** [str.replace(old, "")] for a multi-character [old], left to right. *)
Fixpoint remove_all_fuel (fuel : nat) (old s : string) : string :=
  match fuel with
  | O => s
  | S f =>
      if String.prefix old s then
        remove_all_fuel f old (drop (String.length old) s)
      else
        match s with
        | EmptyString => EmptyString
        | String c s' => String c (remove_all_fuel f old s')
        end
  end.

Definition remove_all (old s : string) : string :=
  remove_all_fuel (S (String.length s)) old s.

Fixpoint before_comma (s : string) : string :=
  match s with
  | EmptyString => EmptyString
  | String c s' => if Ascii.eqb c ","%char then EmptyString
                   else String c (before_comma s')
  end.

Definition _normalize_author_key (name : string) : string :=
  let raw := strip (lower name) in
  let raw := remove_all "et al" (remove_all "et al." raw) in
  let raw := before_comma raw in
  let raw := Norm.non_alnum_to_space false raw in
  let parts := split (strip raw) in
  match rev parts with
  | [] => ""
  | last :: _ => last
  end.

(** [Path(p).name]: the last non-empty, non-[.] component. *)
Fixpoint components_acc (s : string) (cur : list ascii) : list string :=
  match s with
  | EmptyString => [of_list (rev cur)]
  | String c s' =>
      if Ascii.eqb c "/"%char then of_list (rev cur) :: components_acc s' []
      else components_acc s' (c :: cur)
  end.

Definition path_name (p : string) : string :=
  let parts := filter (fun x => negb (String.eqb x "" || String.eqb x "."))
                      (components_acc p []) in
  match rev parts with
  | [] => ""
  | last :: _ => last
  end.

End Fname.

(** ** [difflib.SequenceMatcher(None, a, b).ratio()]

    No junk function is given; with [autojunk] an element of [b] that occurs
    more than [len(b) // 100 + 1] times is "popular" when [len(b) >= 200]
    and is left out of [b2j]. *)
Module Difflib.

Definition char_at (s : string) (i : nat) : option ascii := String.get i s.

Definition same (a b : string) (i j : nat) : bool :=
  match char_at a i, char_at b j with
  | Some x, Some y => Ascii.eqb x y
  | _, _ => false
  end.

Fixpoint count_char (c : ascii) (s : string) : nat :=
  match s with
  | EmptyString => 0
  | String d s' => (if Ascii.eqb c d then 1 else 0) + count_char c s'
  end.

Definition popular (b : string) (c : ascii) : bool :=
  let n := String.length b in
  (200 <=? n) && (n / 100 + 1 <? count_char c b).

Fixpoint lookup_len (j : nat) (m : list (nat * nat)) : nat :=
  match m with
  | [] => 0
  | (j', k) :: m' => if j' =? j then k else lookup_len j m'
  end.

Record best := { besti : nat; bestj : nat; bestsize : nat }.

(** Inner loop over [j in b2j[a[i]]] restricted to [blo <= j < bhi]. *)
Fixpoint inner (a b : string) (i : nat) (js : list nat) (j2len : list (nat * nat))
         (acc : list (nat * nat)) (bs : best) : list (nat * nat) * best :=
  match js with
  | [] => (acc, bs)
  | j :: js' =>
      let k := (if j =? 0 then 0 else lookup_len (j - 1) j2len) + 1 in
      let bs' := if bestsize bs <? k
                 then {| besti := i + 1 - k; bestj := j + 1 - k; bestsize := k |}
                 else bs in
      inner a b i js' j2len ((j, k) :: acc) bs'
  end.

Definition b2j_of (a b : string) (i blo bhi : nat) : list nat :=
  match char_at a i with
  | Some c =>
      if popular b c then []
      else filter (fun j => same a b i j) (seq blo (bhi - blo))
  | None => []
  end.

Fixpoint outer (a b : string) (fuel i blo bhi : nat) (j2len : list (nat * nat))
         (bs : best) : best :=
  match fuel with
  | O => bs
  | S f =>
      let '(newj2len, bs') := inner a b i (b2j_of a b i blo bhi) j2len [] bs in
      outer a b f (S i) blo bhi newj2len bs'
  end.

Fixpoint extend_back (a b : string) (fuel alo blo : nat) (bs : best) : best :=
  match fuel with
  | O => bs
  | S f =>
      if (alo <? besti bs) && (blo <? bestj bs)
         && same a b (besti bs - 1) (bestj bs - 1)
      then extend_back a b f alo blo
             {| besti := besti bs - 1; bestj := bestj bs - 1;
                bestsize := bestsize bs + 1 |}
      else bs
  end.

Fixpoint extend_fwd (a b : string) (fuel ahi bhi : nat) (bs : best) : best :=
  match fuel with
  | O => bs
  | S f =>
      if (besti bs + bestsize bs <? ahi) && (bestj bs + bestsize bs <? bhi)
         && same a b (besti bs + bestsize bs) (bestj bs + bestsize bs)
      then extend_fwd a b f ahi bhi
             {| besti := besti bs; bestj := bestj bs; bestsize := bestsize bs + 1 |}
      else bs
  end.

Definition find_longest_match (a b : string) (alo ahi blo bhi : nat) : best :=
  let bs := outer a b (ahi - alo) alo blo bhi []
              {| besti := alo; bestj := blo; bestsize := 0 |} in
  let bs := extend_back a b (ahi - alo) alo blo bs in
  extend_fwd a b (ahi - alo) ahi bhi bs.

(** Total size of [get_matching_blocks()]. *)
Fixpoint matched (a b : string) (fuel alo ahi blo bhi : nat) : nat :=
  match fuel with
  | O => 0
  | S f =>
      let x := find_longest_match a b alo ahi blo bhi in
      let i := besti x in let j := bestj x in let k := bestsize x in
      if k =? 0 then 0
      else k + (if (alo <? i) && (blo <? j) then matched a b f alo i blo j else 0)
             + (if (i + k <? ahi) && (j + k <? bhi)
                then matched a b f (i + k) ahi (j + k) bhi else 0)
  end.

Definition ratio (a b : string) : Q :=
  let la := String.length a in
  let lb := String.length b in
  let m := matched a b (S la) 0 la 0 lb in
  if la + lb =? 0 then 1%Q
  else (Z.of_nat (2 * m) # Pos.of_nat (la + lb))%Q.

End Difflib.

(** [_title_similarity]. *)
Definition _title_similarity (a b : string) : Q :=
  if String.eqb a "" || String.eqb b "" then 0%Q
  else Difflib.ratio (Py.lower a) (Py.lower b).

(** ** [_adaptive_similarity_match] *)
Module Matcher.

(** A path is its string; [scored] pairs a path with its similarity. *)
Definition scored_t := list (string * Q).

Definition matches_at (scored : scored_t) (threshold : Q) : scored_t :=
  filter (fun ps => Qle_bool threshold (snd ps)) scored.

(** The inner loop: up to [_SIMILARITY_MAX_STEPS] bisections of
    [low, high]. *)
Fixpoint bisect (scored : scored_t) (n : nat) (low high : Q) : option (string * Q) :=
  match n with
  | O => None
  | S n' =>
      let mid := ((low + high) / 2)%Q in
      match matches_at scored mid with
      | [m] => Some m
      | [] => bisect scored n' low mid
      | _ => bisect scored n' mid high
      end
  end.

(** The outer loop: [steps] iterations left, current [threshold], and the
    previous iteration's [prev_threshold] and [prev_count]. *)
Fixpoint descend (scored : scored_t) (steps : nat) (threshold : Q)
         (prev_threshold : option Q) (prev_count : option nat)
  : option (string * Q) :=
  match steps with
  | O => None
  | S steps' =>
      let matches := matches_at scored threshold in
      match matches with
      | [m] => Some m
      | [] => descend scored steps' (threshold - _SIMILARITY_STEP)%Q
                (Some threshold) (Some 0)
      | _ =>
          match prev_count, prev_threshold with
          | Some 0, Some pt => bisect scored _SIMILARITY_MAX_STEPS threshold pt
          | _, _ => descend scored steps' (threshold - _SIMILARITY_STEP)%Q
                      (Some threshold) (Some (List.length matches))
          end
      end
  end.

Definition threshold_search (scored : scored_t) : option (string * Q) :=
  descend scored _SIMILARITY_MAX_STEPS _SIMILARITY_START None None.

Definition candidate_title (path : string) : string :=
  Norm._normalize_title_key (Fname._extract_title_from_filename (Fname.path_name path)).

(** The scoring loop: [inl path] when the overlap test returns early,
    otherwise the scored candidates in order. *)
Fixpoint score (title_key : string) (candidates : list string)
  : string + scored_t :=
  match candidates with
  | [] => inr []
  | path :: rest =>
      let ct := candidate_title path in
      if String.eqb ct "" then score title_key rest
      else if _title_overlap_match title_key ct then inl path
      else
        match score title_key rest with
        | inl p => inl p
        | inr sc => inr ((path, _title_similarity title_key ct) :: sc)
        end
  end.

Definition _adaptive_similarity_match (title_key : string) (candidates : list string)
  : option string * Q :=
  if String.eqb title_key "" then (None, 0%Q)
  else
    match score title_key candidates with
    | inl path => (Some path, 1%Q)
    | inr [] => (None, 0%Q)
    | inr scored =>
        match threshold_search scored with
        | Some (path, s) => (Some path, s)
        | None => (None, 0%Q)
        end
    end.

(** The k-th threshold of the descending search, [0.95 - k * 0.05]. *)
Definition ladder (k : nat) : Q := (_SIMILARITY_START - inject_Z (Z.of_nat k) * _SIMILARITY_STEP)%Q.

(** The thresholds the outer loop visits, by repeated subtraction. *)
Fixpoint thr_iter (k : nat) : Q :=
  match k with
  | O => _SIMILARITY_START
  | S k' => (thr_iter k' - _SIMILARITY_STEP)%Q
  end.

End Matcher.

(** ** File resolution ([_resolve_by_title_and_meta], [_resolve_source_md]) *)
Module Resolve.
Import Matcher.

(** The fields of the paper dict read by file resolution, with
    [str(x or "")] already applied. *)
Record paper := {
  paper_title : string;
  source_path : string;
  _year : string;
  _authors : list string
}.

(** [file_index: dict[str, list[Path]]]; [get] is [file_index.get(k, [])]. *)
Definition file_index := list (string * list string).

Fixpoint get (idx : file_index) (k : string) : list string :=
  match idx with
  | [] => []
  | (k', v) :: idx' => if String.eqb k' k then v else get idx' k
  end.

Definition result := (option string * option string * Q)%type.

Definition no_result : result := (None, None, 0%Q).

(** The exact-key lookups of [_resolve_by_title_and_meta]: title,
    compact title and the numeric-stripped variants. *)
Definition exact_stages (title_key : string) (idx : file_index) : option result :=
  match get idx title_key with
  | c :: _ => Some (Some c, Some "title", 1%Q)
  | [] =>
      if String.eqb title_key "" then None
      else
        match get idx ("compact:" ++ Norm._compact_title_key title_key) with
        | c :: _ => Some (Some c, Some "title_compact", 1%Q)
        | [] =>
            let stripped_key := Norm._strip_leading_numeric_tokens title_key in
            if negb (String.eqb stripped_key "")
               && negb (String.eqb stripped_key title_key) then
              match get idx stripped_key with
              | c :: _ => Some (Some c, Some "title_stripped", 1%Q)
              | [] =>
                  match get idx ("compact:" ++ Norm._compact_title_key stripped_key) with
                  | c :: _ => Some (Some c, Some "title_compact", 1%Q)
                  | [] => None
                  end
              end
            else None
        end
  end.

Definition prefix_candidates (title_key : string) (idx : file_index) : list string :=
  let first :=
    match Norm._title_prefix_key title_key with
    | Some pk => get idx pk
    | None => []
    end in
  match first with
  | [] =>
      let stripped_key := Norm._strip_leading_numeric_tokens title_key in
      if negb (String.eqb stripped_key "") && negb (String.eqb stripped_key title_key)
      then match Norm._title_prefix_key stripped_key with
           | Some pk => get idx pk
           | None => []
           end
      else []
  | _ => first
  end.

(** The prefix-key fuzzy step. *)
Definition prefix_stage (title_key : string) (idx : file_index) : option result :=
  match prefix_candidates title_key idx with
  | [] => None
  | cands =>
      match _adaptive_similarity_match title_key cands with
      | (Some m, s) =>
          Some (Some m, Some (if Qle_bool 1 s then "title_prefix" else "title_fuzzy"), s)
      | (None, _) => None
      end
  end.

(** Everything before the year/author step. *)
Definition title_stages (p : paper) (idx : file_index) : option result :=
  let title_key := Norm._normalize_title_key (paper_title p) in
  match exact_stages title_key idx with
  | Some r => Some r
  | None => prefix_stage title_key idx
  end.

Definition author_key_of (p : paper) : string :=
  match _authors p with
  | a :: _ => Fname._normalize_author_key a
  | [] => ""
  end.

(** The year- or author-year-keyed candidates and their match type. *)
Definition year_author_candidates (p : paper) (idx : file_index) : list string * string :=
  let year := Py.strip (_year p) in
  let author_key := author_key_of p in
  let '(cands, mt) :=
    if String.eqb author_key "" then ([], "year")
    else match get idx ("authoryear:" ++ year ++ ":" ++ author_key) with
         | [] => ([], "year")
         | cs => (cs, "author_year")
         end in
  match cands with
  | [] => (get idx ("year:" ++ year), mt)
  | _ => (cands, mt)
  end.

(** The year/author step. *)
Definition year_author_stage (p : paper) (idx : file_index) : result :=
  let title_key := Norm._normalize_title_key (paper_title p) in
  let year := Py.strip (_year p) in
  if negb (Py.isdigit year) then no_result
  else
    let '(cands, mt) := year_author_candidates p idx in
    match cands with
    | [] => no_result
    | [c] => if String.eqb title_key "" then (Some c, Some mt, 1%Q)
             else match _adaptive_similarity_match title_key cands with
                  | (Some m, s) =>
                      if Qlt_le_dec s _AUTHOR_YEAR_MIN_SIMILARITY then no_result
                      else (Some m, Some "title_fuzzy", s)
                  | (None, _) => no_result
                  end
    | _ => match _adaptive_similarity_match title_key cands with
           | (Some m, s) =>
               if Qlt_le_dec s _AUTHOR_YEAR_MIN_SIMILARITY then no_result
               else (Some m, Some "title_fuzzy", s)
           | (None, _) => no_result
           end
    end.

Definition _resolve_by_title_and_meta (p : paper) (idx : file_index) : result :=
  match title_stages p idx with
  | Some r => r
  | None => year_author_stage p idx
  end.

Definition _resolve_source_md (p : paper) (md_index : file_index) : option string :=
  let from_source :=
    if String.eqb (source_path p) "" then []
    else get md_index (Py.lower (Fname.path_name (source_path p))) in
  match from_source with
  | c :: _ => Some c
  | [] => let '(m, _, _) := _resolve_by_title_and_meta p md_index in m
  end.

End Resolve.

(** ** Snapshot database: identity resolution and alias registration
    ([paper/snapshot/update.py]) *)
Module Snapshot.

(** [PaperKeyCandidate] of [identity.py]. *)
Record candidate := {
  paper_key : string;
  key_type : string;
  meta_fingerprint : option string
}.

(** A row of [paper_key_alias(paper_key, paper_id, paper_key_type,
    meta_fingerprint)]. *)
Record alias_row := {
  a_paper_key : string;
  a_paper_id : string;
  a_key_type : string;
  a_meta_fingerprint : option string
}.

(** The columns of a [paper] row that the update and supplement passes
    read or write. *)
Record paper_row := {
  p_paper_id : string;
  p_paper_key : string;
  p_paper_key_type : string;
  p_title : string;
  p_source_hash : string;
  p_source_md_content_hash : string
}.

(** The tables, each as its list of rows in insertion order.  The
    [paper_index] column, which [recompute_paper_index] (of [schema.py],
    not part of the sources) reassigns at the end of an update pass, is not
    modelled; no property below depends on the order of the rows. *)
Record db := {
  papers : list paper_row;
  aliases : list alias_row;
  summaries : list (string * string);
  translations : list (string * string * string)
}.

(** Modelled from the spec: the table definitions of [schema.py] are not
    part of the sources.  Following the spec ("a given paper_key maps to at
    most one paper_id"), [paper_key] is the key of [paper_key_alias], so
    [INSERT OR REPLACE] first deletes the row with the same key. *)
Definition insert_or_replace_alias (r : alias_row) (t : list alias_row) : list alias_row :=
  app (filter (fun r' => negb (String.eqb (a_paper_key r') (a_paper_key r))) t) [r].

(** [SELECT paper_id FROM paper_key_alias WHERE paper_key = ?] with
    [fetchone()]. *)
Fixpoint lookup_alias (t : list alias_row) (k : string) : option string :=
  match t with
  | [] => None
  | r :: t' => if String.eqb (a_paper_key r) k then Some (a_paper_id r)
               else lookup_alias t' k
  end.

Definition paper_exists (d : db) (pid : string) : bool :=
  existsb (fun r => String.eqb (p_paper_id r) pid) (papers d).

Definition with_aliases (d : db) (t : list alias_row) : db :=
  {| papers := papers d; aliases := t; summaries := summaries d;
     translations := translations d |}.

Section Identity.

(** [choose_preferred_key] and [paper_id_for_key] of [identity.py]. *)
Variable choose_preferred_key : list candidate -> candidate.
Variable paper_id_for_key : string -> string.

(** The probing loop of [_resolve_paper_identity]: the first candidate
    with an alias row. *)
Fixpoint probe (t : list alias_row) (cands : list candidate)
  : option (string * candidate) :=
  match cands with
  | [] => None
  | c :: cs =>
      match lookup_alias t (paper_key c) with
      | Some pid => Some (pid, c)
      | None => probe t cs
      end
  end.

(** [_resolve_paper_identity]: [explicit_id] is
    [str(paper.get("paper_id") or paper.get("id") or "").strip()] and
    [cands] is [build_paper_key_candidates(paper)]. *)
Definition _resolve_paper_identity (d : db) (explicit_id : string)
           (cands : list candidate)
  : string * string * string * option string * list candidate :=
  match probe (aliases d) cands with
  | Some (pid, c) => (pid, paper_key c, key_type c, meta_fingerprint c, cands)
  | None =>
      let preferred := choose_preferred_key cands in
      let pid := if String.eqb explicit_id "" then paper_id_for_key (paper_key preferred)
                 else explicit_id in
      (pid, paper_key preferred, key_type preferred, meta_fingerprint preferred, cands)
  end.

(** The alias loop of [_add_new_paper]. *)
Fixpoint register_aliases (pid : string) (cands : list candidate) (t : list alias_row)
  : list alias_row :=
  match cands with
  | [] => t
  | c :: cs =>
      register_aliases pid cs
        (insert_or_replace_alias
           {| a_paper_key := paper_key c; a_paper_id := pid; a_key_type := key_type c;
              a_meta_fingerprint :=
                if String.eqb (key_type c) "meta" then meta_fingerprint c else None |} t)
  end.

(** An input paper as the update pass sees it. *)
Record input := {
  i_explicit_id : string;
  i_title : string;
  i_source_hash : string;
  i_source_md_hash : string;         (* [_hash_file(md_path)], [""] without markdown *)
  i_candidates : list candidate;
  i_template_tags : list string;
  i_translations : list (string * string)
}.

(** The table writes of [_add_new_paper]: the [paper] row, the aliases,
    [INSERT OR IGNORE] summaries and [INSERT OR REPLACE] translations
    (given as [(lang, content hash)]). *)
Definition _add_new_paper (d : db) (p : input) (pid key ktype : string) : db :=
  let row := {| p_paper_id := pid; p_paper_key := key; p_paper_key_type := ktype;
                p_title := Py.strip (i_title p); p_source_hash := i_source_hash p;
                p_source_md_content_hash := i_source_md_hash p |} in
  let summ := fold_left
      (fun acc tag => if existsb (fun r => String.eqb (fst r) pid && String.eqb (snd r) tag) acc
                      then acc else app acc [(pid, tag)])
      (i_template_tags p) (summaries d) in
  let trans := fold_left
      (fun acc lh =>
         app (filter (fun r => negb (let '(pid', lang', _) := r in
                                     String.eqb pid' pid && String.eqb lang' (fst lh))) acc)
             [(pid, fst lh, snd lh)])
      (i_translations p) (translations d) in
  {| papers := app (papers d) [row];
     aliases := register_aliases pid (i_candidates p) (aliases d);
     summaries := summ; translations := trans |}.

(** One iteration of the loop of [update_snapshot]. *)
Definition update_one (d : db) (p : input) : db :=
  let '(pid, key, ktype, _, cands) := _resolve_paper_identity d (i_explicit_id p) (i_candidates p) in
  if paper_exists d pid then d else _add_new_paper d p pid key ktype.

(** The loop of [update_snapshot].  The closing [recompute_paper_index]
    and [recompute_facet_counts] calls (update.py:694) only rewrite the
    [paper_index] column and the facet tables, neither of which is
    modelled here. *)
Definition update_snapshot (d : db) (ps : list input) : db := fold_left update_one ps d.

End Identity.

(** The snapshot a fresh [init_snapshot_db] creates. *)
Definition empty_db : db :=
  {| papers := []; aliases := []; summaries := []; translations := [] |}.

(** Each paper key is mapped to at most one paper id. *)
Definition alias_functional (t : list alias_row) : Prop :=
  forall r1 r2, In r1 t -> In r2 t -> a_paper_key r1 = a_paper_key r2 ->
                a_paper_id r1 = a_paper_id r2.

End Snapshot.

(** ** Content-addressed blob storage *)
Module Store.

Section Store.

(** [hashlib.sha256(data).hexdigest()] and the extension
    [mimetypes.guess_extension] yields (after [_EXTENSION_OVERRIDES]). *)
Variable sha256_hex : list Byte.byte -> string.
Variable _extension_from_mime : string -> option string.

(** A storage directory: its files, by name, with their bytes. *)
Definition area := list (string * list Byte.byte).

Definition file_exists (a : area) (name : string) : bool :=
  existsb (fun f => String.eqb (fst f) name) a.

(** [dest.write_bytes(data)] guarded by [if not dest.exists()]. *)
Definition write_if_absent (a : area) (name : string) (data : list Byte.byte) : area :=
  if file_exists a name then a else app a [(name, data)].

(** The state [store_bytes] works on: the shared [written] set of file
    names and the images directory. *)
Record state := { written : list string; images : area }.

(** [rewrite_markdown_images.store_bytes]; the returned path is
    [images/<sha256><ext>]. *)
Definition store_bytes (mime : string) (data : list Byte.byte) (st : state)
  : option string * state :=
  match _extension_from_mime mime with
  | None => (None, st)
  | Some ext =>
      let filename := sha256_hex data ++ ext in
      let rel := "images/" ++ filename in
      if existsb (String.eqb filename) (written st) then (Some rel, st)
      else (Some rel, {| written := filename :: written st;
                         images := write_if_absent (images st) filename data |})
  end.

Fixpoint store_all (ops : list (string * list Byte.byte)) (st : state) : state :=
  match ops with
  | [] => st
  | (m, d) :: ops' => store_all ops' (snd (store_bytes m d st))
  end.

(** The copy of a source markdown (or PDF) in [_add_new_paper]:
    [dst = static_dir / "md" / f"{hash}.md"], copied when absent. *)
Definition put_md (a : area) (data : list Byte.byte) : area :=
  write_if_absent a (sha256_hex data ++ ".md") data.

Definition names (a : area) : list string := map fst a.

Definition store_inv (st : state) : Prop :=
  NoDup (names (images st)) /\
  (forall f, In f (written st) -> In f (names (images st))).

End Store.
End Store.

(** ** Supplement pass ([paper/snapshot/supplement.py]) *)
Module Supplement.
Import Snapshot.

(** The fields of an input paper dict the supplement pass reads; each is
    [""] when absent or not a string. *)
Record input := {
  explicit : string;                 (* paper.get("paper_id") or paper.get("id") *)
  source_hash : string;
  source_path : string;
  source_md_content_hash : string;
  prompt_template : string;
  template_tag : string
}.

(** A translated-markdown root: its sub-directories in [iterdir()] order,
    each a language name with its file names. *)
Definition root := list (string * list string).

Section Supplement.

(** [stable_hash] of [paper/utils.py]; [read_md_hash p] is the SHA-256 of
    the UTF-8 text of the file at [p] when it is a file;
    [build_paper_key_candidates] of [identity.py]; [processed_hash f] is the
    hash of the translated file [f] after [rewrite_markdown_images]. *)
Variable stable_hash : string -> string.
Variable read_md_hash : string -> option string.
Variable build_paper_key_candidates : input -> list candidate.
Variable processed_hash : string -> string.

(** [_rows_to_ids]: paper ids in row order without repeats. *)
Fixpoint dedup (seen : list string) (ids : list string) : list string :=
  match ids with
  | [] => []
  | x :: xs => if existsb (String.eqb x) seen then dedup seen xs
               else x :: dedup (x :: seen) xs
  end.

Definition ids_where (d : db) (f : paper_row -> string) (v : string) : list string :=
  dedup [] (map p_paper_id (filter (fun r => String.eqb (f r) v) (papers d))).

(** [SELECT paper_id FROM paper_key_alias WHERE paper_key = ?] with
    [fetchall()]. *)
Definition alias_ids (d : db) (k : string) : list string :=
  map a_paper_id (filter (fun r => String.eqb (a_paper_key r) k) (aliases d)).

Definition _resolve_existing_paper_ids (d : db) (p : input) : list string :=
  let pid := Py.strip (explicit p) in
  if negb (String.eqb pid "") && paper_exists d pid then [pid]
  else
  let by_hash :=
    let h := Py.strip (source_hash p) in
    if String.eqb h "" then []
    else match ids_where d p_source_hash h with
         | [] => ids_where d p_source_md_content_hash h
         | ids => ids
         end in
  match by_hash with
  | _ :: _ => by_hash
  | [] =>
  let by_path :=
    let sp := Py.strip (source_path p) in
    if String.eqb sp "" then []
    else match ids_where d p_source_hash (stable_hash sp) with
         | [] => match read_md_hash sp with
                 | Some ch => ids_where d p_source_md_content_hash ch
                 | None => []
                 end
         | ids => ids
         end in
  match by_path with
  | _ :: _ => by_path
  | [] => dedup [] (flat_map (fun c => alias_ids d (paper_key c))
                             (build_paper_key_candidates p))
  end
  end.

Definition has_summary (d : db) (pid tag : string) : bool :=
  existsb (fun r => String.eqb (fst r) pid && String.eqb (snd r) tag) (summaries d).

(** [_supplement_templates] (its table write). *)
Definition _supplement_templates (d : db) (pid : string) (p : input) : db :=
  let tag := if negb (String.eqb (prompt_template p) "") then prompt_template p
             else if negb (String.eqb (template_tag p) "") then template_tag p
             else "default" in
  if has_summary d pid tag then d
  else {| papers := papers d; aliases := aliases d;
          summaries := app (summaries d) [(pid, tag)];
          translations := translations d |}.

Definition has_translation (d : db) (pid lang : string) : bool :=
  existsb (fun r => let '(pid', lang', _) := r in String.eqb pid' pid && String.eqb lang' lang)
          (translations d).

(** [INSERT OR REPLACE INTO paper_translation]; modelled from the spec,
    [(paper_id, lang)] is the key of [paper_translation]. *)
Definition replace_translation (d : db) (pid lang h : string) : db :=
  {| papers := papers d; aliases := aliases d; summaries := summaries d;
     translations :=
       app (filter (fun r => negb (let '(pid', lang', _) := r in
                                   String.eqb pid' pid && String.eqb lang' lang))
                   (translations d)) [(pid, lang, h)] |}.

(** [trans_file.suffix == ".md"]. *)
Definition md_suffix (name : string) : bool :=
  Py.endswith name ".md" && (3 <? String.length name).

(** The scan of one language directory: the first matching file. *)
Definition find_translation (sh pid lang : string) (files : list string) : option string :=
  let possible := [sh ++ "." ++ lang ++ ".md"; sh ++ ".md"; pid ++ "." ++ lang ++ ".md"] in
  find (fun f => md_suffix f && existsb (fun n => Py.contains f n) possible) files.

Definition supplement_lang (sh pid : string) (d : db) (ld : string * list string) : db :=
  let '(lang, files) := ld in
  if has_translation d pid lang then d
  else match find_translation sh pid lang files with
       | Some f => replace_translation d pid lang (processed_hash f)
       | None => d
       end.

(** [_supplement_translations] (its table writes). *)
Definition _supplement_translations (d : db) (pid : string) (p : input) (roots : list root)
  : db :=
  let sh := if negb (String.eqb (source_hash p) "") then source_hash p
            else source_md_content_hash p in
  if String.eqb sh "" then d
  else fold_left (fun d r => fold_left (supplement_lang sh pid) r d) roots d.

(** The body of the loop over papers in [supplement_snapshot]. *)
Definition supplement_paper (roots : list root) (d : db) (p : input) : db :=
  fold_left (fun d pid => _supplement_translations (_supplement_templates d pid p) pid p roots)
            (_resolve_existing_paper_ids d p) d.

Definition supplement_snapshot (roots : list root) (d : db) (ps : list input) : db :=
  fold_left (supplement_paper roots) ps d.

End Supplement.
(** What one supplement step may do to the tables: keep [paper] and
    [paper_key_alias] as they are, keep every summary row and add only
    summaries whose key was absent, keep every translation row whose key is
    not being written and write only keys that were absent. *)
Definition frame (d d' : db) : Prop :=
  papers d' = papers d /\ aliases d' = aliases d /\
  (forall r, In r (summaries d) -> In r (summaries d')) /\
  (forall pid tag, In (pid, tag) (summaries d') -> ~ In (pid, tag) (summaries d) ->
     has_summary d pid tag = false) /\
  (forall r, In r (translations d) -> In r (translations d')) /\
  (forall pid lang h, In (pid, lang, h) (translations d') -> ~ In (pid, lang, h) (translations d) ->
     has_translation d pid lang = false).

End Supplement.

(** The snapshot states the tool can produce: a fresh database, changed by
    update passes and supplement passes. *)
Inductive reachable : Snapshot.db -> Prop :=
| reach_init : reachable Snapshot.empty_db
| reach_update cpk pifk d ps :
    reachable d -> reachable (Snapshot.update_snapshot cpk pifk d ps)
| reach_supplement sh rmh bpkc ph roots d ps :
    reachable d -> reachable (Supplement.supplement_snapshot sh rmh bpkc ph roots d ps).

(** ** Link targets of markdown images ([paper/snapshot/image_utils.py]) *)
Module Links.
Import Py.

(** [s.find(c)] for one character: [None] for [-1]. *)
Fixpoint find_char (s : string) (c : ascii) : option nat :=
  match s with
  | EmptyString => None
  | String c' s' =>
      if Ascii.eqb c' c then Some 0
      else match find_char s' c with Some i => Some (S i) | None => None end
  end.

(** [s[i:j]] and [s[i:]] for [0 <= i]. *)
Definition slice (i j : nat) (s : string) : string := substring i (j - i) s.

Definition slice_from (i : nat) (s : string) : string :=
  substring i (String.length s - i) s.

(** [_split_link_target]: [(target, suffix, prefix, postfix)]. *)
Definition _split_link_target (raw_link : string) : string * string * string * string :=
  let link := strip raw_link in
  let angled :=
    if startswith link "<" then
      match find_char link ">"%char with
      | Some e => Some (slice 1 e link, slice_from (e + 1) link, "<", ">")
      | None => None
      end
    else None in
  match angled with
  | Some r => r
  | None =>
      match split link with
      | [] => ("", "", "", "")
      | target :: _ => (target, slice_from (String.length target) link, "", "")
      end
  end.

(** [s.lstrip(chars)]. *)
Fixpoint lstrip_chars (chars : list ascii) (s : string) : string :=
  match s with
  | EmptyString => EmptyString
  | String c s' =>
      if existsb (Ascii.eqb c) chars then lstrip_chars chars s' else s
  end.

(** [while cleaned.startswith("../"): cleaned = cleaned[3:]]. *)
Fixpoint drop_parent_fuel (fuel : nat) (s : string) : string :=
  match fuel with
  | O => s
  | S f => if startswith s "../" then drop_parent_fuel f (slice_from 3 s) else s
  end.

(** The relative path [store_local] (inside [rewrite_markdown_images])
    joins to the markdown file's directory. *)
Definition clean_local_target (target : string) : string :=
  let cleaned := strip target in
  let cleaned := drop_parent_fuel (String.length cleaned) cleaned in
  let cleaned := replace_char cleaned "\"%char "/" in
  let cleaned := lstrip_chars ["."%char; "/"%char] cleaned in
  lstrip_chars ["/"%char] cleaned.

End Links.

(** ** Template tags ([paper/snapshot/update.py], [paper/db_match.py]) *)
Module Templates.
Import Py.

(** [re.sub(r"[^...]+", rep, s)] for the character class [keep]: every
    maximal run of characters outside [keep] becomes one [rep]; [in_run]
    records that the previous character was replaced. *)
Fixpoint sub_runs (keep : ascii -> bool) (rep : ascii) (in_run : bool) (s : string)
  : string :=
  match s with
  | EmptyString => EmptyString
  | String c s' =>
      if keep c then String c (sub_runs keep rep false s')
      else if in_run then sub_runs keep rep true s'
      else String rep (sub_runs keep rep true s')
  end.

Definition is_us (c : ascii) : bool := Ascii.eqb c "_"%char.

(** The class [a-z0-9_-]. *)
Definition is_tag_char (c : ascii) : bool :=
  is_lower c || is_digit c || is_us c || Ascii.eqb c "-"%char.

Fixpoint lstrip_with (p : ascii -> bool) (s : string) : string :=
  match s with
  | EmptyString => EmptyString
  | String c s' => if p c then lstrip_with p s' else s
  end.

(** [s.strip(chars)]. *)
Definition strip_with (p : ascii -> bool) (s : string) : string :=
  of_list (rev (to_list (lstrip_with p (of_list (rev (to_list (lstrip_with p s))))))).

Definition _canonical_template_tag (value : string) : string :=
  let tag := lower (strip value) in
  let tag := sub_runs is_tag_char "_"%char false tag in
  (* re.sub(r"_+", "_", tag).strip("_") *)
  let tag := strip_with is_us (sub_runs (fun c => negb (is_us c)) "_"%char false tag) in
  if String.eqb tag "" then "default" else tag.

(** [d[k] = v] on a dict kept as its items in insertion order. *)
Fixpoint dict_set {V : Type} (k : string) (v : V) (d : list (string * V))
  : list (string * V) :=
  match d with
  | [] => [(k, v)]
  | (k', v') :: d' => if String.eqb k' k then (k', v) :: d' else (k', v') :: dict_set k v d'
  end.

Section Payloads.

(** A JSON object, as read from the input. *)
Variable dict : Type.

(** A value of the [templates] dict. *)
Inductive tvalue :=
| TDict (d : dict)
| TNone
| TOther (s : string).           (* any other value, as [str(payload)] *)

(** A payload of [_extract_template_payloads]. *)
Inductive payload :=
| PDict (d : dict)
| PSummary (s : string)          (* {"summary": s} *)
| PPaper.                        (* dict(paper) *)

(** The fields of the paper dict read here: [templates] ([None] when it is
    not a dict; a key is [None] when it is not a string), and
    [prompt_template] and [template_tag] as [str(...)], [""] when falsy. *)
Record tpaper := {
  templates : option (list (option string * tvalue));
  prompt_template : string;
  template_tag : string
}.

(** [paper.get("prompt_template") or paper.get("template_tag") or dflt]. *)
Definition first_tag (p : tpaper) (dflt : string) : string :=
  if negb (String.eqb (prompt_template p) "") then prompt_template p
  else if negb (String.eqb (template_tag p) "") then template_tag p
  else dflt.

Definition payload_step (acc : list (string * payload)) (kv : option string * tvalue)
  : list (string * payload) :=
  match fst kv with
  | None => acc
  | Some tag =>
      if String.eqb (strip tag) "" then acc
      else
        let canonical_tag := _canonical_template_tag tag in
        match snd kv with
        | TDict d => dict_set canonical_tag (PDict d) acc
        | TNone => acc
        | TOther s => dict_set canonical_tag (PSummary s) acc
        end
  end.

Definition _extract_template_payloads (p : tpaper) : list (string * payload) :=
  let payloads :=
    match templates p with
    | Some ts => fold_left payload_step ts []
    | None => []
    end in
  match payloads with
  | [] => [(_canonical_template_tag (first_tag p "default"), PPaper)]
  | _ => payloads
  end.

(** [sorted(keys, key=lambda item: item.lower())[0]]: the first key whose
    lower-cased form is least (the sort is stable). *)
Definition min_lower (k : string) (ks : list string) : string :=
  fold_left (fun best k' => if String.ltb (lower k') (lower best) then k' else best) ks k.

(** [_choose_preferred_template]; [None] is the [IndexError] of an empty
    [payloads]. *)
Definition _choose_preferred_template (p : tpaper) (payloads : list (string * payload))
  : option string :=
  let preferred := _canonical_template_tag (first_tag p "") in
  let keys := map fst payloads in
  if negb (String.eqb preferred "") && existsb (String.eqb preferred) keys then Some preferred
  else if existsb (String.eqb "simple") keys then Some "simple"
  else if existsb (String.eqb "simple_phi") keys then Some "simple_phi"
  else match keys with
       | [] => None
       | k :: ks => Some (min_lower k ks)
       end.

End Payloads.

(** No two underscores in a row. *)
Fixpoint no_double_us (l : list ascii) : bool :=
  match l with
  | x :: ((y :: _) as l') => negb (is_us x && is_us y) && no_double_us l'
  | _ => true
  end.

(** The tags [_canonical_template_tag] produces: non-empty, over
    [a-z0-9_-], without [__] and without [_] at either end. *)
Definition good_tag (t : string) : Prop :=
  t <> EmptyString /\ forallb is_tag_char (to_list t) = true /\
  no_double_us (to_list t) = true /\
  (forall r, t <> String "_"%char r) /\ (forall r, to_list t <> app r ["_"%char]).

(** [_available_templates] of [db_match.py]: [templates] is the key list of
    the [templates] dict ([None] when it is not a dict) and [template_order]
    is [[]] when falsy. *)
Definition _available_templates (templates : option (list string))
           (template_order : list string) : list string :=
  match templates with
  | None => []
  | Some keys =>
      let order := match template_order with [] => keys | _ => template_order end in
      let step := fun (acc : list string) (tag : string) =>
        if existsb (String.eqb tag) keys && negb (existsb (String.eqb tag) acc)
        then app acc [tag] else acc in
      let available := fold_left step order [] in
      fold_left (fun acc tag => if negb (existsb (String.eqb tag) acc) then app acc [tag] else acc)
                keys available
  end.

End Templates.

(** ** Month tokens ([_normalize_month_token] of [paper/db_match.py]) *)
Module Month.
Import Py.

Definition month_lookup : list (string * string) :=
  [("january", "01"); ("february", "02"); ("march", "03"); ("april", "04");
   ("may", "05"); ("june", "06"); ("july", "07"); ("august", "08");
   ("september", "09"); ("october", "10"); ("november", "11"); ("december", "12");
   ("jan", "01"); ("feb", "02"); ("mar", "03"); ("apr", "04"); ("jun", "06");
   ("jul", "07"); ("aug", "08"); ("sep", "09"); ("sept", "09"); ("oct", "10");
   ("nov", "11"); ("dec", "12")].

(** [dict.get(k)]. *)
Fixpoint lookup (l : list (string * string)) (k : string) : option string :=
  match l with
  | [] => None
  | (k', v) :: l' => if String.eqb k' k then Some v else lookup l' k
  end.

(** [int(s)] of a string of ASCII digits. *)
Definition int_of_digits (s : string) : nat :=
  fold_left (fun n c => 10 * n + (code c - 48)) (to_list s) 0.

Definition digit (n : nat) : ascii := ascii_of_nat (48 + n).

(** [f"{num:02d}"] for [num < 100]. *)
Definition fmt02 (n : nat) : string :=
  String (digit (n / 10)) (String (digit (n mod 10)) EmptyString).

(** [value] is [str(value)], [""] when [value] is falsy. *)
Definition _normalize_month_token (value : string) : option string :=
  if String.eqb value "" then None
  else
    let raw := lower (strip value) in
    if String.eqb raw "" then None
    else
      let num := int_of_digits raw in
      if isdigit raw && (1 <=? num) && (num <=? 12) then Some (fmt02 num)
      else lookup month_lookup raw.

Definition months : list string :=
  ["01"; "02"; "03"; "04"; "05"; "06"; "07"; "08"; "09"; "10"; "11"; "12"].

End Month.

(** ** File indexes ([_build_file_index], [_build_file_index_from_paths]) *)
Module Index.
Import Py.

(** [index.setdefault(k, []).append(v)]. *)
Fixpoint add (idx : Resolve.file_index) (k v : string) : Resolve.file_index :=
  match idx with
  | [] => [(k, [v])]
  | (k', l) :: idx' => if String.eqb k' k then (k', app l [v]) :: idx'
                       else (k', l) :: add idx' k v
  end.

(** [suffixes == {".pdf"}] for the set given by a list. *)
Definition pdf_only (suffixes : list string) : bool :=
  match suffixes with
  | [] => false
  | _ => forallb (String.eqb ".pdf") suffixes
  end.

(** The title keys of one file: the [if title_key:] block. *)
Definition index_title (idx : Resolve.file_index) (name_key title_key resolved : string)
  : Resolve.file_index :=
  let idx := if String.eqb title_key name_key then idx else add idx title_key resolved in
  let compact_key := Norm._compact_title_key title_key in
  let idx := if String.eqb compact_key "" then idx
             else add idx ("compact:" ++ compact_key) resolved in
  let idx := match Norm._title_prefix_key title_key with
             | Some pk => add idx pk resolved
             | None => idx
             end in
  let stripped_key := Norm._strip_leading_numeric_tokens title_key in
  if negb (String.eqb stripped_key "") && negb (String.eqb stripped_key title_key) then
    let idx := add idx stripped_key resolved in
    let stripped_compact := Norm._compact_title_key stripped_key in
    let idx := if String.eqb stripped_compact "" then idx
               else add idx ("compact:" ++ stripped_compact) resolved in
    match Norm._title_prefix_key stripped_key with
    | Some sp => add idx sp resolved
    | None => idx
    end
  else idx.

(** The year and author-year keys of [_build_file_index]. *)
Definition index_meta (idx : Resolve.file_index) (name resolved : string)
  : Resolve.file_index :=
  match Fname._extract_year_author_from_filename name with
  | (Some year_hint, author_hint) =>
      if String.eqb year_hint "" then idx
      else
        let idx := add idx ("year:" ++ year_hint) resolved in
        match author_hint with
        | Some a =>
            if String.eqb a "" then idx
            else
              let author_key := Fname._normalize_author_key a in
              if String.eqb author_key "" then idx
              else add idx ("authoryear:" ++ year_hint ++ ":" ++ author_key) resolved
        | None => idx
        end
  | (None, _) => idx
  end.

Section Index.

(** [path.is_file()] ([false] when it raises [OSError]), [path.suffix],
    [path.resolve()], [root.exists() and root.is_dir()] ([false] on
    [OSError]) and [root.rglob("*")]. *)
Variable is_file : string -> bool.
Variable path_suffix : string -> string.
Variable resolve : string -> string.
Variable root_is_dir : string -> bool.
Variable rglob : string -> list string.

(** The checks that let a path into the index. *)
Definition accepted (suffixes : list string) (path : string) : bool :=
  is_file path &&
  (let suffix := lower (path_suffix path) in
   existsb (String.eqb suffix) suffixes
   || (pdf_only suffixes && contains (lower (Fname.path_name path)) ".pdf-"
       && negb (String.eqb suffix ".md"))).

(** The keys one accepted path is filed under; [with_meta] adds the
    year/author keys of [_build_file_index]. *)
Definition index_path (with_meta : bool) (idx : Resolve.file_index) (path : string)
  : Resolve.file_index :=
  let resolved := resolve path in
  let name := Fname.path_name path in
  let name_key := lower name in
  let idx := add idx name_key resolved in
  let title_key := Norm._normalize_title_key (Fname._extract_title_from_filename name) in
  let idx := if String.eqb title_key "" then idx
             else index_title idx name_key title_key resolved in
  if with_meta then index_meta idx name resolved else idx.

Definition index_paths (with_meta : bool) (suffixes : list string)
           (idx : Resolve.file_index) (paths : list string) : Resolve.file_index :=
  fold_left (fun idx path => if accepted suffixes path then index_path with_meta idx path else idx)
            paths idx.

Definition _build_file_index_from_paths (paths : list string) (suffixes : list string)
  : Resolve.file_index :=
  index_paths false suffixes [] paths.

Definition _build_file_index (roots : list string) (suffixes : list string)
  : Resolve.file_index :=
  fold_left (fun idx root =>
               if root_is_dir root then index_paths true suffixes idx (rglob root) else idx)
            roots [].

(** The paths [_build_file_index] walks: those [rglob] finds under a root
    that is a directory. *)
Definition walked (roots : list string) (p : string) : Prop :=
  exists root, In root roots /\ root_is_dir root = true /\ In p (rglob root).

End Index.

(** The normalised title key [index_path] files a path under. *)
Definition title_key_of (path : string) : string :=
  Norm._normalize_title_key (Fname._extract_title_from_filename (Fname.path_name path)).
End Index.

(** ** Words of normalised keys *)
Module Keys.

(** A word of a normalised key: non-empty, over [a-z0-9]. *)
Definition word (t : string) : Prop :=
  t <> EmptyString /\ forallb (fun c => Py.is_lower c || Py.is_digit c) (Py.to_list t) = true.

End Keys.

(** ** Invariants of the snapshot tables *)
Module Invariants.
Import Snapshot.

(** Every alias row points to an existing [paper] row. *)
Definition aliases_ok (d : db) : Prop :=
  forall r, In r (aliases d) -> paper_exists d (a_paper_id r) = true.

(** Every row of [paper_key_alias], [paper_summary] and
    [paper_translation] refers to an existing [paper] row. *)
Definition refs_ok (d : db) : Prop :=
  aliases_ok d /\
  (forall pid tag, In (pid, tag) (summaries d) -> paper_exists d pid = true) /\
  (forall pid lang h, In (pid, lang, h) (translations d) -> paper_exists d pid = true).

(** [d'] keeps every row of [d]. *)
Definition extends (d d' : db) : Prop :=
  (forall r, In r (papers d) -> In r (papers d')) /\
  (forall r, In r (aliases d) -> In r (aliases d')) /\
  (forall r, In r (summaries d) -> In r (summaries d')) /\
  (forall r, In r (translations d) -> In r (translations d')).

End Invariants.

(** ** List-valued fields of a paper ([_normalize_authors],
    [_normalize_str_list] of [paper/snapshot/update.py]) *)
Module NormLists.

(** The value of a paper field: [None], a list (each item given as
    [str(item)]), a string, or anything else (given as [str(value)]). *)
Inductive pyval :=
| VNone
| VList (items : list string)
| VStr (s : string)
| VOther (s : string).

(** [s.split(",")] and [re.split(r"[;,]", s)]: the pieces between
    separators, empty ones included. *)
Fixpoint split_on (sep : ascii -> bool) (s : string) : list string :=
  match s with
  | EmptyString => [EmptyString]
  | String c r =>
      let parts := split_on sep r in
      if sep c then EmptyString :: parts
      else match parts with
           | p :: ps => String c p :: ps
           | [] => [String c EmptyString]
           end
  end.

(** [[x.strip() for x in parts if x.strip()]]. *)
Fixpoint stripped_nonempty (parts : list string) : list string :=
  match parts with
  | [] => []
  | x :: xs => if String.eqb (Py.strip x) "" then stripped_nonempty xs
               else Py.strip x :: stripped_nonempty xs
  end.

Definition _normalize_authors (value : pyval) : list string :=
  match value with
  | VNone => []
  | VList items => stripped_nonempty items
  | VStr s => stripped_nonempty (split_on (fun c => Ascii.eqb c ","%char) s)
  | VOther s => if String.eqb (Py.strip s) "" then [] else [Py.strip s]
  end.

Definition _normalize_str_list (value : pyval) : list string :=
  match value with
  | VNone => []
  | VList items => stripped_nonempty items
  | VStr s => stripped_nonempty
                (split_on (fun c => Ascii.eqb c ";"%char || Ascii.eqb c ","%char) s)
  | VOther s => if String.eqb (Py.strip s) "" then [] else [Py.strip s]
  end.

End NormLists.

(** * Properties *)

(** ** The threshold search *)
Module MatcherFacts.
Import Matcher.

Lemma matches_at_spec (sc : scored_t) (t : Q) (x : string * Q) :
  In x (matches_at sc t) <-> In x sc /\ (t <= snd x)%Q.
Proof.
  unfold matches_at. rewrite filter_In, Qle_bool_iff. tauto.
Qed.

Lemma matches_at_mono (sc : scored_t) (t t' : Q) (x : string * Q) :
  (t' <= t)%Q -> In x (matches_at sc t) -> In x (matches_at sc t').
Proof.
  rewrite !matches_at_spec. intros Hle [Hin Ht]. split; [exact Hin|].
  eapply Qle_trans; eassumption.
Qed.

Lemma matches_at_Qeq (sc : scored_t) (t t' : Q) :
  (t == t')%Q -> matches_at sc t = matches_at sc t'.
Proof.
  intros Heq. unfold matches_at. apply filter_ext. intros [p s]; simpl.
  destruct (Qle_bool t s) eqn:E1, (Qle_bool t' s) eqn:E2; try reflexivity.
  - apply Qle_bool_iff in E1. rewrite Heq in E1. apply Qle_bool_iff in E1. congruence.
  - apply Qle_bool_iff in E2. rewrite <- Heq in E2. apply Qle_bool_iff in E2. congruence.
Qed.

Lemma filter_length_mono {A} (f g : A -> bool) (l : list A) :
  (forall x, f x = true -> g x = true) ->
  List.length (filter f l) <= List.length (filter g l).
Proof.
  intros H. induction l as [|a l IH]; simpl; [lia|].
  destruct (f a) eqn:Ef.
  - rewrite (H a Ef). simpl. lia.
  - destruct (g a); simpl; lia.
Qed.

Lemma matches_at_length_mono (sc : scored_t) (t t' : Q) :
  (t' <= t)%Q -> List.length (matches_at sc t) <= List.length (matches_at sc t').
Proof.
  intros Hle. unfold matches_at. apply filter_length_mono.
  intros [p s] H. simpl in *. apply Qle_bool_iff in H. apply Qle_bool_iff.
  eapply Qle_trans; eassumption.
Qed.

Lemma bisect_Qeq (sc : scored_t) (n : nat) :
  forall low high low' high', (low == low')%Q -> (high == high')%Q ->
  bisect sc n low high = bisect sc n low' high'.
Proof.
  induction n as [|n IH]; intros low high low' high' Hl Hh; simpl; [reflexivity|].
  assert (Hm : ((low + high) / 2 == (low' + high') / 2)%Q) by (rewrite Hl, Hh; reflexivity).
  rewrite (matches_at_Qeq sc _ _ Hm).
  destruct (matches_at sc ((low' + high') / 2)) as [|m [|m2 r]].
  - apply IH; [exact Hl | exact Hm].
  - reflexivity.
  - apply IH; [exact Hm | exact Hh].
Qed.

(** A result of [bisect] is the only candidate at or above some threshold. *)
Lemma bisect_sound (sc : scored_t) (n : nat) :
  forall low high m, bisect sc n low high = Some m -> exists t, matches_at sc t = [m].
Proof.
  induction n as [|n IH]; intros low high m H; simpl in H; [discriminate|].
  destruct (matches_at sc ((low + high) / 2)) as [|m1 [|m2 r]] eqn:E.
  - eapply IH; exact H.
  - injection H as <-. eexists; exact E.
  - eapply IH; exact H.
Qed.

Lemma descend_sound (sc : scored_t) (n : nat) :
  forall thr pt pc m, descend sc n thr pt pc = Some m -> exists t, matches_at sc t = [m].
Proof.
  induction n as [|n IH]; intros thr pt pc m H; cbn [descend] in H; [discriminate|].
  destruct (matches_at sc thr) as [|m1 [|m2 r]] eqn:E.
  - eapply IH; exact H.
  - injection H as <-. eexists; exact E.
  - destruct pc as [[|c]|], pt as [pt|];
      first [ exact (bisect_sound sc _SIMILARITY_MAX_STEPS thr pt m H)
            | exact (IH _ _ _ m H) ].
Qed.

Lemma thr_iter_ladder (k : nat) : (thr_iter k == ladder k)%Q.
Proof.
  induction k as [|k IH]; unfold ladder in *.
  - unfold thr_iter. ring.
  - change (thr_iter (S k)) with (thr_iter k - _SIMILARITY_STEP)%Q.
    rewrite IH. rewrite Nat2Z.inj_succ, <- Z.add_1_r, inject_Z_plus. ring.
Qed.

Lemma ladder_antitone (j k : nat) : j <= k -> (ladder k <= ladder j)%Q.
Proof.
  intros Hjk. unfold ladder, _SIMILARITY_START, _SIMILARITY_STEP.
  assert (H : (inject_Z (Z.of_nat j) <= inject_Z (Z.of_nat k))%Q).
  { rewrite <- Zle_Qle. lia. }
  apply Qplus_le_r. apply Qopp_le_compat.
  apply Qmult_le_r; [reflexivity | exact H].
Qed.

Lemma descend_zero (sc : scored_t) (n : nat) (thr : Q) pt pc :
  matches_at sc thr = [] ->
  descend sc (S n) thr pt pc =
    descend sc n (thr - _SIMILARITY_STEP)%Q (Some thr) (Some 0).
Proof. intros H. cbn [descend]. rewrite H. reflexivity. Qed.

Lemma descend_one (sc : scored_t) (n : nat) (thr : Q) pt pc m :
  matches_at sc thr = [m] -> descend sc (S n) thr pt pc = Some m.
Proof. intros H. cbn [descend]. rewrite H. reflexivity. Qed.

Lemma descend_gap (sc : scored_t) (n : nat) (thr pt : Q) m1 m2 r :
  matches_at sc thr = m1 :: m2 :: r ->
  descend sc (S n) thr (Some pt) (Some 0) = bisect sc _SIMILARITY_MAX_STEPS thr pt.
Proof. intros H. cbn [descend]. rewrite H. reflexivity. Qed.

(** After [k] thresholds without any candidate, the loop sits at the
    [k]-th threshold. *)
Lemma search_after_zeros (sc : scored_t) (k : nat) :
  1 <= k <= _SIMILARITY_MAX_STEPS ->
  (forall j, j < k -> matches_at sc (ladder j) = []) ->
  threshold_search sc =
    descend sc (_SIMILARITY_MAX_STEPS - k) (thr_iter k) (Some (thr_iter (k - 1))) (Some 0).
Proof.
  induction k as [|k IH]; intros Hk Hz; [lia|].
  destruct k as [|k].
  - unfold threshold_search, _SIMILARITY_MAX_STEPS.
    rewrite descend_zero; [reflexivity|].
    rewrite (matches_at_Qeq sc _SIMILARITY_START (ladder 0)) by apply (thr_iter_ladder 0).
    apply Hz. lia.
  - rewrite IH by (try lia; intros j Hj; apply Hz; lia).
    unfold _SIMILARITY_MAX_STEPS in *.
    replace (10 - S k) with (S (10 - S (S k))) by lia.
    rewrite descend_zero.
    + replace (S (S k) - 1) with (S k) by lia. reflexivity.
    + rewrite (matches_at_Qeq sc _ (ladder (S k))) by apply thr_iter_ladder.
      apply Hz. lia.
Qed.

(** Once at least two candidates pass, lower thresholds never isolate one. *)
Lemma descend_ambiguous (sc : scored_t) (n : nat) :
  forall thr pt pc,
  (forall t, (t <= thr)%Q -> 2 <= List.length (matches_at sc t)) ->
  pc <> Some 0 ->
  descend sc n thr pt pc = None.
Proof.
  induction n as [|n IH]; intros thr pt pc Hamb Hpc; cbn [descend]; [reflexivity|].
  pose proof (Hamb thr (Qle_refl thr)) as H2.
  destruct (matches_at sc thr) as [|m1 [|m2 r]] eqn:E; simpl in H2; try lia.
  assert (Hnext : descend sc n (thr - _SIMILARITY_STEP)%Q (Some thr)
                    (Some (List.length (m1 :: m2 :: r))) = None).
  { apply IH; [|simpl; discriminate].
    intros t Ht. apply Hamb. eapply Qle_trans; [exact Ht|].
    unfold _SIMILARITY_STEP. rewrite Qle_minus_iff. ring_simplify. discriminate. }
  destruct pc as [[|c]|]; [congruence| |]; destruct pt; exact Hnext.
Qed.

End MatcherFacts.

(** ** Substring facts for the overlap test *)
Module StrFacts.

Lemma prefix_length (p s : string) :
  String.prefix p s = true -> String.length p <= String.length s.
Proof.
  revert s. induction p as [|c p IH]; intros s H; simpl; [lia|].
  destruct s as [|d s]; simpl in H; [discriminate|].
  destruct (ascii_dec c d); [|discriminate]. simpl. apply IH in H. lia.
Qed.

Lemma prefix_eq_len (p s : string) :
  String.prefix p s = true -> String.length p = String.length s -> p = s.
Proof.
  revert s. induction p as [|c p IH]; intros s H Hl.
  - destruct s; [reflexivity | simpl in Hl; discriminate].
  - destruct s as [|d s]; simpl in H; [discriminate|].
    destruct (ascii_dec c d) as [<-|]; [|discriminate].
    simpl in Hl. f_equal. apply IH; [exact H | lia].
Qed.

Lemma prefix_contains (p s : string) :
  String.prefix p s = true -> Py.contains s p = true.
Proof. intros H. destruct s; cbn [Py.contains]; rewrite H; reflexivity. Qed.

Lemma contains_length (s p : string) :
  Py.contains s p = true -> String.length p <= String.length s.
Proof.
  induction s as [|c s IH]; intros H; cbn [Py.contains] in H.
  - rewrite orb_false_r in H. apply prefix_length in H. exact H.
  - apply orb_true_iff in H as [H|H].
    + apply prefix_length in H. exact H.
    + apply IH in H. simpl. lia.
Qed.

Lemma contains_eq_len (s p : string) :
  Py.contains s p = true -> String.length p = String.length s -> p = s.
Proof.
  destruct s as [|c s]; intros H Hl; cbn [Py.contains] in H.
  - rewrite orb_false_r in H. apply prefix_eq_len; assumption.
  - apply orb_true_iff in H as [H|H].
    + apply prefix_eq_len; assumption.
    + apply contains_length in H. simpl in Hl. lia.
Qed.

End StrFacts.

(** ** C2: disambiguation monotonicity *)

(** C2: if exactly one scored candidate is at or above [T] and exactly one
    is at or above a lower [T'], the two are the same candidate. *)
Theorem unique_match_monotone (sc : Matcher.scored_t) (T T' : Q) (x y : string * Q) :
  (T' < T)%Q ->
  Matcher.matches_at sc T = [x] ->
  Matcher.matches_at sc T' = [y] ->
  x = y.
Proof.
  intros Hlt Hx Hy.
  assert (Hin : In x (Matcher.matches_at sc T')).
  { apply (MatcherFacts.matches_at_mono sc T T' x (Qlt_le_weak _ _ Hlt)).
    rewrite Hx. left. reflexivity. }
  rewrite Hy in Hin. destruct Hin as [<-|[]]. reflexivity.
Qed.

Lemma unique_match_monotone_witness :
  (8 # 10 < 9 # 10)%Q /\
  Matcher.matches_at [("a.md", 95 # 100); ("b.md", 1 # 2)]%Q (9 # 10)%Q = [("a.md", 95 # 100)%Q] /\
  Matcher.matches_at [("a.md", 95 # 100); ("b.md", 1 # 2)]%Q (8 # 10)%Q = [("a.md", 95 # 100)%Q] /\
  ("a.md", 95 # 100)%Q = ("a.md", 95 # 100)%Q.
Proof.
  split; [reflexivity|]. split; [reflexivity|]. split; [reflexivity|].
  exact (unique_match_monotone [("a.md", 95 # 100); ("b.md", 1 # 2)]%Q (9 # 10)%Q (8 # 10)%Q
           ("a.md", 95 # 100)%Q ("a.md", 95 # 100)%Q eq_refl eq_refl eq_refl).
Defined.

(** ** C3: the overlap test *)

(** C3 (counterexample): the title "Deep Learning" normalises to the key
    "deep learning", of 13 characters and 2 tokens; the overlap test
    accepts this key against itself (a paper title against the same file
    title) although the shorter key has fewer than 24 characters and fewer
    than 4 tokens. *)
Lemma overlap_equal_short_keys :
  let k := Norm._normalize_title_key "Deep Learning" in
  k = "deep learning" /\
  _title_overlap_match k k = true /\
  String.length k < _TITLE_MIN_CHARS /\
  List.length (Py.split k) < _TITLE_MIN_TOKENS.
Proof. vm_compute. repeat split; lia. Qed.

Lemma overlap_size_guard (s : string) :
  ((_TITLE_MIN_CHARS <=? String.length s) || (_TITLE_MIN_TOKENS <=? List.length (Py.split s))) = true
  <-> (_TITLE_MIN_CHARS <= String.length s \/ _TITLE_MIN_TOKENS <= List.length (Py.split s)).
Proof. rewrite orb_true_iff, !Nat.leb_le. tauto. Qed.

Lemma overlap_contains_shorter (a b : string) :
  String.length a <= String.length b ->
  (if Py.startswith b a then true else Py.contains b a) = Py.contains b a.
Proof.
  intros _. unfold Py.startswith.
  destruct (String.prefix a b) eqn:E; [|reflexivity].
  rewrite (StrFacts.prefix_contains a b E). reflexivity.
Qed.

(** C3: the overlap test succeeds exactly when both keys are non-empty and
    either they are equal, or one is a substring (a prefix being a special
    case) of the other and that one has at least 24 characters or at least 4
    tokens.  In particular two distinct keys where the shorter one has fewer
    than 24 characters and fewer than 4 tokens are rejected. *)
Theorem overlap_match_iff :
  (forall a b : string,
     _title_overlap_match a b = true <->
     a <> "" /\ b <> "" /\
     (a = b \/
      (Py.contains b a = true /\
       (_TITLE_MIN_CHARS <= String.length a \/ _TITLE_MIN_TOKENS <= List.length (Py.split a))) \/
      (Py.contains a b = true /\
       (_TITLE_MIN_CHARS <= String.length b \/ _TITLE_MIN_TOKENS <= List.length (Py.split b))))) /\
  (forall a b : string,
     a <> b -> String.length a <= String.length b ->
     String.length a < _TITLE_MIN_CHARS -> List.length (Py.split a) < _TITLE_MIN_TOKENS ->
     _title_overlap_match a b = false /\ _title_overlap_match b a = false).
Proof.
  assert (Hiff : forall a b : string,
     _title_overlap_match a b = true <->
     a <> "" /\ b <> "" /\
     (a = b \/
      (Py.contains b a = true /\
       (_TITLE_MIN_CHARS <= String.length a \/ _TITLE_MIN_TOKENS <= List.length (Py.split a))) \/
      (Py.contains a b = true /\
       (_TITLE_MIN_CHARS <= String.length b \/ _TITLE_MIN_TOKENS <= List.length (Py.split b))))).
  { intros a b. unfold _title_overlap_match.
    destruct (String.eqb_spec a "") as [Ha|Ha]; cbv beta iota delta [orb].
    { split; [discriminate | intros [H _]; contradiction]. }
    destruct (String.eqb_spec b "") as [Hb|Hb]; cbv beta iota delta [orb].
    { split; [discriminate | intros [_ [H _]]; contradiction]. }
    destruct (String.eqb_spec a b) as [Hab|Hab]; cbv beta iota.
    { split; [intros _; auto | reflexivity]. }
    destruct (String.length a <=? String.length b) eqn:Hle.
    - apply Nat.leb_le in Hle. cbv beta iota.
      rewrite (overlap_contains_shorter a b Hle).
      destruct (_TITLE_MIN_CHARS <=? String.length a) eqn:E1;
      destruct (_TITLE_MIN_TOKENS <=? List.length (Py.split a)) eqn:E2; cbv beta iota delta [orb];
      apply Nat.leb_le in E1 || apply Nat.leb_gt in E1;
      apply Nat.leb_le in E2 || apply Nat.leb_gt in E2;
      (split;
       [ intros H; first [ discriminate H | split; [exact Ha|]; split; [exact Hb|]; right; left; split; [exact H | lia] ]
       | intros [_ [_ [H | [[H1 H2] | [H1 H2]]]]];
         [ contradiction
         | first [exact H1 | lia]
         | exfalso; apply Hab; symmetry; apply StrFacts.contains_eq_len; [exact H1|];
           pose proof (StrFacts.contains_length a b H1); lia ] ]).
    - apply Nat.leb_gt in Hle. cbv beta iota.
      rewrite (overlap_contains_shorter b a) by lia.
      destruct (_TITLE_MIN_CHARS <=? String.length b) eqn:E1;
      destruct (_TITLE_MIN_TOKENS <=? List.length (Py.split b)) eqn:E2; cbv beta iota delta [orb];
      apply Nat.leb_le in E1 || apply Nat.leb_gt in E1;
      apply Nat.leb_le in E2 || apply Nat.leb_gt in E2;
      (split;
       [ intros H; first [ discriminate H | split; [exact Ha|]; split; [exact Hb|]; right; right; split; [exact H | lia] ]
       | intros [_ [_ [H | [[H1 H2] | [H1 H2]]]]];
         [ contradiction
         | pose proof (StrFacts.contains_length b a H1); lia
         | first [exact H1 | lia] ] ]). }
  split; [exact Hiff|].
  intros a b Hab Hle Hc Ht.
  split; apply not_true_is_false; rewrite Hiff;
    intros [_ [_ [H | [[H1 H2] | [H1 H2]]]]].
  - contradiction.
  - lia.
  - apply Hab. symmetry. apply StrFacts.contains_eq_len; [exact H1|].
    pose proof (StrFacts.contains_length a b H1). lia.
  - apply Hab. symmetry. exact H.
  - apply Hab. symmetry. apply StrFacts.contains_eq_len; [exact H1|].
    pose proof (StrFacts.contains_length a b H1). lia.
  - lia.
Qed.

Lemma overlap_match_iff_witness :
  "asurvey of x" <> "asurvey of x and y" /\
  _title_overlap_match "asurvey of x" "asurvey of x and y" = false.
Proof.
  split; [discriminate|].
  refine (proj1 (proj2 overlap_match_iff "asurvey of x" "asurvey of x and y" _ _ _ _)).
  - discriminate.
  - vm_compute. lia.
  - vm_compute. lia.
  - vm_compute. lia.
Defined.

(** ** C1: the descending threshold search *)

Module SearchFacts.
Import Matcher MatcherFacts.

(** The wrapper, once the overlap test has failed for every candidate and
    some candidate was scored, reports the result of the threshold search. *)
Lemma adaptive_via_search (tk : string) (cands : list string) (sc : scored_t) :
  tk <> "" -> score tk cands = inr sc -> sc <> [] ->
  _adaptive_similarity_match tk cands =
    match threshold_search sc with
    | Some (p, s) => (Some p, s)
    | None => (None, 0%Q)
    end.
Proof.
  intros Htk Hsc Hne. unfold _adaptive_similarity_match.
  destruct (String.eqb_spec tk "") as [E|_]; [contradiction|].
  rewrite Hsc. destruct sc as [|x sc']; [contradiction|reflexivity].
Qed.

Lemma matches_thr_iter (sc : scored_t) (k : nat) :
  matches_at sc (thr_iter k) = matches_at sc (ladder k).
Proof. apply matches_at_Qeq, thr_iter_ladder. Qed.

Lemma search_isolates (sc : scored_t) (k : nat) m :
  k < _SIMILARITY_MAX_STEPS ->
  (forall j, j < k -> matches_at sc (ladder j) = []) ->
  matches_at sc (ladder k) = [m] ->
  threshold_search sc = Some m.
Proof.
  intros Hk Hz Hm. destruct k as [|k].
  - unfold threshold_search, _SIMILARITY_MAX_STEPS. apply descend_one.
    rewrite <- Hm. exact (matches_thr_iter sc 0).
  - rewrite (search_after_zeros sc (S k)) by (try exact Hz; unfold _SIMILARITY_MAX_STEPS in *; lia).
    unfold _SIMILARITY_MAX_STEPS in *.
    replace (10 - S k) with (S (10 - S (S k))) by lia.
    apply descend_one. rewrite matches_thr_iter. exact Hm.
Qed.

Lemma search_gap (sc : scored_t) (k : nat) :
  1 <= k < _SIMILARITY_MAX_STEPS ->
  (forall j, j < k -> matches_at sc (ladder j) = []) ->
  2 <= List.length (matches_at sc (ladder k)) ->
  threshold_search sc = bisect sc _SIMILARITY_MAX_STEPS (ladder k) (ladder (k - 1)).
Proof.
  intros Hk Hz H2.
  rewrite (search_after_zeros sc k) by (try exact Hz; lia).
  unfold _SIMILARITY_MAX_STEPS in *.
  replace (10 - k) with (S (10 - S k)) by lia.
  destruct (matches_at sc (ladder k)) as [|m1 [|m2 r]] eqn:E; simpl in H2; try lia.
  rewrite (descend_gap sc _ _ _ m1 m2 r) by (rewrite matches_thr_iter; exact E).
  apply bisect_Qeq; apply thr_iter_ladder.
Qed.

Lemma search_ambiguous_top (sc : scored_t) :
  2 <= List.length (matches_at sc (ladder 0)) -> threshold_search sc = None.
Proof.
  intros H2. unfold threshold_search. apply descend_ambiguous; [|discriminate].
  intros t Ht. eapply Nat.le_trans; [exact H2|].
  rewrite <- (matches_thr_iter sc 0). apply matches_at_length_mono. exact Ht.
Qed.

Lemma search_all_zero (sc : scored_t) :
  (forall j, j < _SIMILARITY_MAX_STEPS -> matches_at sc (ladder j) = []) ->
  threshold_search sc = None.
Proof.
  intros Hz. rewrite (search_after_zeros sc _SIMILARITY_MAX_STEPS) by (try exact Hz; unfold _SIMILARITY_MAX_STEPS; lia).
  reflexivity.
Qed.

End SearchFacts.

(** C1 (counterexample): with the single candidate "abxyzw.md" scored 1/3
    against "abcdef", none of the thresholds 0.95 down to 0.35 (steps 0 to 12)
    has any candidate and 0.30 (step 13) isolates it, yet the matcher returns
    no-match: the descent stops after ten thresholds, at 0.50. *)
Lemma adaptive_search_stops_at_half :
  Matcher.score "abcdef" ["abxyzw.md"] = inr [("abxyzw.md", 4 # 12)%Q] /\
  (forall j, j < 13 -> Matcher.matches_at [("abxyzw.md", 4 # 12)%Q] (Matcher.ladder j) = []) /\
  Matcher.matches_at [("abxyzw.md", 4 # 12)%Q] (Matcher.ladder 13) = [("abxyzw.md", 4 # 12)%Q] /\
  Matcher._adaptive_similarity_match "abcdef" ["abxyzw.md"] = (None, 0%Q).
Proof.
  split; [vm_compute; reflexivity|].
  split; [|split; vm_compute; reflexivity].
  intros j Hj. do 13 (destruct j as [|j]; [vm_compute; reflexivity|]). lia.
Qed.

(** C1 (amended): for a non-empty title key whose candidates all fail the
    overlap test and of which at least one was scored, the matcher examines
    the ten thresholds 0.95, 0.90, ..., 0.50 ([Matcher.ladder 0] to
    [Matcher.ladder 9]) in order:
    - the first of them at which exactly one candidate scores at or above it
      returns that candidate with its score;
    - if the first threshold with any candidate lies below 0.95 and has two
      or more, the result is that of the (at most 10-step) bisection between
      it and the previous threshold, no-match when the bisection isolates
      nothing;
    - if 0.95 already has two or more, or none of the ten has any, the
      result is no-match;
    - a returned candidate is the unique one at or above some threshold. *)
Theorem adaptive_similarity_search (tk : string) (cands : list string)
  (sc : Matcher.scored_t) :
  tk <> "" -> Matcher.score tk cands = inr sc -> sc <> [] ->
  (forall k p s, k < _SIMILARITY_MAX_STEPS ->
     (forall j, j < k -> Matcher.matches_at sc (Matcher.ladder j) = []) ->
     Matcher.matches_at sc (Matcher.ladder k) = [(p, s)] ->
     Matcher._adaptive_similarity_match tk cands = (Some p, s)) /\
  (forall k, 1 <= k < _SIMILARITY_MAX_STEPS ->
     (forall j, j < k -> Matcher.matches_at sc (Matcher.ladder j) = []) ->
     2 <= List.length (Matcher.matches_at sc (Matcher.ladder k)) ->
     Matcher._adaptive_similarity_match tk cands =
       match Matcher.bisect sc _SIMILARITY_MAX_STEPS (Matcher.ladder k) (Matcher.ladder (k - 1)) with
       | Some (p, s) => (Some p, s)
       | None => (None, 0%Q)
       end) /\
  (2 <= List.length (Matcher.matches_at sc (Matcher.ladder 0)) ->
     Matcher._adaptive_similarity_match tk cands = (None, 0%Q)) /\
  ((forall j, j < _SIMILARITY_MAX_STEPS -> Matcher.matches_at sc (Matcher.ladder j) = []) ->
     Matcher._adaptive_similarity_match tk cands = (None, 0%Q)) /\
  (forall p s, Matcher._adaptive_similarity_match tk cands = (Some p, s) ->
     exists t, Matcher.matches_at sc t = [(p, s)]).
Proof.
  intros Htk Hsc Hne. rewrite (SearchFacts.adaptive_via_search tk cands sc Htk Hsc Hne).
  split; [|split; [|split; [|split]]].
  - intros k p s Hk Hz Hm. rewrite (SearchFacts.search_isolates sc k (p, s) Hk Hz Hm). reflexivity.
  - intros k Hk Hz H2. rewrite (SearchFacts.search_gap sc k Hk Hz H2). reflexivity.
  - intros H2. rewrite (SearchFacts.search_ambiguous_top sc H2). reflexivity.
  - intros Hz. rewrite (SearchFacts.search_all_zero sc Hz). reflexivity.
  - intros p s H. destruct (Matcher.threshold_search sc) as [[p' s']|] eqn:E;
      [|discriminate].
    injection H as <- <-.
    exact (MatcherFacts.descend_sound sc _ _ _ _ (p', s') E).
Qed.

Lemma adaptive_similarity_search_witness :
  Matcher._adaptive_similarity_match "abcdef" ["abxyzw.md"] = (None, 0%Q).
Proof.
  refine (proj1 (proj2 (proj2 (proj2 (adaptive_similarity_search "abcdef" ["abxyzw.md"]
            [("abxyzw.md", 4 # 12)%Q] _ _ _)))) _).
  - discriminate.
  - vm_compute. reflexivity.
  - discriminate.
  - intros j Hj. unfold _SIMILARITY_MAX_STEPS in Hj.
    do 10 (destruct j as [|j]; [vm_compute; reflexivity|]). lia.
Defined.

(** ** C4 and C7: paper identity and the alias table *)

Module AliasFacts.
Import Snapshot.

Lemma lookup_alias_none (t : list alias_row) (k : string) :
  lookup_alias t k = None <-> (forall r, In r t -> a_paper_key r <> k).
Proof.
  induction t as [|r t IH]; simpl.
  - split; [intros _ r []|reflexivity].
  - destruct (String.eqb_spec (a_paper_key r) k) as [E|E].
    + split; [discriminate|]. intros H. exfalso. exact (H r (or_introl eq_refl) E).
    + rewrite IH. split.
      * intros H r' [<-|Hin]; [exact E | exact (H r' Hin)].
      * intros H r' Hin. exact (H r' (or_intror Hin)).
Qed.

Lemma lookup_alias_some (t : list alias_row) (k pid : string) :
  lookup_alias t k = Some pid -> exists r, In r t /\ a_paper_key r = k /\ a_paper_id r = pid.
Proof.
  induction t as [|r t IH]; simpl; [discriminate|].
  destruct (String.eqb_spec (a_paper_key r) k) as [E|E].
  - intros H. injection H as <-. exists r. auto.
  - intros H. destruct (IH H) as [r' [Hin Hr]]. exists r'. auto.
Qed.

Lemma lookup_alias_functional (t : list alias_row) (r : alias_row) :
  alias_functional t -> In r t -> lookup_alias t (a_paper_key r) = Some (a_paper_id r).
Proof.
  intros Hf Hin. destruct (lookup_alias t (a_paper_key r)) as [pid|] eqn:E.
  - destruct (lookup_alias_some t _ _ E) as [r' [Hin' [Hk <-]]].
    f_equal. exact (Hf r' r Hin' Hin Hk).
  - exfalso. rewrite lookup_alias_none in E. exact (E r Hin eq_refl).
Qed.

Lemma probe_skip (t : list alias_row) (pre l : list candidate) :
  (forall c, In c pre -> lookup_alias t (paper_key c) = None) ->
  probe t (app pre l) = probe t l.
Proof.
  induction pre as [|c pre IH]; intros H; [reflexivity|].
  simpl. rewrite (H c (or_introl eq_refl)). apply IH.
  intros c' Hin. exact (H c' (or_intror Hin)).
Qed.

Lemma insert_or_replace_functional (r : alias_row) (t : list alias_row) :
  alias_functional t -> alias_functional (insert_or_replace_alias r t).
Proof.
  unfold insert_or_replace_alias, alias_functional.
  intros Hf r1 r2 H1 H2 Hk.
  apply in_app_or in H1. apply in_app_or in H2.
  destruct H1 as [H1|[<-|[]]]; destruct H2 as [H2|[<-|[]]].
  - apply filter_In in H1, H2. exact (Hf r1 r2 (proj1 H1) (proj1 H2) Hk).
  - apply filter_In in H1. destruct H1 as [_ H1].
    rewrite Hk, String.eqb_refl in H1. discriminate.
  - apply filter_In in H2. destruct H2 as [_ H2].
    rewrite <- Hk, String.eqb_refl in H2. discriminate.
  - reflexivity.
Qed.

Lemma register_aliases_functional (pid : string) (cands : list candidate) :
  forall t, alias_functional t -> alias_functional (register_aliases pid cands t).
Proof.
  induction cands as [|c cs IH]; intros t Hf; simpl; [exact Hf|].
  apply IH, insert_or_replace_functional, Hf.
Qed.

Lemma add_new_paper_functional (d : db) (p : input) (pid key ktype : string) :
  alias_functional (aliases d) -> alias_functional (aliases (_add_new_paper d p pid key ktype)).
Proof. intros Hf. apply register_aliases_functional, Hf. Qed.

Lemma update_one_functional cpk pifk (d : db) (p : input) :
  alias_functional (aliases d) -> alias_functional (aliases (update_one cpk pifk d p)).
Proof.
  intros Hf. unfold update_one.
  destruct (_resolve_paper_identity cpk pifk d (i_explicit_id p) (i_candidates p))
    as [[[[pid key] ktype] mf] cands].
  destruct (paper_exists d pid); [exact Hf|].
  apply add_new_paper_functional, Hf.
Qed.

Lemma update_snapshot_functional cpk pifk (ps : list input) :
  forall d, alias_functional (aliases d) ->
  alias_functional (aliases (update_snapshot cpk pifk d ps)).
Proof.
  unfold update_snapshot. induction ps as [|p ps IH]; intros d Hf; simpl; [exact Hf|].
  apply IH, update_one_functional, Hf.
Qed.

End AliasFacts.

Module SupplementFacts.
Import Snapshot Supplement.

Lemma frame_refl (d : db) : frame d d.
Proof. repeat split; auto; intros; contradiction. Qed.

Lemma has_summary_mono (d d' : db) pid tag :
  (forall r, In r (summaries d) -> In r (summaries d')) ->
  has_summary d pid tag = true -> has_summary d' pid tag = true.
Proof.
  unfold has_summary. rewrite !existsb_exists.
  intros Hs [x [Hx Hp]]. exists x. split; [apply Hs, Hx | exact Hp].
Qed.

Lemma has_translation_mono (d d' : db) pid lang :
  (forall r, In r (translations d) -> In r (translations d')) ->
  has_translation d pid lang = true -> has_translation d' pid lang = true.
Proof.
  unfold has_translation. rewrite !existsb_exists.
  intros Hs [x [Hx Hp]]. exists x. split; [apply Hs, Hx | exact Hp].
Qed.

Lemma pair_dec (x y : string * string) : {x = y} + {x <> y}.
Proof. decide equality; apply string_dec. Defined.

Lemma triple_dec (x y : string * string * string) : {x = y} + {x <> y}.
Proof. decide equality; first [apply string_dec | apply pair_dec]. Defined.

Lemma frame_trans (d1 d2 d3 : db) : frame d1 d2 -> frame d2 d3 -> frame d1 d3.
Proof.
  intros [P1 [A1 [S1 [N1 [T1 M1]]]]] [P2 [A2 [S2 [N2 [T2 M2]]]]].
  split; [congruence|]. split; [congruence|].
  split; [auto|]. split.
  - intros pid tag H3 H1.
    destruct (in_dec pair_dec (pid, tag) (summaries d2)) as [H2|H2].
    + exact (N1 pid tag H2 H1).
    + destruct (has_summary d1 pid tag) eqn:E; [|reflexivity].
      pose proof (N2 pid tag H3 H2) as N.
      rewrite (has_summary_mono d1 d2 pid tag S1 E) in N. discriminate N.
  - split; [auto|].
    intros pid lang h H3 H1.
    destruct (in_dec triple_dec (pid, lang, h) (translations d2)) as [H2|H2].
    + exact (M1 pid lang h H2 H1).
    + destruct (has_translation d1 pid lang) eqn:E; [|reflexivity].
      pose proof (M2 pid lang h H3 H2) as N.
      rewrite (has_translation_mono d1 d2 pid lang T1 E) in N. discriminate N.
Qed.

Lemma frame_fold {A} (f : db -> A -> db) :
  (forall d x, frame d (f d x)) -> forall l d, frame d (fold_left f l d).
Proof.
  intros Hf l. induction l as [|x l IH]; intros d; simpl; [apply frame_refl|].
  eapply frame_trans; [apply Hf | apply IH].
Qed.

Lemma templates_frame (d : db) (pid : string) (p : input) :
  frame d (_supplement_templates d pid p).
Proof.
  unfold _supplement_templates.
  set (tag := if negb (String.eqb (prompt_template p) "") then prompt_template p
              else if negb (String.eqb (template_tag p) "") then template_tag p
              else "default").
  destruct (has_summary d pid tag) eqn:E; [apply frame_refl|].
  split; [reflexivity|]. split; [reflexivity|]. cbn [summaries translations].
  split; [intros r Hr; apply in_or_app; left; exact Hr|].
  split.
  - intros pid' tag' H1 H2. apply in_app_or in H1.
    destruct H1 as [H1|[H1|[]]]; [contradiction|]. injection H1 as <- <-. exact E.
  - split; [auto|]. intros pid' lang h H1 H2. contradiction.
Qed.

Lemma replace_translation_frame (d : db) (pid lang h : string) :
  has_translation d pid lang = false -> frame d (replace_translation d pid lang h).
Proof.
  intros E. split; [reflexivity|]. split; [reflexivity|].
  split; [auto|]. split; [intros pid' tag' H1 H2; contradiction|].
  cbn [translations]. split.
  - intros [[pid' lang'] h'] Hr. apply in_or_app. left. apply filter_In.
    split; [exact Hr|].
    destruct (String.eqb pid' pid && String.eqb lang' lang) eqn:K; [|reflexivity].
    exfalso. unfold has_translation in E.
    assert (Ht : existsb (fun r : string * string * string =>
                   let '(pid'', lang'', _) := r in String.eqb pid'' pid && String.eqb lang'' lang)
                   (translations d) = true).
    { apply existsb_exists. exists (pid', lang', h'). split; [exact Hr | exact K]. }
    rewrite Ht in E. discriminate E.
  - intros pid' lang' h' H1 H2. apply in_app_or in H1.
    destruct H1 as [H1|[H1|[]]].
    + apply filter_In in H1. contradiction (H2 (proj1 H1)).
    + injection H1 as <- <- <-. exact E.
Qed.

Section Roots.
Variable stable_hash : string -> string.
Variable read_md_hash : string -> option string.
Variable build_paper_key_candidates : input -> list candidate.
Variable processed_hash : string -> string.

Lemma supplement_lang_frame (sh pid : string) (d : db) (ld : string * list string) :
  frame d (supplement_lang processed_hash sh pid d ld).
Proof.
  destruct ld as [lang files]. unfold supplement_lang.
  destruct (has_translation d pid lang) eqn:E; [apply frame_refl|].
  destruct (find_translation sh pid lang files); [|apply frame_refl].
  apply replace_translation_frame, E.
Qed.

Lemma translations_frame (d : db) (pid : string) (p : input) (roots : list root) :
  frame d (_supplement_translations processed_hash d pid p roots).
Proof.
  unfold _supplement_translations.
  destruct (String.eqb _ ""); [apply frame_refl|].
  apply frame_fold. intros d' r. apply frame_fold. intros d'' ld.
  apply supplement_lang_frame.
Qed.

Lemma supplement_paper_frame (roots : list root) (d : db) (p : input) :
  frame d (supplement_paper stable_hash read_md_hash build_paper_key_candidates
             processed_hash roots d p).
Proof.
  unfold supplement_paper. apply frame_fold. intros d' pid.
  eapply frame_trans; [apply templates_frame | apply translations_frame].
Qed.

Lemma supplement_snapshot_frame (roots : list root) (ps : list input) (d : db) :
  frame d (supplement_snapshot stable_hash read_md_hash build_paper_key_candidates
             processed_hash roots d ps).
Proof.
  unfold supplement_snapshot. apply frame_fold. intros d' p. apply supplement_paper_frame.
Qed.

Lemma supplement_paper_unresolved (roots : list root) (d : db) (p : input) :
  _resolve_existing_paper_ids stable_hash read_md_hash build_paper_key_candidates d p = [] ->
  supplement_paper stable_hash read_md_hash build_paper_key_candidates processed_hash roots d p = d.
Proof. intros H. unfold supplement_paper. rewrite H. reflexivity. Qed.

End Roots.

End SupplementFacts.

Module IdentityClaims.
Import Snapshot.

(** C4: identity resolution probes the candidate keys in order.  When no key
    before [c] has a row in [paper_key_alias] and [c]'s key has one, the
    record takes that row's paper id (with [c]'s key, type and fingerprint);
    the explicit id, or [paper_id_for_key] of the preferred key, is used only
    when no candidate key has a row.  The alias table is assumed to map each
    key to one id, which holds in every reachable state (C7). *)
Theorem resolve_identity_first_hit (cpk : list candidate -> candidate)
  (pifk : string -> string) (d : db) (explicit_id : string) :
  (forall pre c post r,
     alias_functional (aliases d) ->
     (forall c' r', In c' pre -> In r' (aliases d) -> a_paper_key r' <> paper_key c') ->
     In r (aliases d) -> a_paper_key r = paper_key c ->
     _resolve_paper_identity cpk pifk d explicit_id (app pre (c :: post)) =
       (a_paper_id r, paper_key c, key_type c, meta_fingerprint c, app pre (c :: post))) /\
  (forall cands,
     (forall c' r', In c' cands -> In r' (aliases d) -> a_paper_key r' <> paper_key c') ->
     _resolve_paper_identity cpk pifk d explicit_id cands =
       (if String.eqb explicit_id "" then pifk (paper_key (cpk cands)) else explicit_id,
        paper_key (cpk cands), key_type (cpk cands), meta_fingerprint (cpk cands), cands)).
Proof.
  split.
  - intros pre c post r Hf Hpre Hr Hk. unfold _resolve_paper_identity.
    rewrite AliasFacts.probe_skip.
    + simpl. rewrite <- Hk, (AliasFacts.lookup_alias_functional _ r Hf Hr), Hk. reflexivity.
    + intros c' Hc'. apply AliasFacts.lookup_alias_none. intros r' Hr'.
      exact (Hpre c' r' Hc' Hr').
  - intros cands Hnone. unfold _resolve_paper_identity.
    assert (Hp : probe (aliases d) cands = None).
    { rewrite <- (app_nil_r cands). rewrite AliasFacts.probe_skip; [reflexivity|].
      intros c' Hc'. apply AliasFacts.lookup_alias_none. intros r' Hr'.
      exact (Hnone c' r' Hc' Hr'). }
    rewrite Hp. reflexivity.
Qed.

Lemma resolve_identity_first_hit_witness :
  _resolve_paper_identity
    (fun cs => hd {| paper_key := ""; key_type := ""; meta_fingerprint := None |} cs)
    (fun k => "id-" ++ k)
    {| papers := [];
       aliases := [{| a_paper_key := "doi:10.1/x"; a_paper_id := "P1"; a_key_type := "doi";
                      a_meta_fingerprint := None |}];
       summaries := []; translations := [] |}
    ""
    [{| paper_key := "title:abc"; key_type := "title"; meta_fingerprint := None |};
     {| paper_key := "doi:10.1/x"; key_type := "doi"; meta_fingerprint := None |}]
  = ("P1", "doi:10.1/x", "doi", None,
     [{| paper_key := "title:abc"; key_type := "title"; meta_fingerprint := None |};
      {| paper_key := "doi:10.1/x"; key_type := "doi"; meta_fingerprint := None |}]).
Proof.
  refine (proj1 (resolve_identity_first_hit _ _ _ _)
            [{| paper_key := "title:abc"; key_type := "title"; meta_fingerprint := None |}]
            {| paper_key := "doi:10.1/x"; key_type := "doi"; meta_fingerprint := None |} []
            {| a_paper_key := "doi:10.1/x"; a_paper_id := "P1"; a_key_type := "doi";
               a_meta_fingerprint := None |} _ _ _ _).
  - intros r1 r2 [<-|[]] [<-|[]] _. reflexivity.
  - intros c' r' [<-|[]] [<-|[]]. simpl. discriminate.
  - left. reflexivity.
  - reflexivity.
Defined.

(** C7: in every reachable snapshot state each [paper_key] of
    [paper_key_alias] is mapped to at most one [paper_id]; registering the
    candidate keys of a paper, and adding a new paper in an update pass,
    preserve this. *)
Theorem alias_key_unique :
  (forall d, reachable d -> alias_functional (aliases d)) /\
  (forall pid cands t, alias_functional t -> alias_functional (register_aliases pid cands t)) /\
  (forall d p pid key ktype, alias_functional (aliases d) ->
     alias_functional (aliases (_add_new_paper d p pid key ktype))).
Proof.
  split; [|split; [exact AliasFacts.register_aliases_functional
                  | exact AliasFacts.add_new_paper_functional]].
  intros d Hr. induction Hr as [|cpk pifk d ps _ IH|sh rmh bpkc ph roots d ps _ IH].
  - intros r1 r2 [].
  - apply AliasFacts.update_snapshot_functional, IH.
  - destruct (SupplementFacts.supplement_snapshot_frame sh rmh bpkc ph roots ps d)
      as [_ [Ha _]].
    rewrite Ha. exact IH.
Qed.

Lemma alias_key_unique_witness :
  alias_functional (aliases (update_snapshot
    (fun cs => hd {| paper_key := ""; key_type := ""; meta_fingerprint := None |} cs)
    (fun k => "id-" ++ k) empty_db
    [{| i_explicit_id := ""; i_title := "A title"; i_source_hash := "h"; i_source_md_hash := "";
        i_candidates := [{| paper_key := "title:a"; key_type := "title"; meta_fingerprint := None |}];
        i_template_tags := []; i_translations := [] |}])).
Proof. apply (proj1 alias_key_unique). apply reach_update, reach_init. Defined.

End IdentityClaims.

Module SupplementClaims.
Import Snapshot Supplement.

(** C8: a supplement pass leaves the [paper] and [paper_key_alias] tables
    unchanged (it creates no paper); it keeps every [paper_summary] and
    [paper_translation] row, and every row it adds has a
    [(paper_id, template_tag)] or [(paper_id, lang)] key that had no row
    before; an input record that resolves to no existing paper id leaves
    the database unchanged. *)
Theorem supplement_only_adds (stable_hash : string -> string)
  (read_md_hash : string -> option string)
  (build_paper_key_candidates : Supplement.input -> list candidate)
  (processed_hash : string -> string) (roots : list root) (d : db)
  (ps : list Supplement.input) :
  let d' := supplement_snapshot stable_hash read_md_hash build_paper_key_candidates
              processed_hash roots d ps in
  papers d' = papers d /\ aliases d' = aliases d /\
  (forall r, In r (summaries d) -> In r (summaries d')) /\
  (forall pid tag, In (pid, tag) (summaries d') -> ~ In (pid, tag) (summaries d) ->
     has_summary d pid tag = false) /\
  (forall r, In r (translations d) -> In r (translations d')) /\
  (forall pid lang h, In (pid, lang, h) (translations d') ->
     ~ In (pid, lang, h) (translations d) -> has_translation d pid lang = false) /\
  (forall p, _resolve_existing_paper_ids stable_hash read_md_hash build_paper_key_candidates d p = [] ->
     supplement_paper stable_hash read_md_hash build_paper_key_candidates processed_hash roots d p = d).
Proof.
  intros d'.
  destruct (SupplementFacts.supplement_snapshot_frame stable_hash read_md_hash
              build_paper_key_candidates processed_hash roots ps d)
    as [P [A [S [N [T M]]]]].
  repeat split; try assumption.
  intros p H. apply SupplementFacts.supplement_paper_unresolved, H.
Qed.

Lemma supplement_only_adds_witness :
  supplement_paper (fun s => "sh-" ++ s) (fun _ => None) (fun _ => [])
    (fun f => "ph-" ++ f) [] empty_db
    {| explicit := "P9"; source_hash := ""; source_path := ""; source_md_content_hash := "";
       prompt_template := ""; template_tag := "" |} = empty_db.
Proof.
  apply (proj2 (proj2 (proj2 (proj2 (proj2 (proj2 (supplement_only_adds
           (fun s => "sh-" ++ s) (fun _ => None) (fun _ => []) (fun f => "ph-" ++ f) [] empty_db []))))))).
  vm_compute. reflexivity.
Defined.

End SupplementClaims.

(** ** C6: content-addressed storage *)

Module StoreFacts.
Import Store.

Section Facts.
Variable sha256_hex : list Byte.byte -> string.
Variable ext_of : string -> option string.

Lemma file_exists_iff (a : area) (n : string) :
  file_exists a n = true <-> In n (names a).
Proof.
  unfold file_exists, names. rewrite existsb_exists, in_map_iff. split.
  - intros [f [Hf E]]. apply String.eqb_eq in E. exists f. auto.
  - intros [f [E Hf]]. exists f. split; [exact Hf|]. apply String.eqb_eq, E.
Qed.

Lemma write_nodup (a : area) (n : string) (d : list Byte.byte) :
  NoDup (names a) -> NoDup (names (write_if_absent a n d)).
Proof.
  intros H. unfold write_if_absent.
  destruct (file_exists a n) eqn:E; [exact H|].
  unfold names. rewrite map_app. simpl. apply NoDup_app; [exact H|repeat constructor; auto|].
  intros x Hx [<-|[]]. apply (proj2 (file_exists_iff a n)) in Hx. congruence.
Qed.

Lemma write_in (a : area) (n : string) (d : list Byte.byte) :
  In n (names (write_if_absent a n d)).
Proof.
  unfold write_if_absent. destruct (file_exists a n) eqn:E.
  - apply file_exists_iff, E.
  - unfold names. rewrite map_app. apply in_or_app. right. left. reflexivity.
Qed.

Lemma write_keeps (a : area) (n : string) (d : list Byte.byte) f :
  In f a -> In f (write_if_absent a n d).
Proof.
  intros H. unfold write_if_absent. destruct (file_exists a n); [exact H|].
  apply in_or_app. left. exact H.
Qed.

Lemma write_idem (a : area) (n : string) (d d' : list Byte.byte) :
  write_if_absent (write_if_absent a n d) n d' = write_if_absent a n d.
Proof.
  unfold write_if_absent at 1.
  assert (H : file_exists (write_if_absent a n d) n = true) by apply file_exists_iff, write_in.
  rewrite H. reflexivity.
Qed.

Lemma count_one (l : list string) (x : string) :
  NoDup l -> In x l -> count_occ string_dec l x = 1.
Proof. intros H Hin. exact (proj1 (NoDup_count_occ' string_dec l) H x Hin). Qed.

Lemma names_keep (a a' : area) n :
  (forall f, In f a -> In f a') -> In n (names a) -> In n (names a').
Proof.
  unfold names. intros H Hn. apply in_map_iff in Hn. destruct Hn as [f [<- Hf]].
  apply in_map, H, Hf.
Qed.

(** One call of [store_bytes] with a known extension. *)
Lemma store_bytes_step (mime e : string) (data : list Byte.byte) (st : state) :
  ext_of mime = Some e -> store_inv st ->
  let r := store_bytes sha256_hex ext_of mime data st in
  fst r = Some ("images/" ++ sha256_hex data ++ e) /\
  store_inv (snd r) /\
  In (sha256_hex data ++ e) (written (snd r)) /\
  (forall f, In f (images st) -> In f (images (snd r))).
Proof.
  intros He [Hnd Hw]. unfold store_bytes. rewrite He. cbv zeta.
  destruct (existsb (String.eqb (sha256_hex data ++ e)) (written st)) eqn:E.
  - split; [reflexivity|]. split; [split; assumption|]. split; [|auto].
    apply existsb_exists in E. destruct E as [x [Hx Ex]].
    apply String.eqb_eq in Ex. simpl. rewrite Ex. exact Hx.
  - cbn [fst snd written images]. split; [reflexivity|]. split; [split|split].
    + apply write_nodup, Hnd.
    + intros f [<-|Hf]; [apply write_in|].
      apply (names_keep (images st)); [apply write_keeps | apply Hw, Hf].
    + left. reflexivity.
    + intros f Hf. apply write_keeps, Hf.
Qed.

Lemma store_bytes_other (mime : string) (data : list Byte.byte) (st : state) :
  store_inv st ->
  store_inv (snd (store_bytes sha256_hex ext_of mime data st)) /\
  (forall f, In f (images st) -> In f (images (snd (store_bytes sha256_hex ext_of mime data st)))).
Proof.
  intros Hinv. destruct (ext_of mime) as [e|] eqn:He.
  - destruct (store_bytes_step mime e data st He Hinv) as [_ [H1 [_ H2]]]. auto.
  - unfold store_bytes. rewrite He. simpl. auto.
Qed.

Lemma store_bytes_repeat (mime e : string) (data : list Byte.byte) (st : state) :
  ext_of mime = Some e -> In (sha256_hex data ++ e) (written st) ->
  store_bytes sha256_hex ext_of mime data st = (Some ("images/" ++ sha256_hex data ++ e), st).
Proof.
  intros He Hw. unfold store_bytes. rewrite He. cbv zeta.
  assert (E : existsb (String.eqb (sha256_hex data ++ e)) (written st) = true).
  { apply existsb_exists. exists (sha256_hex data ++ e). split; [exact Hw|apply String.eqb_refl]. }
  rewrite E. reflexivity.
Qed.

Lemma store_all_keeps (ops : list (string * list Byte.byte)) :
  forall st, store_inv st ->
  store_inv (store_all sha256_hex ext_of ops st) /\
  (forall f, In f (images st) -> In f (images (store_all sha256_hex ext_of ops st))).
Proof.
  induction ops as [|[m d] ops IH]; intros st Hinv; simpl; [auto|].
  destruct (store_bytes_other m d st Hinv) as [H1 H2].
  destruct (IH _ H1) as [H3 H4]. auto.
Qed.

Lemma store_all_contains (mime e : string) (data : list Byte.byte) (ops : list (string * list Byte.byte)) :
  ext_of mime = Some e -> In (mime, data) ops ->
  forall st, store_inv st ->
  In (sha256_hex data ++ e) (names (images (store_all sha256_hex ext_of ops st))).
Proof.
  intros He. induction ops as [|[m d] ops IH]; intros Hin st Hinv; [destruct Hin|].
  simpl. destruct Hin as [E|Hin].
  - injection E as -> ->.
    destruct (store_bytes_step mime e data st He Hinv) as [_ [H1 [H2 _]]].
    destruct (store_all_keeps ops _ H1) as [_ H4].
    apply (names_keep _ _ _ H4). apply (proj2 H1), H2.
  - apply IH; [exact Hin|]. apply store_bytes_other, Hinv.
Qed.

Lemma put_md_iter (a : area) (data : list Byte.byte) (n : nat) :
  1 <= n -> Nat.iter n (fun a' => put_md sha256_hex a' data) a = put_md sha256_hex a data.
Proof.
  intros Hn. destruct n as [|n]; [lia|]. clear Hn.
  induction n as [|n IH]; [reflexivity|].
  change (put_md sha256_hex (Nat.iter (S n) (fun a' => put_md sha256_hex a' data) a) data
          = put_md sha256_hex a data).
  rewrite IH. unfold put_md. apply write_idem.
Qed.

End Facts.
End StoreFacts.

Module StoreClaims.
Import Store.

(** C6: storing the bytes [data] with a mime type whose extension is [e],
    from a state whose images directory has no repeated name and whose
    [written] set names only files present:
    - one call returns [images/<sha256 hex of data><e>], keeps the invariant,
      leaves exactly one file of that name and keeps every existing file as
      it was; calling it again with the same bytes changes nothing;
    - after any sequence of stores (any papers, any order) containing those
      bytes, exactly one file of that name exists and every file present
      before is untouched;
    - copying a source markdown once or any number n >= 1 of times leaves
      exactly one file named [<sha256 hex>.md] and keeps every file present
      before. *)
Theorem content_addressed_store (sha256_hex : list Byte.byte -> string)
  (ext_of : string -> option string) (mime e : string) (data : list Byte.byte) :
  ext_of mime = Some e ->
  (forall st, store_inv st ->
     let r := store_bytes sha256_hex ext_of mime data st in
     fst r = Some ("images/" ++ sha256_hex data ++ e) /\
     store_inv (snd r) /\
     count_occ string_dec (names (images (snd r))) (sha256_hex data ++ e) = 1 /\
     (forall f, In f (images st) -> In f (images (snd r))) /\
     store_bytes sha256_hex ext_of mime data (snd r) = (fst r, snd r)) /\
  (forall ops st, store_inv st -> In (mime, data) ops ->
     count_occ string_dec (names (images (store_all sha256_hex ext_of ops st)))
       (sha256_hex data ++ e) = 1 /\
     (forall f, In f (images st) -> In f (images (store_all sha256_hex ext_of ops st)))) /\
  (forall (a : area) n, NoDup (names a) -> 1 <= n ->
     let a' := Nat.iter n (fun x => put_md sha256_hex x data) a in
     count_occ string_dec (names a') (sha256_hex data ++ ".md") = 1 /\
     (forall f, In f a -> In f a')).
Proof.
  intros He. split; [|split].
  - intros st Hinv r.
    destruct (StoreFacts.store_bytes_step sha256_hex ext_of mime e data st He Hinv)
      as [H1 [H2 [H3 H4]]].
    split; [exact H1|]. split; [exact H2|]. split; [|split; [exact H4|]].
    + apply StoreFacts.count_one; [apply (proj1 H2)|]. apply (proj2 H2), H3.
    + unfold r. rewrite H1.
      apply (StoreFacts.store_bytes_repeat sha256_hex ext_of mime e data _ He H3).
  - intros ops st Hinv Hin.
    destruct (StoreFacts.store_all_keeps sha256_hex ext_of ops st Hinv) as [H1 H2].
    split; [|exact H2].
    apply StoreFacts.count_one; [apply (proj1 H1)|].
    apply (StoreFacts.store_all_contains sha256_hex ext_of mime e data ops He Hin st Hinv).
  - intros a n Hnd Hn a'. unfold a'. rewrite (StoreFacts.put_md_iter sha256_hex a data n Hn).
    split.
    + apply StoreFacts.count_one; [apply StoreFacts.write_nodup, Hnd | apply StoreFacts.write_in].
    + apply StoreFacts.write_keeps.
Qed.

Lemma content_addressed_store_witness :
  count_occ string_dec
    (names (images (store_all (fun d => String.string_of_list_byte d)
       (fun m => if String.eqb m "image/png" then Some ".png" else None)
       [("image/png", [Byte.x61]); ("image/png", [Byte.x62]); ("image/png", [Byte.x61])]
       {| written := []; images := [] |})))
    ("a" ++ ".png") = 1.
Proof.
  refine (proj1 (proj1 (proj2 (content_addressed_store (fun d => String.string_of_list_byte d)
     (fun m => if String.eqb m "image/png" then Some ".png" else None) "image/png" ".png" [Byte.x61]
     eq_refl))
     [("image/png", [Byte.x61]); ("image/png", [Byte.x62]); ("image/png", [Byte.x61])]
     {| written := []; images := [] |} _ _)).
  - split; [constructor | intros f []].
  - left. reflexivity.
Defined.

End StoreClaims.

(** ** C9 and C10: file resolution *)

Module ResolveFacts.
Import Matcher Resolve.

Lemma score_members (tk : string) (cands : list string) :
  (forall p, score tk cands = inl p -> In p cands) /\
  (forall sc, score tk cands = inr sc -> forall x, In x sc -> In (fst x) cands).
Proof.
  induction cands as [|c cs [IH1 IH2]]; cbn [score].
  - split; [discriminate|]. intros sc H x Hx. injection H as <-. destruct Hx.
  - destruct (String.eqb (candidate_title c) "").
    + split; [intros p H; right; exact (IH1 p H)|].
      intros sc H x Hx. right. exact (IH2 sc H x Hx).
    + destruct (_title_overlap_match tk (candidate_title c)).
      * split; [intros p H; injection H as <-; left; reflexivity | discriminate].
      * destruct (score tk cs) as [p|sc'] eqn:E.
        -- split; [intros p' H; injection H as <-; right; exact (IH1 p eq_refl)|discriminate].
        -- split; [discriminate|].
           intros sc H x Hx. injection H as <-. destruct Hx as [<-|Hx].
           ++ left. reflexivity.
           ++ right. exact (IH2 sc' eq_refl x Hx).
Qed.

(** A match of the adaptive matcher is one of its candidates. *)
Lemma adaptive_member (tk : string) (cands : list string) (m : string) (s : Q) :
  _adaptive_similarity_match tk cands = (Some m, s) -> In m cands.
Proof.
  unfold _adaptive_similarity_match. destruct (String.eqb tk ""); [discriminate|].
  destruct (score tk cands) as [p|sc] eqn:E.
  - intros H. injection H as <- _. exact (proj1 (score_members tk cands) p E).
  - destruct sc as [|x sc']; [discriminate|].
    destruct (threshold_search (x :: sc')) as [[p s']|] eqn:T; [|discriminate].
    intros H. injection H as <- _.
    destruct (MatcherFacts.descend_sound _ _ _ _ _ _ T) as [t Ht].
    assert (Hin : In (p, s') (matches_at (x :: sc') t)) by (rewrite Ht; left; reflexivity).
    apply MatcherFacts.matches_at_spec in Hin.
    exact (proj2 (score_members tk cands) _ E (p, s') (proj1 Hin)).
Qed.

Definition indexed (idx : file_index) (x : string) : Prop := exists k, In x (get idx k).

Lemma head_indexed (idx : file_index) (k c : string) (cs : list string) :
  get idx k = c :: cs -> indexed idx c.
Proof. intros H. exists k. rewrite H. left. reflexivity. Qed.

Lemma exact_stages_indexed (tk : string) (idx : file_index) (m : string) (t : option string) (s : Q) :
  exact_stages tk idx = Some (Some m, t, s) -> indexed idx m.
Proof.
  unfold exact_stages.
  destruct (get idx tk) as [|c cs] eqn:E1.
  2:{ intros H. injection H as <- _ _. exact (head_indexed _ _ _ _ E1). }
  destruct (String.eqb tk ""); [discriminate|].
  destruct (get idx ("compact:" ++ Norm._compact_title_key tk)) as [|c cs] eqn:E2.
  2:{ intros H. injection H as <- _ _. exact (head_indexed _ _ _ _ E2). }
  destruct (_ && _); [|discriminate].
  destruct (get idx (Norm._strip_leading_numeric_tokens tk)) as [|c cs] eqn:E3.
  2:{ intros H. injection H as <- _ _. exact (head_indexed _ _ _ _ E3). }
  destruct (get idx ("compact:" ++ Norm._compact_title_key (Norm._strip_leading_numeric_tokens tk)))
    as [|c cs] eqn:E4; [discriminate|].
  intros H. injection H as <- _ _. exact (head_indexed _ _ _ _ E4).
Qed.

Lemma prefix_candidates_indexed (tk : string) (idx : file_index) (x : string) :
  In x (prefix_candidates tk idx) -> indexed idx x.
Proof.
  unfold prefix_candidates.
  assert (Hstripped :
    In x (if negb (String.eqb (Norm._strip_leading_numeric_tokens tk) "")
              && negb (String.eqb (Norm._strip_leading_numeric_tokens tk) tk)
          then match Norm._title_prefix_key (Norm._strip_leading_numeric_tokens tk) with
               | Some pk => get idx pk
               | None => []
               end
          else []) -> indexed idx x).
  { destruct (_ && _); [|intros []].
    destruct (Norm._title_prefix_key (Norm._strip_leading_numeric_tokens tk)) as [pk'|];
      [intros H; exists pk'; exact H | intros []]. }
  destruct (Norm._title_prefix_key tk) as [pk|]; [|exact Hstripped].
  destruct (get idx pk) as [|c cs] eqn:E; [exact Hstripped|].
  intros H. exists pk. rewrite E. exact H.
Qed.

Lemma prefix_stage_indexed (tk : string) (idx : file_index) (m : string) (t : option string) (s : Q) :
  prefix_stage tk idx = Some (Some m, t, s) -> indexed idx m.
Proof.
  unfold prefix_stage. destruct (prefix_candidates tk idx) as [|c cs] eqn:E; [discriminate|].
  destruct (_adaptive_similarity_match tk (c :: cs)) as [[m'|] s'] eqn:A; [|discriminate].
  intros H. injection H as <- _ _. apply prefix_candidates_indexed with tk.
  rewrite E. exact (adaptive_member _ _ _ _ A).
Qed.

Lemma year_author_candidates_indexed (p : paper) (idx : file_index) (x : string) :
  In x (fst (year_author_candidates p idx)) -> indexed idx x.
Proof.
  unfold year_author_candidates. cbv zeta.
  destruct (String.eqb (author_key_of p) "").
  - simpl. intros H. eexists. exact H.
  - destruct (get idx ("authoryear:" ++ Py.strip (_year p) ++ ":" ++ author_key_of p))
      as [|c cs] eqn:E.
    + simpl. intros H. eexists. exact H.
    + simpl. intros H. exists ("authoryear:" ++ Py.strip (_year p) ++ ":" ++ author_key_of p).
      rewrite E. exact H.
Qed.

Lemma year_author_stage_indexed (p : paper) (idx : file_index) (m : string) (t : option string) (s : Q) :
  year_author_stage p idx = (Some m, t, s) -> indexed idx m.
Proof.
  unfold year_author_stage. cbv zeta.
  destruct (negb (Py.isdigit (Py.strip (_year p)))); [discriminate|].
  pose proof (year_author_candidates_indexed p idx) as Hidx.
  destruct (year_author_candidates p idx) as [cands mt]. simpl in Hidx.
  assert (Hadapt : forall tk s0, _adaptive_similarity_match tk cands = (Some m, s0) -> indexed idx m).
  { intros tk s0 A. apply Hidx. exact (adaptive_member _ _ _ _ A). }
  destruct cands as [|c [|c2 r]]; [discriminate| |].
  - destruct (String.eqb _ "").
    + intros H. injection H as <- _ _. apply Hidx. left. reflexivity.
    + destruct (_adaptive_similarity_match _ [c]) as [[m'|] s'] eqn:A; [|discriminate].
      destruct (Qlt_le_dec s' _AUTHOR_YEAR_MIN_SIMILARITY); [discriminate|].
      intros H. injection H as <- _ _. exact (Hadapt _ _ A).
  - destruct (_adaptive_similarity_match _ (c :: c2 :: r)) as [[m'|] s'] eqn:A; [|discriminate].
    destruct (Qlt_le_dec s' _AUTHOR_YEAR_MIN_SIMILARITY); [discriminate|].
    intros H. injection H as <- _ _. exact (Hadapt _ _ A).
Qed.

(** What the year/author step returns when it returns a path: the year is
    all digits, and the path is either the adaptive matcher's pick among the
    year- or author-year-keyed candidates, scoring at least 0.8, or, for an
    empty title key, the only candidate. *)
Lemma year_author_stage_shape (p : paper) (idx : file_index) (m : string) (t : option string) (s : Q) :
  let tk := Norm._normalize_title_key (paper_title p) in
  year_author_stage p idx = (Some m, t, s) ->
  Py.isdigit (Py.strip (_year p)) = true /\
  ((t = Some "title_fuzzy" /\
    _adaptive_similarity_match tk (fst (year_author_candidates p idx)) = (Some m, s) /\
    (_AUTHOR_YEAR_MIN_SIMILARITY <= s)%Q) \/
   (tk = "" /\ fst (year_author_candidates p idx) = [m] /\
    t = Some (snd (year_author_candidates p idx)) /\ s = 1%Q)).
Proof.
  intros tk. unfold year_author_stage. fold tk.
  destruct (Py.isdigit (Py.strip (_year p))) eqn:D; cbn [negb]; [|discriminate].
  destruct (year_author_candidates p idx) as [cands mt]. cbn [fst snd].
  assert (Hfz : forall s0,
            (if Qlt_le_dec s0 _AUTHOR_YEAR_MIN_SIMILARITY then no_result
             else (Some m, Some "title_fuzzy", s0)) = (Some m, t, s) ->
            t = Some "title_fuzzy" /\ s0 = s /\ (_AUTHOR_YEAR_MIN_SIMILARITY <= s)%Q).
  { intros s0. destruct (Qlt_le_dec s0 _AUTHOR_YEAR_MIN_SIMILARITY) as [_|Hle]; [discriminate|].
    intros H. injection H as <- <-. split; [reflexivity | split; [reflexivity | exact Hle]]. }
  destruct cands as [|c [|c2 r]]; [discriminate| |].
  - destruct (String.eqb_spec tk "") as [E|E].
    + intros H. injection H as <- <- <-. split; [reflexivity|].
      right. split; [exact E | split; [reflexivity | split; reflexivity]].
    + destruct (_adaptive_similarity_match tk [c]) as [[m'|] s'] eqn:A; [|discriminate].
      intros H. assert (Hm : m' = m).
      { destruct (Qlt_le_dec s' _AUTHOR_YEAR_MIN_SIMILARITY); [discriminate|].
        injection H as <- _ _. reflexivity. }
      subst m'. destruct (Hfz s' H) as [Ht [<- Hs]].
      split; [reflexivity|]. left. split; [exact Ht | split; [first [exact A | reflexivity] | exact Hs]].
  - destruct (_adaptive_similarity_match tk (c :: c2 :: r)) as [[m'|] s'] eqn:A; [|discriminate].
    intros H. assert (Hm : m' = m).
    { destruct (Qlt_le_dec s' _AUTHOR_YEAR_MIN_SIMILARITY); [discriminate|].
      injection H as <- _ _. reflexivity. }
    subst m'. destruct (Hfz s' H) as [Ht [<- Hs]].
    split; [reflexivity|]. left. split; [exact Ht | split; [first [exact A | reflexivity] | exact Hs]].
Qed.

Lemma resolve_by_title_and_meta_indexed (p : paper) (idx : file_index) (m : string) (t : option string) (s : Q) :
  _resolve_by_title_and_meta p idx = (Some m, t, s) -> indexed idx m.
Proof.
  unfold _resolve_by_title_and_meta, title_stages. cbv zeta.
  destruct (exact_stages _ idx) as [r|] eqn:E.
  - intros H. subst r. exact (exact_stages_indexed _ _ _ _ _ E).
  - destruct (prefix_stage _ idx) as [r|] eqn:P.
    + intros H. subst r. exact (prefix_stage_indexed _ _ _ _ _ P).
    + apply year_author_stage_indexed.
Qed.

End ResolveFacts.

Module ResolveClaims.
Import Matcher Resolve.

(** C9 (counterexample): two roots each holding a file [Attention.md];
    [_build_file_index] files both paths under the key "attention" in the
    order of the roots, and resolution returns the first one listed, without
    consulting the fuzzy matcher.  With the roots in the other order it
    returns the other path. *)
Lemma resolve_exact_key_takes_first :
  let idx roots :=
    Index._build_file_index (fun _ => true) (fun _ => ".md") (fun path => path) (fun _ => true)
      (fun root => if String.eqb root "/a" then ["/a/Attention.md"] else ["/b/Attention.md"])
      roots [".md"] in
  let p := {| paper_title := "Attention"; source_path := ""; _year := ""; _authors := [] |} in
  get (idx ["/a"; "/b"]) "attention" = ["/a/Attention.md"; "/b/Attention.md"] /\
  _resolve_source_md p (idx ["/a"; "/b"]) = Some "/a/Attention.md" /\
  get (idx ["/b"; "/a"]) "attention" = ["/b/Attention.md"; "/a/Attention.md"] /\
  _resolve_source_md p (idx ["/b"; "/a"]) = Some "/b/Attention.md".
Proof. vm_compute. repeat split. Qed.

(** C9 (amended): resolution tries, in order, the source-path file name,
    the normalized title, its compact form, the numeric-stripped title and
    the compact form of that; each of these exact lookups returns the first
    path listed under its key.  Only when they all fail does the prefix-key
    step apply the fuzzy matcher to its candidates, and only when it finds
    nothing (no candidates, or no match) does the year/author step run,
    whose path, if any, is the fuzzy matcher's pick scoring at least 0.8
    (or, for an empty title key, its only candidate).  The result is at most
    one path, and it is a path listed in the index. *)
Theorem resolve_source_md_order (p : paper) (idx : file_index) :
  let tk := Norm._normalize_title_key (paper_title p) in
  let from_source := Py.lower (Fname.path_name (source_path p)) in
  (forall c cs, source_path p <> "" -> get idx from_source = c :: cs ->
     _resolve_source_md p idx = Some c) /\
  ((source_path p = "" \/ get idx from_source = []) ->
     _resolve_source_md p idx = fst (fst (_resolve_by_title_and_meta p idx))) /\
  (forall c cs, get idx tk = c :: cs ->
     _resolve_by_title_and_meta p idx = (Some c, Some "title", 1%Q)) /\
  (forall c cs, get idx tk = [] -> tk <> "" ->
     get idx ("compact:" ++ Norm._compact_title_key tk) = c :: cs ->
     _resolve_by_title_and_meta p idx = (Some c, Some "title_compact", 1%Q)) /\
  (forall c cs, get idx tk = [] -> tk <> "" ->
     get idx ("compact:" ++ Norm._compact_title_key tk) = [] ->
     Norm._strip_leading_numeric_tokens tk <> "" -> Norm._strip_leading_numeric_tokens tk <> tk ->
     get idx (Norm._strip_leading_numeric_tokens tk) = c :: cs ->
     _resolve_by_title_and_meta p idx = (Some c, Some "title_stripped", 1%Q)) /\
  (forall c cs m s, exact_stages tk idx = None -> prefix_candidates tk idx = c :: cs ->
     _adaptive_similarity_match tk (c :: cs) = (Some m, s) ->
     _resolve_by_title_and_meta p idx =
       (Some m, Some (if Qle_bool 1 s then "title_prefix" else "title_fuzzy"), s)) /\
  (forall c cs, get idx tk = [] -> tk <> "" ->
     get idx ("compact:" ++ Norm._compact_title_key tk) = [] ->
     Norm._strip_leading_numeric_tokens tk <> "" -> Norm._strip_leading_numeric_tokens tk <> tk ->
     get idx (Norm._strip_leading_numeric_tokens tk) = [] ->
     get idx ("compact:" ++ Norm._compact_title_key (Norm._strip_leading_numeric_tokens tk)) = c :: cs ->
     _resolve_by_title_and_meta p idx = (Some c, Some "title_compact", 1%Q)) /\
  (get idx tk = [] ->
     (tk = "" \/
      (get idx ("compact:" ++ Norm._compact_title_key tk) = [] /\
       (Norm._strip_leading_numeric_tokens tk = "" \/ Norm._strip_leading_numeric_tokens tk = tk \/
        (get idx (Norm._strip_leading_numeric_tokens tk) = [] /\
         get idx ("compact:" ++ Norm._compact_title_key (Norm._strip_leading_numeric_tokens tk)) = [])))) ->
     exact_stages tk idx = None) /\
  (exact_stages tk idx = None ->
     (prefix_candidates tk idx = [] \/
      exists s, _adaptive_similarity_match tk (prefix_candidates tk idx) = (None, s)) ->
     _resolve_by_title_and_meta p idx = year_author_stage p idx) /\
  (forall m t s, year_author_stage p idx = (Some m, t, s) ->
     Py.isdigit (Py.strip (_year p)) = true /\
     ((t = Some "title_fuzzy" /\
       _adaptive_similarity_match tk (fst (year_author_candidates p idx)) = (Some m, s) /\
       (_AUTHOR_YEAR_MIN_SIMILARITY <= s)%Q) \/
      (tk = "" /\ fst (year_author_candidates p idx) = [m] /\
       t = Some (snd (year_author_candidates p idx)) /\ s = 1%Q))) /\
  (forall m, _resolve_source_md p idx = Some m -> exists k, In m (get idx k)).
Proof.
  intros tk from_source.
  split; [|split; [|split; [|split; [|split; [|split; [|split; [|split; [|split; [|split]]]]]]]]].
  - intros c cs Hsp Hget. unfold _resolve_source_md.
    destruct (String.eqb_spec (source_path p) "") as [E|_]; [contradiction|].
    fold from_source. rewrite Hget. reflexivity.
  - intros Hnone. unfold _resolve_source_md.
    assert (Hfs : (if String.eqb (source_path p) "" then []
                   else get idx (Py.lower (Fname.path_name (source_path p)))) = []).
    { destruct Hnone as [E|E].
      - rewrite E. reflexivity.
      - destruct (String.eqb (source_path p) ""); [reflexivity|exact E]. }
    rewrite Hfs. destruct (_resolve_by_title_and_meta p idx) as [[m t] s]. reflexivity.
  - intros c cs H. unfold _resolve_by_title_and_meta, title_stages, exact_stages.
    fold tk. rewrite H. reflexivity.
  - intros c cs H1 H2 H3. unfold _resolve_by_title_and_meta, title_stages, exact_stages.
    fold tk. rewrite H1.
    destruct (String.eqb_spec tk "") as [E|_]; [contradiction|].
    rewrite H3. reflexivity.
  - intros c cs H1 H2 H3 H4 H5 H6. unfold _resolve_by_title_and_meta, title_stages, exact_stages.
    fold tk. rewrite H1.
    destruct (String.eqb_spec tk "") as [E|_]; [contradiction|].
    rewrite H3.
    destruct (String.eqb_spec (Norm._strip_leading_numeric_tokens tk) "") as [E|_]; [contradiction|].
    destruct (String.eqb_spec (Norm._strip_leading_numeric_tokens tk) tk) as [E|_]; [contradiction|].
    simpl. rewrite H6. reflexivity.
  - intros c cs m s H1 H2 H3. unfold _resolve_by_title_and_meta, title_stages.
    fold tk. rewrite H1. unfold prefix_stage. rewrite H2, H3. reflexivity.
  - intros c cs H1 H2 H3 H4 H5 H6 H7. unfold _resolve_by_title_and_meta, title_stages, exact_stages.
    fold tk. rewrite H1.
    destruct (String.eqb_spec tk "") as [E|_]; [contradiction|].
    rewrite H3.
    destruct (String.eqb_spec (Norm._strip_leading_numeric_tokens tk) "") as [E|_]; [contradiction|].
    destruct (String.eqb_spec (Norm._strip_leading_numeric_tokens tk) tk) as [E|_]; [contradiction|].
    cbn [negb andb]. rewrite H6, H7. reflexivity.
  - intros H1 H2. unfold exact_stages. rewrite H1.
    destruct H2 as [E|[H3 H4]]; [rewrite E; reflexivity|].
    destruct (String.eqb tk ""); [reflexivity|]. rewrite H3.
    destruct H4 as [E|[E|[E1 E2]]].
    + rewrite E. reflexivity.
    + rewrite E, String.eqb_refl, andb_false_r. reflexivity.
    + rewrite E1, E2. destruct (_ && _); reflexivity.
  - intros H1 H2. unfold _resolve_by_title_and_meta, title_stages.
    fold tk. rewrite H1. unfold prefix_stage.
    destruct H2 as [E|[s E]]; [rewrite E; reflexivity|].
    destruct (prefix_candidates tk idx) as [|c cs]; [reflexivity|]. rewrite E. reflexivity.
  - intros m t s H. exact (ResolveFacts.year_author_stage_shape p idx m t s H).
  - intros m H. unfold _resolve_source_md in H.
    destruct (if String.eqb (source_path p) "" then []
              else get idx (Py.lower (Fname.path_name (source_path p)))) as [|c cs] eqn:E.
    + destruct (_resolve_by_title_and_meta p idx) as [[m' t] s] eqn:R.
      subst m'. exact (ResolveFacts.resolve_by_title_and_meta_indexed p idx m t s R).
    + injection H as <-. destruct (String.eqb (source_path p) ""); [discriminate|].
      exists (Py.lower (Fname.path_name (source_path p))). rewrite E. left. reflexivity.
Qed.

Lemma resolve_source_md_order_witness :
  _resolve_by_title_and_meta
    {| paper_title := "Attention"; source_path := ""; _year := ""; _authors := [] |}
    [("attention", ["/b/y.md"; "/a/x.md"])] = (Some "/b/y.md", Some "title", 1%Q).
Proof.
  apply (proj1 (proj2 (proj2 (resolve_source_md_order
    {| paper_title := "Attention"; source_path := ""; _year := ""; _authors := [] |}
    [("attention", ["/b/y.md"; "/a/x.md"])]))) "/b/y.md" ["/a/x.md"]).
  vm_compute. reflexivity.
Defined.

(** C10: on the year/author path (no earlier stage found a file), when the
    adaptive matcher's best match among the year- or author-year-keyed
    candidates scores below 0.8, resolution returns no path. *)
Theorem year_author_min_similarity (p : paper) (idx : file_index) (m : string) (s : Q) :
  title_stages p idx = None ->
  _adaptive_similarity_match (Norm._normalize_title_key (paper_title p))
    (fst (year_author_candidates p idx)) = (Some m, s) ->
  (s < _AUTHOR_YEAR_MIN_SIMILARITY)%Q ->
  _resolve_by_title_and_meta p idx = no_result.
Proof.
  intros Ht Ha Hs. unfold _resolve_by_title_and_meta. rewrite Ht.
  unfold year_author_stage. cbv zeta.
  destruct (negb (Py.isdigit (Py.strip (_year p)))); [reflexivity|].
  destruct (year_author_candidates p idx) as [cands mt]. simpl in Ha.
  assert (Hk : String.eqb (Norm._normalize_title_key (paper_title p)) "" = false).
  { destruct (String.eqb (Norm._normalize_title_key (paper_title p)) "") eqn:E; [|reflexivity].
    unfold _adaptive_similarity_match in Ha. rewrite E in Ha. discriminate. }
  assert (Hlt : forall r : result,
            (if Qlt_le_dec s _AUTHOR_YEAR_MIN_SIMILARITY then no_result else r) = no_result).
  { intros r. destruct (Qlt_le_dec s _AUTHOR_YEAR_MIN_SIMILARITY) as [_|Hle]; [reflexivity|].
    exfalso. apply (Qlt_not_le _ _ Hs Hle). }
  destruct cands as [|c [|c2 r]]; [reflexivity| |].
  - rewrite Hk, Ha. apply Hlt.
  - rewrite Ha. apply Hlt.
Qed.

Lemma year_author_min_similarity_witness :
  _resolve_by_title_and_meta
    {| paper_title := "abcdef"; source_path := ""; _year := "2020"; _authors := [] |}
    [("year:2020", ["/d/2020 - abcdxy.pdf"])] = no_result.
Proof.
  apply (year_author_min_similarity
    {| paper_title := "abcdef"; source_path := ""; _year := "2020"; _authors := [] |}
    [("year:2020", ["/d/2020 - abcdxy.pdf"])] "/d/2020 - abcdxy.pdf" (8 # 12)%Q).
  - vm_compute. reflexivity.
  - vm_compute. reflexivity.
  - vm_compute. reflexivity.
Defined.

End ResolveClaims.

(** ** Strings: slicing, stripping and splitting *)
Module PyFacts.
Import Py.

Lemma to_of_list (l : list ascii) : to_list (of_list l) = l.
Proof. induction l as [|c l IH]; simpl; [reflexivity | now rewrite IH]. Qed.

Lemma of_to_list (s : string) : of_list (to_list s) = s.
Proof. induction s as [|c s IH]; simpl; [reflexivity | now rewrite IH]. Qed.

Lemma of_list_app (l1 l2 : list ascii) : of_list (l1 ++ l2) = (of_list l1 ++ of_list l2)%string.
Proof. induction l1 as [|c l IH]; simpl; [reflexivity | now rewrite IH]. Qed.

Lemma to_list_app (s1 s2 : string) : to_list (s1 ++ s2) = (to_list s1 ++ to_list s2)%list.
Proof. induction s1 as [|c s IH]; simpl; [reflexivity | now rewrite IH]. Qed.

Lemma substring_all (s : string) : substring 0 (String.length s) s = s.
Proof. induction s as [|c s IH]; simpl; [reflexivity | now rewrite IH]. Qed.

(** Two adjacent slices make one. *)
Lemma substring_concat (s : string) :
  forall n m k, n + m <= String.length s ->
  (substring n m s ++ substring (n + m) k s)%string = substring n (m + k) s.
Proof.
  induction s as [|c s IH]; intros n m k H.
  - simpl in H. assert (n = 0) by lia. assert (m = 0) by lia. subst. destruct k; reflexivity.
  - destruct n as [|n].
    + destruct m as [|m]; [reflexivity|].
      simpl in H |- *. f_equal. apply (IH 0 m k). lia.
    + simpl in H |- *. apply IH. lia.
Qed.

Lemma substring_app_r (t r : string) :
  substring (String.length t) (String.length (t ++ r) - String.length t) (t ++ r) = r.
Proof.
  induction t as [|c t IH]; simpl.
  - rewrite Nat.sub_0_r. apply substring_all.
  - exact IH.
Qed.

Lemma length_app (s1 s2 : string) :
  String.length (s1 ++ s2) = String.length s1 + String.length s2.
Proof. induction s1; simpl; congruence. Qed.

Lemma of_list_snoc (l : list ascii) (c : ascii) (s : string) :
  (of_list (l ++ [c]) ++ s)%string = (of_list l ++ String c s)%string.
Proof. induction l as [|x l IH]; simpl; [reflexivity | now rewrite IH]. Qed.

(** The first word of [split] starts the string when the accumulated
    characters are non-empty. *)
Lemma split_acc_first (s : string) :
  forall cur t ts, cur <> [] -> split_acc s cur = t :: ts ->
  exists r, (of_list (rev cur) ++ s)%string = (t ++ r)%string.
Proof.
  induction s as [|c s IH]; intros cur t ts Hc H; simpl in H.
  - destruct cur as [|x cur]; [congruence|]. injection H as <- _.
    exists EmptyString. reflexivity.
  - destruct (is_space c).
    + destruct cur as [|x cur]; [congruence|]. injection H as <- _.
      exists (String c s). reflexivity.
    + destruct (IH (c :: cur) t ts ltac:(discriminate) H) as [r Hr].
      exists r. rewrite <- Hr. simpl. rewrite of_list_snoc. reflexivity.
Qed.

Lemma split_first (s : string) (c : ascii) (s' : string) t ts :
  s = String c s' -> is_space c = false -> split s = t :: ts ->
  exists r, s = (t ++ r)%string.
Proof.
  intros -> Hc H. unfold split in H. simpl in H. rewrite Hc in H.
  destruct (split_acc_first s' [c] t ts ltac:(discriminate) H) as [r Hr].
  exists r. exact Hr.
Qed.

Lemma split_acc_nonempty (s : string) :
  forall cur, cur <> [] -> split_acc s cur <> [].
Proof.
  induction s as [|c s IH]; intros cur Hc; simpl.
  - destruct cur; [congruence | discriminate].
  - destruct (is_space c); [destruct cur; [congruence | discriminate]|].
    apply IH. discriminate.
Qed.

Lemma split_cons_nonempty (c : ascii) (s : string) :
  is_space c = false -> split (String c s) <> [].
Proof.
  intros Hc. unfold split. simpl. rewrite Hc. apply split_acc_nonempty. discriminate.
Qed.

Lemma lstrip_head (s : string) c s' : lstrip s = String c s' -> is_space c = false.
Proof.
  induction s as [|x s IH]; simpl; [discriminate|].
  destruct (is_space x) eqn:E; [exact IH|]. intros H. injection H as <- _. exact E.
Qed.

Lemma lstrip_snoc (l : list ascii) (c : ascii) :
  is_space c = false -> exists w, lstrip (of_list (l ++ [c])) = of_list (w ++ [c]).
Proof.
  intros Hc. induction l as [|x l IH]; simpl.
  - rewrite Hc. exists []. reflexivity.
  - destruct (is_space x).
    + exact IH.
    + exists (x :: l). reflexivity.
Qed.

Lemma rstrip_head (c : ascii) (s : string) :
  is_space c = false -> exists r, rstrip (String c s) = String c r.
Proof.
  intros Hc. unfold rstrip. simpl.
  destruct (lstrip_snoc (rev (to_list s)) c Hc) as [w Hw]. rewrite Hw, to_of_list.
  rewrite rev_app_distr. simpl. exists (of_list (rev w)). reflexivity.
Qed.

(** A stripped string never starts with whitespace. *)
Lemma strip_head (s : string) c s' : strip s = String c s' -> is_space c = false.
Proof.
  unfold strip. destruct (lstrip s) as [|x r] eqn:E.
  - unfold rstrip. simpl. discriminate.
  - pose proof (lstrip_head s x r E) as Hx.
    destruct (rstrip_head x r Hx) as [r' Hr']. rewrite Hr'.
    intros H. injection H as <- _. exact Hx.
Qed.

Lemma prefix_char (c c' : ascii) (s : string) :
  String.prefix (String c' EmptyString) (String c s) = true -> c = c'.
Proof. cbn [String.prefix]. destruct (ascii_dec c' c); [auto | discriminate]. Qed.

End PyFacts.

Module LinkFacts.
Import Py Links PyFacts.

Lemma find_char_spec (s : string) (c : ascii) e :
  find_char s c = Some e -> e < String.length s /\ substring e 1 s = String c EmptyString.
Proof.
  revert e. induction s as [|x s IH]; intros e; simpl; [discriminate|].
  destruct (Ascii.eqb_spec x c) as [->|Hx].
  - intros H. injection H as <-. split; [lia|]. destruct s; reflexivity.
  - destruct (find_char s c) as [i|] eqn:E; [|discriminate].
    intros H. injection H as <-. destruct (IH i eq_refl) as [H1 H2]. split; [lia | exact H2].
Qed.

End LinkFacts.

(** [_split_link_target] only cuts the stripped link: the pieces, put back
    in the order [rewrite_markdown_images] writes them, give the link. *)
Theorem split_link_target_roundtrip (raw_link : string) :
  let '(target, suffix, prefix, postfix) := Links._split_link_target raw_link in
  (prefix ++ target ++ postfix ++ suffix)%string = Py.strip raw_link.
Proof.
  unfold Links._split_link_target. set (link := Py.strip raw_link).
  destruct (Py.startswith link "<") eqn:Hs.
  - destruct (Links.find_char link ">"%char) as [e|] eqn:He.
    + destruct (LinkFacts.find_char_spec _ _ _ He) as [Hlt He1].
      destruct link as [|c0 rest] eqn:El; [discriminate|].
      unfold Py.startswith in Hs. apply PyFacts.prefix_char in Hs. subst c0.
      destruct e as [|e].
      { simpl in He1. discriminate. }
      unfold Links.slice, Links.slice_from. simpl String.length in *.
      simpl substring at 1 2.
      cbn [String.append].
      rewrite Nat.sub_0_r. simpl in He1.
      assert (E1 := PyFacts.substring_concat rest e 1 (String.length rest - (e + 1)) ltac:(lia)).
      rewrite He1 in E1. cbn [String.append] in E1.
      rewrite E1. f_equal.
      rewrite (PyFacts.substring_concat rest 0 e _ ltac:(lia)).
      replace (e + (1 + (String.length rest - (e + 1)))) with (String.length rest) by lia.
      apply PyFacts.substring_all.
    + destruct (Py.split link) as [|target ts] eqn:Hsp.
      { destruct link as [|c s'] eqn:El; [reflexivity|].
        exfalso. exact (PyFacts.split_cons_nonempty c s' (PyFacts.strip_head raw_link c s' El) Hsp). }
      destruct link as [|c s'] eqn:El; [discriminate|].
      destruct (PyFacts.split_first _ c s' target ts eq_refl
                  (PyFacts.strip_head raw_link c s' El) Hsp) as [r Hr].
      rewrite Hr. unfold Links.slice_from. rewrite PyFacts.substring_app_r. reflexivity.
  - destruct (Py.split link) as [|target ts] eqn:Hsp.
    { destruct link as [|c s'] eqn:El; [reflexivity|].
      exfalso. exact (PyFacts.split_cons_nonempty c s' (PyFacts.strip_head raw_link c s' El) Hsp). }
    destruct link as [|c s'] eqn:El; [discriminate|].
    destruct (PyFacts.split_first _ c s' target ts eq_refl
                (PyFacts.strip_head raw_link c s' El) Hsp) as [r Hr].
    rewrite Hr. unfold Links.slice_from. rewrite PyFacts.substring_app_r. reflexivity.
Qed.

Module CleanFacts.
Import Py Links.

Lemma replace_char_no_old (s : string) (old : ascii) (new : string) :
  ~ In old (to_list new) -> ~ In old (to_list (replace_char s old new)).
Proof.
  intros Hn. induction s as [|c s IH]; simpl; [auto|].
  destruct (Ascii.eqb_spec c old) as [->|Hc].
  - rewrite PyFacts.to_list_app. intros H. apply in_app_or in H. tauto.
  - simpl. intros [H|H]; [exact (Hc H) | exact (IH H)].
Qed.

Lemma lstrip_chars_suffix (cs : list ascii) (s : string) :
  exists pre, to_list s = (pre ++ to_list (lstrip_chars cs s))%list.
Proof.
  induction s as [|c s IH]; simpl.
  - exists []. reflexivity.
  - destruct (existsb (Ascii.eqb c) cs).
    + destruct IH as [pre Hp]. exists (c :: pre). simpl. rewrite Hp. reflexivity.
    + exists []. reflexivity.
Qed.

Lemma lstrip_chars_head (cs : list ascii) (s : string) c r :
  lstrip_chars cs s = String c r -> ~ In c cs.
Proof.
  induction s as [|x s IH]; simpl; [discriminate|].
  destruct (existsb (Ascii.eqb x) cs) eqn:E; [exact IH|].
  intros H. injection H as <- _. intros Hin.
  assert (existsb (Ascii.eqb x) cs = true).
  { apply existsb_exists. exists x. split; [exact Hin | apply Ascii.eqb_refl]. }
  congruence.
Qed.

Lemma lstrip_chars_id (cs : list ascii) (s : string) :
  (forall c r, s = String c r -> ~ In c cs) -> lstrip_chars cs s = s.
Proof.
  destruct s as [|c r]; intros H; [reflexivity|]. simpl.
  destruct (existsb (Ascii.eqb c) cs) eqn:E; [|reflexivity].
  apply existsb_exists in E. destruct E as [x [Hx Ex]].
  apply Ascii.eqb_eq in Ex. subst x. exfalso. exact (H c r eq_refl Hx).
Qed.

End CleanFacts.

(** The relative path [store_local] joins to the markdown file's
    directory never starts with [.] or [/] (so it is never absolute and
    never starts with [..]) and holds no backslash. *)
Theorem clean_local_target_shape (target : string) :
  (forall c r, Links.clean_local_target target = String c r ->
     c <> "."%char /\ c <> "/"%char) /\
  ~ In "\"%char (Py.to_list (Links.clean_local_target target)).
Proof.
  unfold Links.clean_local_target.
  set (s0 := Py.replace_char _ "\"%char "/").
  assert (Hs0 : ~ In "\"%char (Py.to_list s0)).
  { apply CleanFacts.replace_char_no_old. simpl. intros [H|[]]. discriminate H. }
  set (s1 := Links.lstrip_chars ["."%char; "/"%char] s0).
  assert (Hid : Links.lstrip_chars ["/"%char] s1 = s1).
  { apply CleanFacts.lstrip_chars_id. intros c r Hc Hin.
    apply (CleanFacts.lstrip_chars_head _ _ c r Hc). simpl in Hin |- *. tauto. }
  rewrite Hid. split.
  - intros c r Hc. pose proof (CleanFacts.lstrip_chars_head _ _ c r Hc) as Hn.
    simpl in Hn. split; intros ->; tauto.
  - destruct (CleanFacts.lstrip_chars_suffix ["."%char; "/"%char] s0) as [pre Hp].
    intros Hin. apply Hs0. rewrite Hp. apply in_or_app. right. exact Hin.
Qed.

Module TemplateFacts.
Import Py Templates PyFacts.

Lemma no_dd_cons (x : ascii) (l : list ascii) :
  no_double_us (x :: l) =
  (match l with [] => true | y :: _ => negb (is_us x && is_us y) end) && no_double_us l.
Proof. destruct l; reflexivity. Qed.

Lemma no_dd_tail (x : ascii) (l : list ascii) :
  no_double_us (x :: l) = true -> no_double_us l = true.
Proof. rewrite no_dd_cons. intros H. apply andb_true_iff in H. apply H. Qed.

Lemma no_dd_infix (pre m post : list ascii) :
  no_double_us (pre ++ m ++ post) = true -> no_double_us m = true.
Proof.
  induction pre as [|x pre IH]; simpl; [|intros H; apply IH; exact (no_dd_tail _ _ H)].
  induction m as [|x m IHm]; [reflexivity|]. cbn [app].
  rewrite !no_dd_cons. intros H. apply andb_true_iff in H. destruct H as [H1 H2].
  rewrite (IHm H2), andb_true_r.
  destruct m as [|y m]; [reflexivity|]. exact H1.
Qed.

Lemma sub_runs_chars (keep : ascii -> bool) (rep : ascii) (s : string) :
  forall b c, In c (to_list (sub_runs keep rep b s)) ->
  (keep c = true /\ In c (to_list s)) \/ c = rep.
Proof.
  induction s as [|x s IH]; intros b c; simpl; [intros []|].
  destruct (keep x) eqn:K.
  - simpl. intros [<-|H]; [left; auto|].
    destruct (IH _ _ H) as [[H1 H2]|H']; [left; auto | right; exact H'].
  - destruct b.
    + intros H. destruct (IH _ _ H) as [[H1 H2]|H']; [left; auto | right; exact H'].
    + simpl. intros [<-|H]; [right; reflexivity|].
      destruct (IH _ _ H) as [[H1 H2]|H']; [left; auto | right; exact H'].
Qed.

Lemma sub_runs_us (s : string) :
  forall b,
  no_double_us (to_list (sub_runs (fun c => negb (is_us c)) "_"%char b s)) = true /\
  (b = true -> forall r, sub_runs (fun c => negb (is_us c)) "_"%char b s <> String "_"%char r).
Proof.
  induction s as [|x s IH]; intros b; cbn [sub_runs to_list]; [split; [reflexivity | discriminate]|].
  destruct (is_us x) eqn:U; cbn [negb to_list].
  - destruct b; cbn [to_list].
    + exact (IH true).
    + destruct (IH true) as [H1 H2]. split; [|discriminate].
      rewrite no_dd_cons, H1, andb_true_r.
      destruct (sub_runs _ _ true s) as [|y r] eqn:E; [reflexivity|].
      simpl. destruct (is_us y) eqn:Uy; [|reflexivity].
      exfalso. unfold is_us in Uy. apply Ascii.eqb_eq in Uy. subst y.
      exact (H2 eq_refl r eq_refl).
  - destruct (IH false) as [H1 _]. split.
    + rewrite no_dd_cons, H1, andb_true_r.
      destruct (to_list (sub_runs _ _ false s)); [reflexivity|]. simpl. rewrite U. reflexivity.
    + intros _ r E. injection E as E _. subst x. discriminate U.
Qed.

Lemma lstrip_with_split (p : ascii -> bool) (s : string) :
  exists pre, to_list s = app pre (to_list (lstrip_with p s)).
Proof.
  induction s as [|c s IH]; simpl; [exists []; reflexivity|].
  destruct (p c); [|exists []; reflexivity].
  destruct IH as [pre H]. exists (c :: pre). simpl. rewrite H. reflexivity.
Qed.

Lemma lstrip_with_head (p : ascii -> bool) (s : string) c r :
  lstrip_with p s = String c r -> p c = false.
Proof.
  induction s as [|x s IH]; simpl; [discriminate|].
  destruct (p x) eqn:E; [exact IH|]. intros H. injection H as <- _. exact E.
Qed.

Lemma to_list_cons_inv (s : string) c l :
  to_list s = c :: l -> exists r, s = String c r.
Proof. destruct s as [|x r]; simpl; [discriminate|]. intros H. injection H as <- _. eauto. Qed.

Lemma strip_with_spec (p : ascii -> bool) (s : string) :
  (exists pre post, to_list s = app pre (app (to_list (strip_with p s)) post)) /\
  (forall c r, strip_with p s = String c r -> p c = false) /\
  (forall r c, to_list (strip_with p s) = app r [c] -> p c = false).
Proof.
  unfold strip_with.
  set (u := lstrip_with p s).
  destruct (lstrip_with_split p s) as [pre Hpre]. fold u in Hpre.
  set (v := of_list (rev (to_list u))).
  set (w := lstrip_with p v).
  destruct (lstrip_with_split p v) as [pre2 Hpre2]. fold w in Hpre2.
  unfold v in Hpre2. rewrite to_of_list in Hpre2.
  assert (Hu : to_list u = app (rev (to_list w)) (rev pre2)).
  { rewrite <- (rev_involutive (to_list u)), Hpre2, rev_app_distr. reflexivity. }
  rewrite to_of_list. split; [|split].
  - exists pre, (rev pre2). rewrite Hpre, Hu. reflexivity.
  - intros c r H. apply (f_equal to_list) in H. rewrite to_of_list in H. simpl in H.
    rewrite H in Hu. simpl in Hu. destruct (to_list_cons_inv u c _ Hu) as [r' Hr'].
    exact (lstrip_with_head p s c r' Hr').
  - intros r c H. apply (f_equal (@rev ascii)) in H.
    rewrite rev_involutive, rev_app_distr in H. simpl in H.
    destruct (to_list_cons_inv w c _ H) as [r' Hr'].
    exact (lstrip_with_head p v c r' Hr').
Qed.

Lemma good_default : good_tag "default".
Proof.
  split; [discriminate|]. split; [reflexivity|]. split; [reflexivity|].
  split; [intros r H; discriminate H|].
  intros r H. apply (f_equal (@rev ascii)) in H. rewrite rev_app_distr in H.
  simpl in H. discriminate H.
Qed.

Ltac leb_cases :=
  repeat match goal with
  | |- context [?a <=? ?b] => destruct (Nat.leb_spec a b)
  | H : context [?a <=? ?b] |- _ => destruct (Nat.leb_spec a b)
  end; simpl in *; try discriminate; try lia; try reflexivity.

Lemma tag_char_not_space (c : ascii) : is_tag_char c = true -> is_space c = false.
Proof.
  unfold is_tag_char, is_us.
  destruct (Ascii.eqb_spec c "_"%char) as [->|_]; [reflexivity|].
  destruct (Ascii.eqb_spec c "-"%char) as [->|_]; [reflexivity|].
  rewrite !orb_false_r. unfold is_lower, is_digit, is_space.
  set (n := code c). clearbody n. intros H. leb_cases.
Qed.

Lemma tag_char_not_upper (c : ascii) : is_tag_char c = true -> is_upper c = false.
Proof.
  unfold is_tag_char, is_us.
  destruct (Ascii.eqb_spec c "_"%char) as [->|_]; [reflexivity|].
  destruct (Ascii.eqb_spec c "-"%char) as [->|_]; [reflexivity|].
  rewrite !orb_false_r. unfold is_lower, is_digit, is_upper.
  set (n := code c). clearbody n. intros H. leb_cases.
Qed.

Lemma lower_id (s : string) :
  forallb (fun c => negb (is_upper c)) (to_list s) = true -> lower s = s.
Proof.
  induction s as [|c s IH]; simpl; [reflexivity|].
  intros H. apply andb_true_iff in H. destruct H as [H1 H2].
  unfold lower_char. destruct (is_upper c); [discriminate|]. rewrite (IH H2). reflexivity.
Qed.

Lemma sub_runs_id (keep : ascii -> bool) (rep : ascii) (s : string) :
  forall b, forallb keep (to_list s) = true -> sub_runs keep rep b s = s.
Proof.
  induction s as [|c s IH]; intros b; simpl; [reflexivity|].
  intros H. apply andb_true_iff in H. destruct H as [H1 H2].
  rewrite H1, (IH false H2). reflexivity.
Qed.

Lemma sub_runs_us_id (s : string) :
  forall b, no_double_us (to_list s) = true ->
  (b = true -> forall r, s <> String "_"%char r) ->
  sub_runs (fun c => negb (is_us c)) "_"%char b s = s.
Proof.
  induction s as [|c s IH]; intros b Hd Hb; simpl; [reflexivity|].
  destruct (is_us c) eqn:U; simpl.
  - unfold is_us in U. apply Ascii.eqb_eq in U. subst c.
    destruct b; [exfalso; exact (Hb eq_refl s eq_refl)|].
    f_equal. apply IH; [exact (no_dd_tail _ _ Hd)|].
    intros _ r ->. simpl in Hd. discriminate Hd.
  - f_equal. apply IH; [exact (no_dd_tail _ _ Hd) | discriminate].
Qed.

Lemma lstrip_with_id (p : ascii -> bool) (s : string) :
  (forall c r, s = String c r -> p c = false) -> lstrip_with p s = s.
Proof.
  destruct s as [|c r]; intros H; simpl; [reflexivity|].
  rewrite (H c r eq_refl). reflexivity.
Qed.

Lemma strip_with_id (p : ascii -> bool) (s : string) :
  (forall c r, s = String c r -> p c = false) ->
  (forall r c, to_list s = app r [c] -> p c = false) -> strip_with p s = s.
Proof.
  intros Hh Hl. unfold strip_with. rewrite (lstrip_with_id p s Hh).
  destruct (to_list s) as [|x l] eqn:E.
  - simpl. destruct s; [reflexivity | discriminate].
  - destruct (exists_last (l := x :: l) ltac:(discriminate)) as [r [c Hrc]].
    rewrite Hrc, rev_app_distr. cbn [rev app of_list lstrip_with].
    rewrite (Hl r c Hrc). cbn [to_list]. rewrite to_of_list. cbn [rev].
    rewrite rev_involutive, <- Hrc, <- E. apply of_to_list.
Qed.

Lemma lstrip_id (s : string) : (forall c r, s = String c r -> is_space c = false) -> lstrip s = s.
Proof. destruct s as [|c r]; intros H; simpl; [reflexivity|]. rewrite (H c r eq_refl). reflexivity. Qed.

Lemma strip_id (s : string) :
  (forall c r, s = String c r -> is_space c = false) ->
  (forall r c, to_list s = app r [c] -> is_space c = false) -> strip s = s.
Proof.
  intros Hh Hl. unfold strip, rstrip. rewrite (lstrip_id s Hh).
  destruct (to_list s) as [|x l] eqn:E.
  - simpl. destruct s; [reflexivity | discriminate].
  - destruct (exists_last (l := x :: l) ltac:(discriminate)) as [r [c Hrc]].
    rewrite Hrc, rev_app_distr. cbn [rev app of_list lstrip].
    rewrite (Hl r c Hrc). cbn [to_list]. rewrite to_of_list. cbn [rev].
    rewrite rev_involutive, <- Hrc, <- E. apply of_to_list.
Qed.

Lemma forallb_in {A} (f : A -> bool) (l : list A) x : forallb f l = true -> In x l -> f x = true.
Proof. rewrite forallb_forall. auto. Qed.

Lemma good_fixed (t : string) : good_tag t -> _canonical_template_tag t = t.
Proof.
  intros [Hne [Hc [Hd [Hh Hl]]]].
  assert (Hin : forall c, In c (to_list t) -> is_tag_char c = true)
    by (intros c; apply forallb_in, Hc).
  unfold _canonical_template_tag.
  rewrite strip_id.
  2:{ intros c r ->. apply tag_char_not_space, Hin. left. reflexivity. }
  2:{ intros r c E. apply tag_char_not_space, Hin. rewrite E. apply in_or_app. right. left. reflexivity. }
  rewrite lower_id.
  2:{ apply forallb_forall. intros c Hc'. rewrite (tag_char_not_upper c (Hin c Hc')). reflexivity. }
  rewrite (sub_runs_id _ _ _ false Hc).
  rewrite (sub_runs_us_id t false Hd ltac:(discriminate)).
  rewrite strip_with_id.
  2:{ intros c r E. subst t. destruct (is_us c) eqn:U; [|reflexivity].
      unfold is_us in U. apply Ascii.eqb_eq in U. subst c. exfalso. exact (Hh r eq_refl). }
  2:{ intros r c E. destruct (is_us c) eqn:U; [|reflexivity].
      unfold is_us in U. apply Ascii.eqb_eq in U. subst c. exfalso. exact (Hl r E). }
  destruct (String.eqb_spec t ""); [contradiction | reflexivity].
Qed.

Lemma canonical_good (v : string) : good_tag (_canonical_template_tag v).
Proof.
  unfold _canonical_template_tag.
  set (b := sub_runs is_tag_char "_"%char false (lower (strip v))).
  set (c := sub_runs (fun c => negb (is_us c)) "_"%char false b).
  set (e := strip_with is_us c).
  destruct (String.eqb_spec e "") as [_|He]; [exact good_default|].
  destruct (strip_with_spec is_us c) as [[pre [post Hinf]] [Hh Hl]]. fold e in Hinf, Hh, Hl.
  split; [exact He|]. split; [|split; [|split]].
  - apply forallb_forall. intros x Hx.
    assert (Hxc : In x (to_list c)) by (rewrite Hinf; apply in_or_app; right; apply in_or_app; left; exact Hx).
    destruct (sub_runs_chars _ _ _ _ _ Hxc) as [[_ Hxb]| ->]; [|reflexivity].
    destruct (sub_runs_chars _ _ _ _ _ Hxb) as [[Hk _]| ->]; [exact Hk | reflexivity].
  - apply (no_dd_infix pre _ post). rewrite <- Hinf. apply (proj1 (sub_runs_us b false)).
  - intros r E. pose proof (Hh _ _ E) as H. discriminate H.
  - intros r E. pose proof (Hl _ _ E) as H. discriminate H.
Qed.

End TemplateFacts.

(** [_canonical_template_tag] always returns a non-empty tag over
    [a-z0-9_-] with no [__] and no [_] at either end. *)
Theorem canonical_template_tag_shape (value : string) :
  Templates.good_tag (Templates._canonical_template_tag value).
Proof. apply TemplateFacts.canonical_good. Qed.

(** Canonicalising a canonical tag changes nothing. *)
Theorem canonical_template_tag_idempotent (value : string) :
  Templates._canonical_template_tag (Templates._canonical_template_tag value)
  = Templates._canonical_template_tag value.
Proof. apply TemplateFacts.good_fixed, TemplateFacts.canonical_good. Qed.

Module PayloadFacts.
Import Py Templates.

Lemma dict_set_keys {V : Type} (k : string) (v : V) (d : list (string * V)) x :
  In x (map fst (dict_set k v d)) <-> x = k \/ In x (map fst d).
Proof.
  induction d as [|[k' v'] d IH]; simpl; [intuition congruence|].
  destruct (String.eqb_spec k' k) as [->|Hk]; simpl; [intuition congruence|].
  rewrite IH. intuition congruence.
Qed.

Lemma dict_set_nodup {V : Type} (k : string) (v : V) (d : list (string * V)) :
  NoDup (map fst d) -> NoDup (map fst (dict_set k v d)).
Proof.
  induction d as [|[k' v'] d IH]; simpl; intros H.
  - constructor; [intros [] | constructor].
  - inversion H as [|? ? Hn Hd]; subst.
    destruct (String.eqb_spec k' k) as [->|Hk]; simpl; constructor; auto.
    rewrite dict_set_keys. intros [->|Hin]; [exact (Hk eq_refl) | exact (Hn Hin)].
Qed.

Section P.
Variable dict : Type.

Definition payload_inv (pl : list (string * payload dict)) : Prop :=
  NoDup (map fst pl) /\ Forall good_tag (map fst pl).

Lemma dict_set_inv (k : string) (v : payload dict) (pl : list (string * payload dict)) :
  good_tag k -> payload_inv pl -> payload_inv (dict_set k v pl).
Proof.
  intros Hk [Hn Hg]. split; [apply dict_set_nodup, Hn|].
  apply Forall_forall. intros x Hx. apply dict_set_keys in Hx.
  destruct Hx as [->|Hx]; [exact Hk | exact (proj1 (Forall_forall _ _) Hg x Hx)].
Qed.

Lemma payload_step_inv (pl : list (string * payload dict)) (kv : option string * tvalue dict) :
  payload_inv pl -> payload_inv (payload_step dict pl kv).
Proof.
  intros H. destruct kv as [[tag|] v]; unfold payload_step; cbn [fst snd]; [|exact H].
  destruct (String.eqb (strip tag) ""); [exact H|].
  destruct v; [| exact H |]; apply dict_set_inv; auto; apply TemplateFacts.canonical_good.
Qed.

Lemma fold_payload_inv (ts : list (option string * tvalue dict)) :
  forall pl, payload_inv pl -> payload_inv (fold_left (payload_step dict) ts pl).
Proof.
  induction ts as [|kv ts IH]; intros pl H; simpl; [exact H|].
  apply IH, payload_step_inv, H.
Qed.

Lemma extract_inv (p : tpaper dict) :
  _extract_template_payloads dict p <> [] /\ payload_inv (_extract_template_payloads dict p).
Proof.
  unfold _extract_template_payloads.
  set (pl := match templates dict p with
             | Some ts => fold_left (payload_step dict) ts []
             | None => []
             end).
  assert (Hpl : payload_inv pl).
  { unfold pl. destruct (templates dict p) as [ts|];
      [apply fold_payload_inv|]; split; constructor. }
  destruct pl as [|x r]; [|split; [discriminate | exact Hpl]].
  split; [discriminate|]. split.
  - simpl. constructor; [intros [] | constructor].
  - simpl. constructor; [apply TemplateFacts.canonical_good | constructor].
Qed.

Lemma min_lower_in (k : string) (ks : list string) : In (min_lower k ks) (k :: ks).
Proof.
  unfold min_lower.
  assert (H : forall best, In best (k :: ks) -> forall l, incl l (k :: ks) ->
            In (fold_left (fun best k' => if String.ltb (lower k') (lower best) then k' else best)
                          l best) (k :: ks)).
  { intros best Hb l. revert best Hb. induction l as [|x l IH]; intros best Hb Hl; simpl; [exact Hb|].
    apply IH; [|intros y Hy; apply Hl; right; exact Hy].
    destruct (String.ltb _ _); [apply Hl; left; reflexivity | exact Hb]. }
  apply H; [left; reflexivity|]. intros y Hy. right. exact Hy.
Qed.

Lemma choose_in (p : tpaper dict) (pl : list (string * payload dict)) :
  pl <> [] -> exists t, _choose_preferred_template dict p pl = Some t /\ In t (map fst pl).
Proof.
  intros Hne. unfold _choose_preferred_template.
  set (pref := _canonical_template_tag (first_tag dict p "")).
  destruct (negb (String.eqb pref "") && existsb (String.eqb pref) (map fst pl)) eqn:E1.
  { exists pref. split; [reflexivity|]. apply andb_true_iff in E1. destruct E1 as [_ E1].
    apply existsb_exists in E1. destruct E1 as [y [Hy Ey]]. apply String.eqb_eq in Ey. subst y. exact Hy. }
  destruct (existsb (String.eqb "simple") (map fst pl)) eqn:E2.
  { exists "simple". split; [reflexivity|].
    apply existsb_exists in E2. destruct E2 as [y [Hy Ey]]. apply String.eqb_eq in Ey. subst y. exact Hy. }
  destruct (existsb (String.eqb "simple_phi") (map fst pl)) eqn:E3.
  { exists "simple_phi". split; [reflexivity|].
    apply existsb_exists in E3. destruct E3 as [y [Hy Ey]]. apply String.eqb_eq in Ey. subst y. exact Hy. }
  destruct (map fst pl) as [|k ks] eqn:Ek.
  - destruct pl; [contradiction | discriminate].
  - exists (min_lower k ks). split; [reflexivity | apply min_lower_in].
Qed.

End P.
End PayloadFacts.

(** The payloads [_extract_template_payloads] returns are never empty,
    and their tags are distinct canonical tags. *)
Theorem template_payloads_keys (dict : Type) (p : Templates.tpaper dict) :
  let pl := Templates._extract_template_payloads dict p in
  pl <> [] /\ NoDup (map fst pl) /\ Forall Templates.good_tag (map fst pl).
Proof. apply PayloadFacts.extract_inv. Qed.

(** On the payloads of a paper, [_choose_preferred_template] never raises
    and picks one of their tags, so the preferred summary template of a new
    paper is one of its summaries. *)
Theorem preferred_template_is_payload (dict : Type) (p : Templates.tpaper dict) :
  exists t,
    Templates._choose_preferred_template dict p (Templates._extract_template_payloads dict p) = Some t /\
    In t (map fst (Templates._extract_template_payloads dict p)).
Proof. apply PayloadFacts.choose_in, (PayloadFacts.extract_inv dict p). Qed.

Module AvailableFacts.
Import Templates.

Lemma existsb_eqb_in (x : string) (l : list string) : existsb (String.eqb x) l = true <-> In x l.
Proof.
  rewrite existsb_exists. split.
  - intros [y [Hy E]]. apply String.eqb_eq in E. subst y. exact Hy.
  - intros H. exists x. split; [exact H | apply String.eqb_refl].
Qed.

Lemma nodup_snoc (l : list string) (x : string) : NoDup l -> ~ In x l -> NoDup (app l [x]).
Proof.
  intros Hn Hx. apply NoDup_app; [exact Hn | constructor; [intros [] | constructor] |].
  intros y Hy [<-|[]]. exact (Hx Hy).
Qed.

Lemma order_fold (keys order : list string) :
  forall acc, NoDup acc -> incl acc keys ->
  let r := fold_left (fun acc tag =>
             if existsb (String.eqb tag) keys && negb (existsb (String.eqb tag) acc)
             then app acc [tag] else acc) order acc in
  NoDup r /\ incl r keys /\ incl acc r.
Proof.
  induction order as [|t order IH]; intros acc Hn Hi; simpl; [split; [exact Hn | split; [exact Hi | apply incl_refl]]|].
  destruct (existsb (String.eqb t) keys) eqn:Ek; simpl.
  - destruct (existsb (String.eqb t) acc) eqn:Ea; simpl.
    + exact (IH acc Hn Hi).
    + assert (Hn' : NoDup (app acc [t])).
      { apply nodup_snoc; [exact Hn|]. intros H. apply existsb_eqb_in in H. congruence. }
      assert (Hi' : incl (app acc [t]) keys).
      { intros y Hy. apply in_app_or in Hy. destruct Hy as [Hy|[<-|[]]]; [exact (Hi y Hy)|].
        apply existsb_eqb_in, Ek. }
      destruct (IH _ Hn' Hi') as [H1 [H2 H3]]. split; [exact H1|]. split; [exact H2|].
      intros y Hy. apply H3, in_or_app. left. exact Hy.
  - exact (IH acc Hn Hi).
Qed.

Lemma keys_fold (keys : list string) :
  forall (l : list string) acc, NoDup acc ->
  let r := fold_left (fun acc tag => if negb (existsb (String.eqb tag) acc) then app acc [tag] else acc)
                     l acc in
  NoDup r /\ (forall x, In x r <-> In x acc \/ In x l).
Proof.
  induction l as [|t l IH]; intros acc Hn; simpl; [split; [exact Hn | tauto]|].
  destruct (existsb (String.eqb t) acc) eqn:Ea; simpl.
  - destruct (IH acc Hn) as [H1 H2]. split; [exact H1|]. intros x. rewrite H2.
    apply existsb_eqb_in in Ea. split; [tauto|]. intros [H|[<-|H]]; auto.
  - assert (Hn' : NoDup (app acc [t])).
    { apply nodup_snoc; [exact Hn|]. intros H. apply existsb_eqb_in in H. congruence. }
    destruct (IH _ Hn') as [H1 H2]. split; [exact H1|]. intros x. rewrite H2, in_app_iff.
    simpl. tauto.
Qed.

End AvailableFacts.

(** [_available_templates] lists every template tag exactly once, whatever
    [template_order] holds (tags that are not templates are left out). *)
Theorem available_templates_exact (keys order : list string) :
  NoDup (Templates._available_templates (Some keys) order) /\
  (forall t, In t (Templates._available_templates (Some keys) order) <-> In t keys).
Proof.
  unfold Templates._available_templates. cbv zeta.
  set (ord := match order with [] => keys | _ => order end).
  destruct (AvailableFacts.order_fold keys ord [] (NoDup_nil _) (incl_nil_l _)) as [H1 [H2 _]].
  match goal with |- context [fold_left _ keys ?a] => set (av := a) in * end.
  destruct (AvailableFacts.keys_fold keys keys av H1) as [K1 K2].
  split; [exact K1|]. intros t. rewrite K2. split; [|tauto].
  intros [H|H]; [exact (H2 t H) | exact H].
Qed.

Module MonthFacts.
Import Py Month.

Lemma lookup_in (l : list (string * string)) (k v : string) :
  lookup l k = Some v -> In (k, v) l.
Proof.
  induction l as [|[k' v'] l IH]; simpl; [discriminate|].
  destruct (String.eqb_spec k' k) as [->|_].
  - intros H. injection H as <-. left. reflexivity.
  - intros H. right. exact (IH H).
Qed.

Lemma fmt02_month (n : nat) : 1 <= n -> n <= 12 -> In (fmt02 n) months.
Proof.
  intros H1 H2.
  do 13 (destruct n as [|n]; [try lia; vm_compute; tauto|]). lia.
Qed.

End MonthFacts.

(** [_normalize_month_token] returns [None] or a two-digit month ["01"]
    to ["12"], and returns each of these months unchanged. *)
Theorem normalize_month_token_range (value m : string) :
  Month._normalize_month_token value = Some m ->
  In m Month.months /\ Month._normalize_month_token m = Some m.
Proof.
  intros H.
  assert (Hm : In m Month.months).
  { unfold Month._normalize_month_token in H.
    destruct (String.eqb value ""); [discriminate|].
    destruct (String.eqb _ ""); [discriminate|].
    destruct (Py.isdigit _ && _ && _) eqn:E.
    - injection H as <-. apply andb_true_iff in E. destruct E as [E E2].
      apply andb_true_iff in E. destruct E as [_ E1].
      apply Nat.leb_le in E1, E2. apply MonthFacts.fmt02_month; assumption.
    - apply MonthFacts.lookup_in in H. unfold Month.month_lookup in H.
      simpl in H. unfold Month.months.
      repeat (destruct H as [H|H]; [injection H as _ <-; simpl; tauto|]). contradiction. }
  split; [exact Hm|].
  unfold Month.months in Hm. simpl in Hm.
  repeat (destruct Hm as [<-|Hm]; [vm_compute; reflexivity|]). contradiction.
Qed.

(** Witness: the word "Sept" normalises to the month "09". *)
Lemma normalize_month_token_range_witness :
  In "09" Month.months /\ Month._normalize_month_token "09" = Some "09".
Proof. apply (normalize_month_token_range " Sept"). vm_compute. reflexivity. Defined.

Module KeyFacts.
Import Py Norm PyFacts.

Lemma append_empty_r (s : string) : (s ++ EmptyString)%string = s.
Proof. induction s as [|c s IH]; simpl; [reflexivity | now rewrite IH]. Qed.

Lemma non_alnum_chars (s : string) :
  forall b c, In c (to_list (non_alnum_to_space b s)) ->
  is_lower c || is_digit c = true \/ c = " "%char.
Proof.
  induction s as [|x s IH]; intros b c; simpl; [intros []|].
  destruct (is_lower x || is_digit x) eqn:E.
  - simpl. intros [<-|H]; [left; exact E | exact (IH _ _ H)].
  - destruct b; [apply IH|]. simpl. intros [<-|H]; [right; reflexivity | exact (IH _ _ H)].
Qed.

Lemma lstrip_sub (s : string) c : In c (to_list (lstrip s)) -> In c (to_list s).
Proof.
  induction s as [|x s IH]; simpl; [auto|].
  destruct (is_space x); [intros H; right; exact (IH H) | auto].
Qed.

Lemma strip_sub (s : string) c : In c (to_list (strip s)) -> In c (to_list s).
Proof.
  unfold strip, rstrip. rewrite to_of_list. intros H.
  apply in_rev, lstrip_sub in H. rewrite to_of_list in H. apply in_rev in H.
  exact (lstrip_sub _ _ H).
Qed.

(** Every word of [split] is non-empty and made of the string's
    non-blank characters. *)
Lemma split_acc_words (P : ascii -> Prop) (s : string) :
  forall cur, (forall c, In c (to_list s) -> is_space c = false -> P c) ->
  (forall c, In c cur -> P c /\ is_space c = false) ->
  forall t, In t (split_acc s cur) ->
  t <> EmptyString /\ (forall c, In c (to_list t) -> P c /\ is_space c = false).
Proof.
  assert (Hw : forall cur : list ascii, cur <> [] ->
             (forall c, In c cur -> P c /\ is_space c = false) ->
             of_list (rev cur) <> EmptyString /\
             (forall c, In c (to_list (of_list (rev cur))) -> P c /\ is_space c = false)).
  { intros cur Hne Hc. split.
    - destruct (rev cur) eqn:E; [|discriminate]. exfalso. apply (f_equal (@rev ascii)) in E.
      rewrite rev_involutive in E. exact (Hne E).
    - intros c. rewrite to_of_list, <- in_rev. apply Hc. }
  induction s as [|x s IH]; intros cur Hs Hc t Ht; simpl in Ht.
  - destruct cur as [|y cur]; [destruct Ht|].
    destruct Ht as [<-|[]]. apply Hw; [discriminate | exact Hc].
  - destruct (is_space x) eqn:Sx.
    + assert (Hs' : forall c, In c (to_list s) -> is_space c = false -> P c)
        by (intros c Hin; apply Hs; right; exact Hin).
      destruct cur as [|y cur].
      * exact (IH [] Hs' (fun c H => match H with end) t Ht).
      * destruct Ht as [<-|Ht]; [apply Hw; [discriminate | exact Hc]|].
        exact (IH [] Hs' (fun c H => match H with end) t Ht).
    + apply (IH (x :: cur)); [intros c Hin; apply Hs; right; exact Hin | | exact Ht].
      intros c [<-|Hin]; [split; [apply Hs; [left; reflexivity | exact Sx] | exact Sx] | exact (Hc c Hin)].
Qed.

Lemma split_words (P : ascii -> Prop) (s : string) :
  (forall c, In c (to_list s) -> is_space c = false -> P c) ->
  forall t, In t (split s) ->
  t <> EmptyString /\ (forall c, In c (to_list t) -> P c /\ is_space c = false).
Proof. intros Hs. apply split_acc_words; [exact Hs | intros c []]. Qed.

Definition lowdig (c : ascii) : Prop := is_lower c || is_digit c = true.

Lemma word_of (t : string) :
  t <> EmptyString -> (forall c, In c (to_list t) -> lowdig c /\ is_space c = false) -> Keys.word t.
Proof.
  intros Hne Hc. split; [exact Hne|]. apply forallb_forall. intros c Hin. apply (Hc c Hin).
Qed.

Lemma merge_words_n (n : nat) :
  forall toks, List.length toks <= n -> Forall Keys.word toks -> Forall Keys.word (merge_tokens toks).
Proof.
  induction n as [|n IH]; intros [|t rest] Hl H; try constructor; [simpl in Hl; lia|].
  pose proof (Forall_inv H) as Ht. pose proof (Forall_inv_tail H) as Hr.
  cbn [merge_tokens]. destruct rest as [|nx rest'].
  - constructor; [exact Ht | constructor].
  - pose proof (Forall_inv Hr) as Hn. pose proof (Forall_inv_tail Hr) as Hr'.
    simpl in Hl. destruct (String.length t =? 1).
    + constructor; [|apply IH; [lia | exact Hr']].
      destruct Ht as [Ht1 Ht2]. destruct Hn as [Hn1 Hn2]. split.
      * destruct t; [contradiction | discriminate].
      * rewrite to_list_app, forallb_app, Ht2, Hn2. reflexivity.
    + constructor; [exact Ht | apply IH; [simpl; lia | exact Hr]].
Qed.

Lemma merge_words (toks : list string) :
  Forall Keys.word toks -> Forall Keys.word (merge_tokens toks).
Proof. apply (merge_words_n (List.length toks)). lia. Qed.

Lemma lowdig_not_space (c : ascii) : lowdig c -> is_space c = false.
Proof.
  unfold lowdig, is_lower, is_digit, is_space.
  set (n := code c). clearbody n. intros H. TemplateFacts.leb_cases.
Qed.

Lemma word_no_space (t : string) : Keys.word t -> forall c, In c (to_list t) -> is_space c = false.
Proof.
  intros [_ H] c Hin. apply lowdig_not_space. unfold lowdig.
  exact (proj1 (forallb_forall _ _) H c Hin).
Qed.

Lemma split_acc_app (t s : string) :
  forall cur, (forall c, In c (to_list t) -> is_space c = false) ->
  split_acc (t ++ s) cur = split_acc s (app (rev (to_list t)) cur).
Proof.
  induction t as [|x t IH]; intros cur Ht; simpl; [reflexivity|].
  rewrite (Ht x (or_introl eq_refl)). rewrite IH; [|intros c Hin; apply Ht; right; exact Hin].
  rewrite <- app_assoc. reflexivity.
Qed.

(** Words joined by blanks split back into the same words. *)
Lemma split_acc_blank (s : string) (cur : list ascii) :
  cur <> [] -> split_acc (String " "%char s) cur = of_list (rev cur) :: split_acc s [].
Proof. destruct cur; [contradiction | reflexivity]. Qed.

Lemma split_acc_end (cur : list ascii) :
  cur <> [] -> split_acc EmptyString cur = [of_list (rev cur)].
Proof. destruct cur; [contradiction | reflexivity]. Qed.

(** Words joined by blanks split back into the same words. *)
Lemma split_join (toks : list string) :
  Forall (fun t => t <> EmptyString /\ forall c, In c (to_list t) -> is_space c = false) toks ->
  split (join_space toks) = toks.
Proof.
  induction toks as [|t rest IH]; intros H; [reflexivity|].
  pose proof (Forall_inv H) as [Hne Ht]. pose proof (Forall_inv_tail H) as Hr.
  assert (Hrev : rev (to_list t) <> []).
  { destruct t as [|c t]; [contradiction|]. simpl. destruct (rev (to_list t)); discriminate. }
  unfold split. destruct rest as [|t2 rest].
  - change (join_space [t]) with t. rewrite <- (append_empty_r t) at 1.
    rewrite split_acc_app by exact Ht. rewrite app_nil_r, split_acc_end by exact Hrev.
    rewrite rev_involutive, of_to_list. reflexivity.
  - change (join_space (t :: t2 :: rest)) with (t ++ String " "%char (join_space (t2 :: rest)))%string.
    rewrite split_acc_app by exact Ht. rewrite app_nil_r, split_acc_blank by exact Hrev.
    rewrite rev_involutive, of_to_list. f_equal. apply IH, Hr.
Qed.

Lemma words_no_space (toks : list string) :
  Forall Keys.word toks ->
  Forall (fun t => t <> EmptyString /\ forall c, In c (to_list t) -> is_space c = false) toks.
Proof.
  intros H. apply Forall_forall. intros t Hin.
  pose proof (proj1 (Forall_forall _ _) H t Hin) as Hw.
  split; [apply Hw | apply word_no_space, Hw].
Qed.

Lemma key_tokens (v : string) :
  Forall Keys.word (split (strip (non_alnum_to_space false v))).
Proof.
  apply Forall_forall. intros t Hin.
  destruct (split_words lowdig (strip (non_alnum_to_space false v))
      ltac:(intros c Hc Hs; apply strip_sub in Hc;
            destruct (non_alnum_chars _ _ _ Hc) as [H| ->]; [exact H | discriminate Hs])
      t Hin) as [H1 H2].
  apply word_of; [exact H1 | exact H2].
Qed.

Lemma normalize_words (title : string) :
  exists toks, Forall Keys.word toks /\ _normalize_title_key title = join_space toks.
Proof.
  unfold _normalize_title_key. cbv zeta.
  set (v := lower _).
  pose proof (key_tokens v) as H.
  destruct (split (strip (non_alnum_to_space false v))) as [|t r] eqn:E.
  - exists []. split; [constructor | reflexivity].
  - exists (merge_tokens (t :: r)). split; [apply merge_words, H | reflexivity].
Qed.

End KeyFacts.

(** [_normalize_title_key] returns non-empty lower-case alphanumeric words
    joined by single blanks (no blank at either end), and splitting the key
    gives these words back. *)
Theorem normalize_title_key_words (title : string) :
  exists toks, Forall Keys.word toks /\
    Norm._normalize_title_key title = Py.join_space toks /\
    Py.split (Norm._normalize_title_key title) = toks.
Proof.
  destruct (KeyFacts.normalize_words title) as [toks [Hw He]].
  exists toks. split; [exact Hw|]. split; [exact He|].
  rewrite He. apply KeyFacts.split_join, KeyFacts.words_no_space, Hw.
Qed.

(** [_normalize_author_key] returns [""] or one lower-case alphanumeric
    word. *)
Theorem normalize_author_key_word (name : string) :
  Fname._normalize_author_key name = "" \/ Keys.word (Fname._normalize_author_key name).
Proof.
  unfold Fname._normalize_author_key. cbv zeta.
  pose proof (KeyFacts.key_tokens
                (Fname.before_comma (Fname.remove_all "et al"
                   (Fname.remove_all "et al." (Py.strip (Py.lower name)))))) as H.
  destruct (rev _) as [|last r] eqn:E; [left; reflexivity|]. right.
  apply (proj1 (Forall_forall _ _) H). apply in_rev. rewrite E. left. reflexivity.
Qed.

Module NumericFacts.
Import Py Norm.

Lemma drop_suffix (l : list string) : exists pre, l = app pre (drop_leading_numeric l).
Proof.
  induction l as [|t l IH]; simpl; [exists []; reflexivity|].
  destruct (_ && _); [|exists []; reflexivity].
  destruct IH as [pre H]. exists (t :: pre). simpl. congruence.
Qed.

Lemma drop_idem (l : list string) : drop_leading_numeric (drop_leading_numeric l) = drop_leading_numeric l.
Proof.
  induction l as [|t l IH]; simpl; [reflexivity|].
  destruct (_ && _) eqn:E; [exact IH|]. simpl. rewrite E. reflexivity.
Qed.

Lemma drop_same_length (l : list string) :
  List.length (drop_leading_numeric l) = List.length l -> drop_leading_numeric l = l.
Proof.
  destruct (drop_suffix l) as [pre Hp]. intros H.
  rewrite Hp in H at 2. rewrite length_app in H.
  destruct pre; [|simpl in H; lia]. exact (eq_sym Hp).
Qed.

Lemma drop_done (title_key : string) :
  let r := _strip_leading_numeric_tokens title_key in
  drop_leading_numeric (split r) = split r.
Proof.
  cbv zeta. unfold _strip_leading_numeric_tokens. cbv zeta.
  set (tokens := split title_key).
  destruct (List.length (drop_leading_numeric tokens) =? List.length tokens) eqn:E.
  - apply Nat.eqb_eq, drop_same_length in E. exact E.
  - assert (Hsplit : split (join_space (drop_leading_numeric tokens)) = drop_leading_numeric tokens).
    { apply KeyFacts.split_join. apply Forall_forall. intros t Hin.
      destruct (drop_suffix tokens) as [pre Hp].
      assert (Ht : In t tokens) by (rewrite Hp; apply in_or_app; right; exact Hin).
      destruct (KeyFacts.split_words (fun _ => True) title_key (fun _ _ _ => I) t Ht) as [H1 H2].
      split; [exact H1 | intros c Hc; apply H2, Hc]. }
    rewrite Hsplit. apply drop_idem.
Qed.

End NumericFacts.

(** After [_strip_leading_numeric_tokens] no leading word of at most two
    digits is left, so stripping again changes nothing. *)
Theorem strip_leading_numeric_complete (title_key : string) :
  let r := Norm._strip_leading_numeric_tokens title_key in
  Norm.drop_leading_numeric (Py.split r) = Py.split r /\
  Norm._strip_leading_numeric_tokens r = r.
Proof.
  cbv zeta. split; [apply NumericFacts.drop_done|].
  unfold Norm._strip_leading_numeric_tokens at 1. cbv zeta.
  rewrite NumericFacts.drop_done, Nat.eqb_refl. reflexivity.
Qed.

Module IndexFacts.
Import Py Resolve Index.

Lemma get_add (idx : file_index) (k v k' : string) :
  get (add idx k v) k' = if String.eqb k k' then app (get idx k) [v] else get idx k'.
Proof.
  induction idx as [|[k0 l] idx IH]; simpl.
  - destruct (String.eqb k k'); reflexivity.
  - destruct (String.eqb_spec k0 k) as [->|H0]; simpl.
    + destruct (String.eqb k k'); reflexivity.
    + destruct (String.eqb_spec k0 k') as [->|H1].
      * destruct (String.eqb_spec k k') as [->|_]; [contradiction | reflexivity].
      * exact IH.
Qed.

(** [idx'] has every entry of [idx], and [v] is its only new value. *)
Definition grows (v : string) (idx idx' : file_index) : Prop :=
  (forall k x, In x (get idx k) -> In x (get idx' k)) /\
  (forall k x, In x (get idx' k) -> In x (get idx k) \/ x = v).

Lemma grows_refl (v : string) (idx : file_index) : grows v idx idx.
Proof. split; auto. Qed.

Lemma grows_trans (v : string) (i j k : file_index) : grows v i j -> grows v j k -> grows v i k.
Proof.
  intros [A1 B1] [A2 B2]. split; [auto|].
  intros key x H. destruct (B2 key x H) as [H'|H']; [exact (B1 key x H') | right; exact H'].
Qed.

Lemma grows_add (v : string) (idx : file_index) (k : string) : grows v idx (add idx k v).
Proof.
  split; intros k' x; rewrite get_add; destruct (String.eqb_spec k k') as [<-|_].
  - intros H. apply in_or_app. left. exact H.
  - auto.
  - intros H. apply in_app_or in H. destruct H as [H|[<-|[]]]; auto.
  - auto.
Qed.

Ltac grows_tac :=
  repeat match goal with
  | |- grows _ ?i ?i => apply grows_refl
  | |- grows ?v ?i (add ?j _ ?v) => apply (grows_trans v i j); [|apply grows_add]
  | |- context [if ?c then _ else _] => destruct c
  | |- context [match ?m with Some _ => _ | None => _ end] => destruct m
  | |- context [match ?m with (_, _) => _ end] => destruct m
  end.

Lemma index_title_grows (idx : file_index) (nk tk r : string) :
  grows r idx (index_title idx nk tk r).
Proof. unfold index_title. cbv zeta. grows_tac. Qed.

Lemma index_meta_grows (idx : file_index) (name r : string) :
  grows r idx (index_meta idx name r).
Proof. unfold index_meta. cbv zeta. grows_tac. Qed.

Section Paths.
Variable is_file : string -> bool.
Variable path_suffix : string -> string.
Variable resolve : string -> string.
Variable root_is_dir : string -> bool.
Variable rglob : string -> list string.

Lemma index_path_grows (wm : bool) (idx : file_index) (p : string) :
  grows (resolve p) idx (index_path resolve wm idx p).
Proof.
  unfold index_path. cbv zeta.
  apply (grows_trans _ _ (add idx (lower (Fname.path_name p)) (resolve p))); [apply grows_add|].
  destruct (String.eqb _ "").
  - destruct wm; [apply index_meta_grows | apply grows_refl].
  - destruct wm; [|apply index_title_grows].
    eapply grows_trans; [apply index_title_grows | apply index_meta_grows].
Qed.

Lemma index_path_keys (wm : bool) (idx : file_index) (p : string) :
  In (resolve p) (get (index_path resolve wm idx p) (lower (Fname.path_name p))) /\
  (title_key_of p <> "" -> In (resolve p) (get (index_path resolve wm idx p) (title_key_of p))).
Proof.
  unfold index_path, title_key_of. cbv zeta.
  set (nk := lower (Fname.path_name p)).
  set (tk := Norm._normalize_title_key (Fname._extract_title_from_filename (Fname.path_name p))).
  set (idx1 := add idx nk (resolve p)).
  assert (H1 : In (resolve p) (get idx1 nk)).
  { unfold idx1. rewrite get_add, String.eqb_refl. apply in_or_app. right. left. reflexivity. }
  set (idx2 := if String.eqb tk "" then idx1 else index_title idx1 nk tk (resolve p)).
  assert (G2 : grows (resolve p) idx1 idx2).
  { unfold idx2. destruct (String.eqb tk ""); [apply grows_refl | apply index_title_grows]. }
  assert (H2 : tk <> "" -> In (resolve p) (get idx2 tk)).
  { intros Hne. unfold idx2. destruct (String.eqb_spec tk "") as [|_]; [contradiction|].
    destruct (String.eqb_spec tk nk) as [->|Hk]; [exact (proj1 (index_title_grows _ _ _ _) _ _ H1)|].
    unfold index_title. cbv zeta. rewrite (proj2 (String.eqb_neq tk nk) Hk).
    set (i0 := add idx1 tk (resolve p)).
    assert (H0 : In (resolve p) (get i0 tk)).
    { unfold i0. rewrite get_add, String.eqb_refl. apply in_or_app. right. left. reflexivity. }
    assert (G : forall i', grows (resolve p) i0 i' -> In (resolve p) (get i' tk)).
    { intros i' [A _]. exact (A _ _ H0). }
    apply G. grows_tac. }
  assert (G3 : forall i', grows (resolve p) idx2 i' ->
             In (resolve p) (get i' nk) /\ (tk <> "" -> In (resolve p) (get i' tk))).
  { intros i' [A _]. split; [apply A, (proj1 G2), H1 | intros Hne; apply A, H2, Hne]. }
  fold idx1 idx2. apply G3. destruct wm; [apply index_meta_grows | apply grows_refl].
Qed.

Lemma index_paths_grows (wm : bool) (sfx : list string) (paths : list string) :
  forall idx k x, In x (get (index_paths is_file path_suffix resolve wm sfx idx paths) k) ->
  In x (get idx k) \/
  exists p, In p paths /\ accepted is_file path_suffix sfx p = true /\ x = resolve p.
Proof.
  induction paths as [|p paths IH]; intros idx k x H; simpl in H; [left; exact H|].
  destruct (IH _ _ _ H) as [H'|[q [Hq [Aq ->]]]].
  - destruct (accepted is_file path_suffix sfx p) eqn:A; [|left; exact H'].
    destruct (proj2 (index_path_grows wm idx p) _ _ H') as [H''| ->]; [left; exact H''|].
    right. exists p. split; [left; reflexivity | split; [exact A | reflexivity]].
  - right. exists q. split; [right; exact Hq | split; [exact Aq | reflexivity]].
Qed.

Lemma index_paths_mono (wm : bool) (sfx : list string) (paths : list string) :
  forall idx k x, In x (get idx k) ->
  In x (get (index_paths is_file path_suffix resolve wm sfx idx paths) k).
Proof.
  induction paths as [|p paths IH]; intros idx k x H; simpl; [exact H|].
  apply IH. destruct (accepted _ _ _ p); [apply (proj1 (index_path_grows wm idx p)), H | exact H].
Qed.

Lemma index_paths_keys (wm : bool) (sfx : list string) (paths : list string) :
  forall idx p, In p paths -> accepted is_file path_suffix sfx p = true ->
  let idx' := index_paths is_file path_suffix resolve wm sfx idx paths in
  In (resolve p) (get idx' (lower (Fname.path_name p))) /\
  (title_key_of p <> "" -> In (resolve p) (get idx' (title_key_of p))).
Proof.
  induction paths as [|q paths IH]; intros idx p Hin Ha; [destruct Hin|].
  destruct Hin as [->|Hin].
  - cbv zeta. cbn [index_paths fold_left]. rewrite Ha.
    destruct (index_path_keys wm idx p) as [K1 K2].
    split; [apply index_paths_mono, K1 | intros Hne; apply index_paths_mono, K2, Hne].
  - exact (IH _ p Hin Ha).
Qed.

Lemma build_grows (sfx : list string) (roots : list string) :
  forall idx k x,
  In x (get (fold_left (fun idx root =>
               if root_is_dir root then index_paths is_file path_suffix resolve true sfx idx (rglob root)
               else idx) roots idx) k) ->
  In x (get idx k) \/
  exists p, walked root_is_dir rglob roots p /\ accepted is_file path_suffix sfx p = true /\ x = resolve p.
Proof.
  induction roots as [|root roots IH]; intros idx k x H; simpl in H; [left; exact H|].
  destruct (IH _ _ _ H) as [H'|[q [[r [Hr [Dr Hq]]] [Aq ->]]]].
  - destruct (root_is_dir root) eqn:D; [|left; exact H'].
    destruct (index_paths_grows true sfx (rglob root) _ _ _ H') as [H''|[q [Hq [Aq ->]]]];
      [left; exact H''|].
    right. exists q. split; [exists root; split; [left; reflexivity | split; [exact D | exact Hq]]|].
    split; [exact Aq | reflexivity].
  - right. exists q. split; [exists r; split; [right; exact Hr | split; [exact Dr | exact Hq]]|].
    split; [exact Aq | reflexivity].
Qed.

Lemma build_mono (sfx : list string) (roots : list string) :
  forall idx k x, In x (get idx k) ->
  In x (get (fold_left (fun idx root =>
               if root_is_dir root then index_paths is_file path_suffix resolve true sfx idx (rglob root)
               else idx) roots idx) k).
Proof.
  induction roots as [|root roots IH]; intros idx k x H; simpl; [exact H|].
  apply IH. destruct (root_is_dir root); [apply index_paths_mono, H | exact H].
Qed.

Lemma build_keys (sfx : list string) (roots : list string) (p : string) :
  walked root_is_dir rglob roots p -> accepted is_file path_suffix sfx p = true ->
  let idx := _build_file_index is_file path_suffix resolve root_is_dir rglob roots sfx in
  In (resolve p) (get idx (lower (Fname.path_name p))) /\
  (title_key_of p <> "" -> In (resolve p) (get idx (title_key_of p))).
Proof.
  intros [root [Hr [Dr Hp]]] Ha. cbv zeta. unfold _build_file_index.
  generalize (@nil (string * list string)) as idx0.
  induction roots as [|r0 roots IH]; intros idx0; [destruct Hr|].
  destruct Hr as [->|Hr].
  - cbn [fold_left]. rewrite Dr.
    destruct (index_paths_keys true sfx (rglob root) idx0 p Hp Ha) as [K1 K2].
    split; [apply build_mono, K1 | intros Hne; apply build_mono, K2, Hne].
  - exact (IH Hr _).
Qed.

End Paths.
End IndexFacts.

Section IndexTheorems.
Variable is_file : string -> bool.
Variable path_suffix : string -> string.
Variable resolve : string -> string.
Variable root_is_dir : string -> bool.
Variable rglob : string -> list string.

(** Every path an index holds is the resolved path of a file that was
    offered to it and passed its checks: for
    [_build_file_index_from_paths] one of the given paths, for
    [_build_file_index] a path found under one of the roots that is a
    directory. *)
Theorem file_index_sound (sfx : list string) :
  (forall paths k x,
     In x (Resolve.get (Index._build_file_index_from_paths is_file path_suffix resolve paths sfx) k) ->
     exists p, In p paths /\ Index.accepted is_file path_suffix sfx p = true /\ x = resolve p) /\
  (forall roots k x,
     In x (Resolve.get (Index._build_file_index is_file path_suffix resolve root_is_dir rglob roots sfx) k) ->
     exists p, Index.walked root_is_dir rglob roots p /\
               Index.accepted is_file path_suffix sfx p = true /\ x = resolve p).
Proof.
  split.
  - intros paths k x H.
    destruct (IndexFacts.index_paths_grows is_file path_suffix resolve false sfx paths [] k x H)
      as [[]|R]; exact R.
  - intros roots k x H.
    destruct (IndexFacts.build_grows is_file path_suffix resolve root_is_dir rglob sfx roots [] k x H)
      as [[]|R]; exact R.
Qed.

(** A paper whose [source_path] has the name of a file indexed by
    [_build_file_index] (ignoring case) always gets a markdown file from
    [_resolve_source_md]: the first one indexed under that name. *)
Theorem resolve_source_md_finds_named_file (sfx roots : list string) (p : string)
        (paper : Resolve.paper) :
  Index.walked root_is_dir rglob roots p ->
  Index.accepted is_file path_suffix sfx p = true ->
  Resolve.source_path paper <> "" ->
  Py.lower (Fname.path_name (Resolve.source_path paper)) = Py.lower (Fname.path_name p) ->
  let idx := Index._build_file_index is_file path_suffix resolve root_is_dir rglob roots sfx in
  exists x rest, Resolve.get idx (Py.lower (Fname.path_name p)) = x :: rest /\
                 Resolve._resolve_source_md paper idx = Some x.
Proof.
  intros Hw Ha Hs Hn. cbv zeta.
  destruct (IndexFacts.build_keys is_file path_suffix resolve root_is_dir rglob sfx roots p Hw Ha)
    as [K1 _].
  destruct (Resolve.get _ (Py.lower (Fname.path_name p))) as [|x rest] eqn:E; [destruct K1|].
  exists x, rest. split; [reflexivity|].
  unfold Resolve._resolve_source_md. destruct (String.eqb_spec (Resolve.source_path paper) "");
    [contradiction|]. rewrite Hn, E. reflexivity.
Qed.

(** A paper whose title has the normalised key of an indexed file's
    title is matched exactly: [_resolve_by_title_and_meta] returns the
    first file filed under that key, with match type ["title"] and score 1. *)
Theorem resolve_by_title_finds_indexed_title (sfx roots : list string) (p : string)
        (paper : Resolve.paper) :
  Index.walked root_is_dir rglob roots p ->
  Index.accepted is_file path_suffix sfx p = true ->
  Index.title_key_of p <> "" ->
  Norm._normalize_title_key (Resolve.paper_title paper) = Index.title_key_of p ->
  let idx := Index._build_file_index is_file path_suffix resolve root_is_dir rglob roots sfx in
  exists x rest, Resolve.get idx (Index.title_key_of p) = x :: rest /\
                 Resolve._resolve_by_title_and_meta paper idx = (Some x, Some "title", 1%Q).
Proof.
  intros Hw Ha Hne Ht. cbv zeta.
  destruct (IndexFacts.build_keys is_file path_suffix resolve root_is_dir rglob sfx roots p Hw Ha)
    as [_ K2].
  specialize (K2 Hne).
  destruct (Resolve.get _ (Index.title_key_of p)) as [|x rest] eqn:E; [destruct K2|].
  exists x, rest. split; [reflexivity|].
  unfold Resolve._resolve_by_title_and_meta, Resolve.title_stages, Resolve.exact_stages.
  cbv zeta. rewrite Ht, E. reflexivity.
Qed.

End IndexTheorems.

(** Witness: the file [papers/Attention Is All You Need.md] under the root
    [papers]. *)
Lemma resolve_source_md_finds_named_file_witness :
  let idx := Index._build_file_index (fun _ => true) (fun _ => ".md") (fun p => p)
               (fun _ => true) (fun _ => ["papers/Attention Is All You Need.md"])
               ["papers"] [".md"] in
  exists x rest,
    Resolve.get idx (Py.lower (Fname.path_name "papers/Attention Is All You Need.md")) = x :: rest /\
    Resolve._resolve_source_md
      {| Resolve.paper_title := ""; Resolve.source_path := "in/attention is all you need.md";
         Resolve._year := ""; Resolve._authors := [] |} idx = Some x.
Proof.
  apply (resolve_source_md_finds_named_file (fun _ => true) (fun _ => ".md") (fun p => p)
           (fun _ => true) (fun _ => ["papers/Attention Is All You Need.md"])
           [".md"] ["papers"] "papers/Attention Is All You Need.md").
  - exists "papers". split; [left; reflexivity | split; [reflexivity | left; reflexivity]].
  - vm_compute. reflexivity.
  - discriminate.
  - vm_compute. reflexivity.
Defined.

(** Witness: a paper titled "Attention is all you need" and the file
    [papers/Attention Is All You Need.md]. *)
Lemma resolve_by_title_finds_indexed_title_witness :
  let idx := Index._build_file_index (fun _ => true) (fun _ => ".md") (fun p => p)
               (fun _ => true) (fun _ => ["papers/Attention Is All You Need.md"])
               ["papers"] [".md"] in
  exists x rest,
    Resolve.get idx (Index.title_key_of "papers/Attention Is All You Need.md") = x :: rest /\
    Resolve._resolve_by_title_and_meta
      {| Resolve.paper_title := "Attention is all you need"; Resolve.source_path := "";
         Resolve._year := ""; Resolve._authors := [] |} idx = (Some x, Some "title", 1%Q).
Proof.
  apply (resolve_by_title_finds_indexed_title (fun _ => true) (fun _ => ".md") (fun p => p)
           (fun _ => true) (fun _ => ["papers/Attention Is All You Need.md"])
           [".md"] ["papers"] "papers/Attention Is All You Need.md").
  - exists "papers". split; [left; reflexivity | split; [reflexivity | left; reflexivity]].
  - vm_compute. reflexivity.
  - vm_compute. discriminate.
  - vm_compute. reflexivity.
Defined.

Module SnapFacts.
Import Snapshot Invariants.

Lemma paper_exists_app (d d' : db) (new : list paper_row) (pid : string) :
  papers d' = app (papers d) new -> paper_exists d pid = true -> paper_exists d' pid = true.
Proof. unfold paper_exists. intros E H. rewrite E, existsb_app, H. reflexivity. Qed.

Lemma extends_refl (d : db) : extends d d.
Proof.
  repeat split; intros r H; exact H.
Qed.

Lemma extends_trans (d1 d2 d3 : db) : extends d1 d2 -> extends d2 d3 -> extends d1 d3.
Proof.
  intros [P1 [A1 [S1 T1]]] [P2 [A2 [S2 T2]]].
  repeat split; auto.
Qed.

Lemma extends_exists (d d' : db) (pid : string) :
  extends d d' -> paper_exists d pid = true -> paper_exists d' pid = true.
Proof.
  intros [P _]. unfold paper_exists. rewrite !existsb_exists.
  intros [r [Hr Hq]]. exists r. split; [exact (P r Hr) | exact Hq].
Qed.

Lemma probe_some (t : list alias_row) (cs : list candidate) (pid : string) (c : candidate) :
  probe t cs = Some (pid, c) -> lookup_alias t (paper_key c) = Some pid.
Proof.
  induction cs as [|c0 cs IH]; cbn [probe]; [discriminate|].
  destruct (lookup_alias t (paper_key c0)) as [pid0|] eqn:E.
  - intros H. injection H as <- <-. exact E.
  - exact IH.
Qed.

Lemma probe_none (t : list alias_row) (cs : list candidate) :
  probe t cs = None -> forall c r, In c cs -> In r t -> a_paper_key r <> paper_key c.
Proof.
  induction cs as [|c0 cs IH]; cbn [probe]; [intros _ c r []|].
  destruct (lookup_alias t (paper_key c0)) as [pid0|] eqn:E; [discriminate|].
  intros H c r [<-|Hc].
  - exact (proj1 (AliasFacts.lookup_alias_none t _) E r).
  - exact (IH H c r Hc).
Qed.

Lemma probe_hit_exists (d : db) (cs : list candidate) (pid : string) (c : candidate) :
  aliases_ok d -> probe (aliases d) cs = Some (pid, c) -> paper_exists d pid = true.
Proof.
  intros Ha Hp. destruct (AliasFacts.lookup_alias_some _ _ _ (probe_some _ _ _ _ Hp))
    as [r [Hr [_ <-]]].
  exact (Ha r Hr).
Qed.

Lemma register_rows (pid : string) (cs : list candidate) :
  forall t r, In r (register_aliases pid cs t) ->
  (In r t /\ forall c, In c cs -> a_paper_key r <> paper_key c) \/ a_paper_id r = pid.
Proof.
  induction cs as [|c cs IH]; intros t r H; cbn [register_aliases] in H.
  - left. split; [exact H | intros c []].
  - destruct (IH _ _ H) as [[H1 H2]|H1]; [|right; exact H1].
    unfold insert_or_replace_alias in H1. apply in_app_or in H1.
    destruct H1 as [H1|[<-|[]]].
    + apply filter_In in H1. destruct H1 as [H1 Hk]. left. split; [exact H1|].
      intros c' [<-|Hc']; [|exact (H2 c' Hc')].
      intros E. cbn [a_paper_key] in Hk. rewrite E, String.eqb_refl in Hk. discriminate.
    + right. reflexivity.
Qed.

Lemma register_keeps (pid : string) (cs : list candidate) :
  forall t r, In r t -> (forall c, In c cs -> a_paper_key r <> paper_key c) ->
  In r (register_aliases pid cs t).
Proof.
  induction cs as [|c cs IH]; intros t r Hr H; cbn [register_aliases]; [exact Hr|].
  apply IH; [|intros c' Hc'; exact (H c' (or_intror Hc'))].
  unfold insert_or_replace_alias. apply in_or_app. left. apply filter_In.
  split; [exact Hr|]. cbn [a_paper_key].
  destruct (String.eqb_spec (a_paper_key r) (paper_key c)) as [E|_];
    [exfalso; exact (H c (or_introl eq_refl) E) | reflexivity].
Qed.

Lemma add_new_papers (d : db) (p : input) (pid key ktype : string) :
  exists row, p_paper_id row = pid /\
    papers (_add_new_paper d p pid key ktype) = app (papers d) [row].
Proof. eexists. split; [|reflexivity]. reflexivity. Qed.

Lemma add_new_summaries (d : db) (p : input) (pid key ktype : string) (r : string * string) :
  (In r (summaries d) -> In r (summaries (_add_new_paper d p pid key ktype))) /\
  (In r (summaries (_add_new_paper d p pid key ktype)) -> In r (summaries d) \/ fst r = pid).
Proof.
  unfold _add_new_paper. cbn [summaries].
  generalize (summaries d) as acc.
  induction (i_template_tags p) as [|tag tags IH]; intros acc; cbn [fold_left]; [tauto|].
  destruct (existsb _ acc); [apply IH|].
  destruct (IH (app acc [(pid, tag)])) as [K N]. split.
  - intros H. apply K, in_or_app. left. exact H.
  - intros H. destruct (N H) as [H'|H']; [|right; exact H'].
    apply in_app_or in H'. destruct H' as [H'|[<-|[]]]; [left; exact H' | right; reflexivity].
Qed.

Lemma add_new_translations (d : db) (p : input) (pid key ktype : string)
      (r : string * string * string) :
  (In r (translations d) -> fst (fst r) <> pid ->
   In r (translations (_add_new_paper d p pid key ktype))) /\
  (In r (translations (_add_new_paper d p pid key ktype)) ->
   In r (translations d) \/ fst (fst r) = pid).
Proof.
  unfold _add_new_paper. cbn [translations].
  generalize (translations d) as acc.
  induction (i_translations p) as [|lh lhs IH]; intros acc; cbn [fold_left]; [tauto|].
  destruct (IH (app (filter (fun r => negb (let '(pid', lang', _) := r in
                                         String.eqb pid' pid && String.eqb lang' (fst lh))) acc)
                    [(pid, fst lh, snd lh)])) as [K N].
  split.
  - intros H Hne. apply K; [|exact Hne]. apply in_or_app. left. apply filter_In.
    split; [exact H|]. destruct r as [[pid' lang'] h']. cbn [fst] in Hne.
    rewrite (proj2 (String.eqb_neq pid' pid) Hne). reflexivity.
  - intros H. destruct (N H) as [H'|H']; [|right; exact H'].
    apply in_app_or in H'. destruct H' as [H'|[<-|[]]].
    + left. apply filter_In in H'. exact (proj1 H').
    + right. reflexivity.
Qed.

Lemma paper_exists_false (d : db) (pid : string) :
  paper_exists d pid = false -> ~ In pid (map p_paper_id (papers d)).
Proof.
  unfold paper_exists. intros E Hin. apply in_map_iff in Hin. destruct Hin as [r [<- Hr]].
  assert (H : existsb (fun r' => String.eqb (p_paper_id r') (p_paper_id r)) (papers d) = true).
  { apply existsb_exists. exists r. split; [exact Hr | apply String.eqb_refl]. }
  rewrite H in E. discriminate.
Qed.

Section Update.
Variable cpk : list candidate -> candidate.
Variable pifk : string -> string.

(** The id an input gets when none of its keys has an alias row. *)
Definition fallback_id (p : input) : string :=
  if String.eqb (i_explicit_id p) "" then pifk (paper_key (cpk (i_candidates p)))
  else i_explicit_id p.

Lemma update_one_step (d : db) (p : input) :
  refs_ok d -> NoDup (map p_paper_id (papers d)) ->
  let d1 := update_one cpk pifk d p in
  refs_ok d1 /\ NoDup (map p_paper_id (papers d1)) /\ extends d d1.
Proof.
  intros [Ha [Hs Ht]] Hn. cbv zeta. unfold update_one, _resolve_paper_identity.
  destruct (probe (aliases d) (i_candidates p)) as [[pid c]|] eqn:Hp.
  - cbn beta iota zeta. rewrite (probe_hit_exists d _ pid c Ha Hp).
    split; [split; [exact Ha | split; [exact Hs | exact Ht]]|]. split; [exact Hn | apply extends_refl].
  - cbn beta iota zeta.
    set (pid := if String.eqb (i_explicit_id p) "" then
                  pifk (paper_key (cpk (i_candidates p))) else i_explicit_id p).
    destruct (paper_exists d pid) eqn:E.
    { split; [split; [exact Ha | split; [exact Hs | exact Ht]]|].
      split; [exact Hn | apply extends_refl]. }
    set (key := paper_key (cpk (i_candidates p))).
    set (ktype := key_type (cpk (i_candidates p))).
    set (d1 := _add_new_paper d p pid key ktype).
    destruct (add_new_papers d p pid key ktype) as [row [Hrow Hpap]]. fold d1 in Hpap.
    assert (Hold : forall x, paper_exists d x = true -> paper_exists d1 x = true).
    { intros x. exact (paper_exists_app d d1 [row] x Hpap). }
    assert (Hnew : paper_exists d1 pid = true).
    { unfold paper_exists. rewrite Hpap, existsb_app. cbn [existsb].
      rewrite Hrow, String.eqb_refl, orb_true_r. reflexivity. }
    assert (Hnone := probe_none _ _ Hp).
    split; [split; [|split]|split].
    + intros r Hr. destruct (register_rows pid (i_candidates p) (aliases d) r Hr)
        as [[Hr' _]| ->]; [apply Hold, Ha, Hr' | exact Hnew].
    + intros pid' tag H. destruct (proj2 (add_new_summaries d p pid key ktype (pid', tag)) H)
        as [H'|H']; [apply Hold, (Hs _ _ H') | cbn [fst] in H'; subst pid'; exact Hnew].
    + intros pid' lang h H.
      destruct (proj2 (add_new_translations d p pid key ktype (pid', lang, h)) H)
        as [H'|H']; [apply Hold, (Ht _ _ _ H') | cbn [fst] in H'; subst pid'; exact Hnew].
    + rewrite Hpap, map_app. cbn [map]. rewrite Hrow.
      apply AvailableFacts.nodup_snoc; [exact Hn | apply paper_exists_false, E].
    + split; [intros r Hr; rewrite Hpap; apply in_or_app; left; exact Hr|]. split; [|split].
      * intros r Hr. apply register_keeps; [exact Hr|].
        intros c Hc. exact (Hnone c r Hc Hr).
      * intros r Hr. apply (proj1 (add_new_summaries d p pid key ktype r) Hr).
      * intros [[pid' lang] h] Hr. apply (proj1 (add_new_translations d p pid key ktype _) Hr).
        cbn [fst]. intros ->. pose proof (Ht _ _ _ Hr) as H'. rewrite E in H'. discriminate.
Qed.

Lemma update_snapshot_step (ps : list input) :
  forall d, refs_ok d -> NoDup (map p_paper_id (papers d)) ->
  let d1 := update_snapshot cpk pifk d ps in
  refs_ok d1 /\ NoDup (map p_paper_id (papers d1)) /\ extends d d1.
Proof.
  induction ps as [|p ps IH]; intros d Hr Hn; cbv zeta; cbn [update_snapshot fold_left].
  - split; [exact Hr | split; [exact Hn | apply extends_refl]].
  - destruct (update_one_step d p Hr Hn) as [Hr1 [Hn1 He1]].
    destruct (IH _ Hr1 Hn1) as [Hr2 [Hn2 He2]].
    split; [exact Hr2 | split; [exact Hn2 | exact (extends_trans _ _ _ He1 He2)]].
Qed.

(** The input is settled in [d]: one of its keys has an alias row, or its
    fallback id is a paper. *)
Definition settled (d : db) (p : input) : Prop :=
  paper_exists d (fallback_id p) = true \/ probe (aliases d) (i_candidates p) <> None.

Lemma settled_noop (d : db) (p : input) :
  aliases_ok d -> settled d p -> update_one cpk pifk d p = d.
Proof.
  intros Ha Hs. unfold update_one, _resolve_paper_identity.
  destruct (probe (aliases d) (i_candidates p)) as [[pid c]|] eqn:Hp.
  - cbn beta iota zeta. rewrite (probe_hit_exists d _ pid c Ha Hp). reflexivity.
  - cbn beta iota zeta. destruct Hs as [Hs|Hs]; [|contradiction].
    unfold fallback_id in Hs. rewrite Hs. reflexivity.
Qed.

Lemma probe_mono (t t' : list alias_row) (cs : list candidate) :
  (forall r, In r t -> In r t') -> probe t cs <> None -> probe t' cs <> None.
Proof.
  intros Hsub H H'. apply H.
  destruct (probe t cs) as [[pid c]|] eqn:Hp; [|reflexivity]. exfalso.
  destruct (AliasFacts.lookup_alias_some _ _ _ (probe_some _ _ _ _ Hp)) as [r [Hr [Hk _]]].
  assert (Hc : In c cs).
  { clear -Hp. induction cs as [|c0 cs IH]; cbn [probe] in Hp; [discriminate|].
    destruct (lookup_alias t (paper_key c0)); [injection Hp as _ <-; left; reflexivity|].
    right. exact (IH Hp). }
  exact (probe_none t' cs H' c r Hc (Hsub r Hr) Hk).
Qed.

Lemma settled_mono (d d' : db) (p : input) : extends d d' -> settled d p -> settled d' p.
Proof.
  intros He [Hs|Hs]; [left; exact (extends_exists d d' _ He Hs)|].
  right. destruct He as [_ [Ha _]]. exact (probe_mono _ _ _ Ha Hs).
Qed.

Lemma update_one_settles (d : db) (p : input) :
  aliases_ok d -> settled (update_one cpk pifk d p) p.
Proof.
  intros Ha. unfold update_one, _resolve_paper_identity.
  destruct (probe (aliases d) (i_candidates p)) as [[pid c]|] eqn:Hp.
  - cbn beta iota zeta. rewrite (probe_hit_exists d _ pid c Ha Hp).
    right. rewrite Hp. discriminate.
  - cbn beta iota zeta. fold (fallback_id p).
    destruct (paper_exists d (fallback_id p)) eqn:E; [left; exact E|].
    left. destruct (add_new_papers d p (fallback_id p) (paper_key (cpk (i_candidates p)))
                      (key_type (cpk (i_candidates p)))) as [row [Hrow Hpap]].
    unfold paper_exists. rewrite Hpap, existsb_app. cbn [existsb].
    rewrite Hrow, String.eqb_refl, orb_true_r. reflexivity.
Qed.

Lemma update_snapshot_settles (ps : list input) :
  forall d, refs_ok d -> NoDup (map p_paper_id (papers d)) ->
  forall p, In p ps -> settled (update_snapshot cpk pifk d ps) p.
Proof.
  induction ps as [|p0 ps IH]; intros d Hr Hn p Hin; [destruct Hin|].
  cbn [update_snapshot fold_left]. fold (update_snapshot cpk pifk (update_one cpk pifk d p0) ps).
  destruct (update_one_step d p0 Hr Hn) as [Hr1 [Hn1 _]].
  destruct Hin as [->|Hin]; [|exact (IH _ Hr1 Hn1 p Hin)].
  destruct (update_snapshot_step ps _ Hr1 Hn1) as [_ [_ He]].
  apply (settled_mono _ _ _ He). apply update_one_settles, (proj1 Hr).
Qed.

Lemma update_snapshot_noop (ps : list input) :
  forall d, aliases_ok d -> (forall p, In p ps -> settled d p) -> update_snapshot cpk pifk d ps = d.
Proof.
  induction ps as [|p ps IH]; intros d Ha Hs; [reflexivity|].
  cbn [update_snapshot fold_left]. rewrite (settled_noop d p Ha (Hs p (or_introl eq_refl))).
  apply IH; [exact Ha | intros p' Hp'; exact (Hs p' (or_intror Hp'))].
Qed.

End Update.
End SnapFacts.

Module SuppFacts.
Import Snapshot Supplement Invariants.

Lemma dedup_spec (l : list string) :
  forall seen, NoDup (dedup seen l) /\
  (forall x, In x (dedup seen l) -> In x l /\ ~ In x seen).
Proof.
  induction l as [|x xs IH]; intros seen; cbn [dedup].
  - split; [constructor | intros y []].
  - destruct (existsb (String.eqb x) seen) eqn:E.
    + destruct (IH seen) as [N M]. split; [exact N|].
      intros y Hy. destruct (M y Hy) as [H1 H2]. split; [right; exact H1 | exact H2].
    + destruct (IH (x :: seen)) as [N M]. split.
      * constructor; [|exact N]. intros Hx. destruct (M x Hx) as [_ H2]. apply H2. left. reflexivity.
      * intros y [->|Hy].
        -- split; [left; reflexivity|]. intros Hs.
           assert (H : existsb (String.eqb y) seen = true).
           { apply existsb_exists. exists y. split; [exact Hs | apply String.eqb_refl]. }
           rewrite H in E. discriminate.
        -- destruct (M y Hy) as [H1 H2]. split; [right; exact H1|].
           intros Hs. apply H2. right. exact Hs.
Qed.

Section Ids.
Variable stable_hash : string -> string.
Variable read_md_hash : string -> option string.
Variable build_paper_key_candidates : input -> list candidate.
Variable processed_hash : string -> string.

Definition good_ids (d : db) (l : list string) : Prop :=
  NoDup l /\ (aliases_ok d -> forall x, In x l -> paper_exists d x = true).

Lemma good_nil (d : db) : good_ids d [].
Proof. split; [constructor | intros _ x []]. Qed.

Lemma good_or (d : db) (l k : list string) :
  good_ids d l -> good_ids d k -> good_ids d (match l with [] => k | _ :: _ => l end).
Proof. destruct l; auto. Qed.

Lemma good_keep (d : db) (l k : list string) :
  good_ids d l -> good_ids d k -> good_ids d (match l with [] => k | s :: l' => s :: l' end).
Proof. destruct l; auto. Qed.

Lemma good_if (d : db) (c : bool) (l k : list string) :
  good_ids d l -> good_ids d k -> good_ids d (if c then l else k).
Proof. destruct c; auto. Qed.

Lemma good_ids_where (d : db) (f : paper_row -> string) (v : string) :
  good_ids d (ids_where d f v).
Proof.
  unfold ids_where. destruct (dedup_spec (map p_paper_id (filter (fun r => String.eqb (f r) v)
                                                               (papers d))) []) as [N M].
  split; [exact N|]. intros _ x Hx. destruct (M x Hx) as [Hx' _].
  apply in_map_iff in Hx'. destruct Hx' as [r [<- Hr]]. apply filter_In in Hr.
  unfold paper_exists. apply existsb_exists. exists r. split; [exact (proj1 Hr) | apply String.eqb_refl].
Qed.

Lemma good_alias (d : db) (cs : list candidate) :
  good_ids d (dedup [] (flat_map (fun c => alias_ids d (paper_key c)) cs)).
Proof.
  destruct (dedup_spec (flat_map (fun c => alias_ids d (paper_key c)) cs) []) as [N M].
  split; [exact N|]. intros Ha x Hx. destruct (M x Hx) as [Hx' _].
  apply in_flat_map in Hx'. destruct Hx' as [c [_ Hc]]. unfold alias_ids in Hc.
  apply in_map_iff in Hc. destruct Hc as [r [<- Hr]]. apply filter_In in Hr.
  exact (Ha r (proj1 Hr)).
Qed.

Lemma resolve_ids_good (d : db) (p : input) :
  good_ids d (_resolve_existing_paper_ids stable_hash read_md_hash build_paper_key_candidates d p).
Proof.
  unfold _resolve_existing_paper_ids. cbv zeta.
  destruct (negb (String.eqb (Py.strip (explicit p)) "") && paper_exists d (Py.strip (explicit p)))
    eqn:E.
  - split; [constructor; [intros [] | constructor]|].
    intros _ x [<-|[]]. apply andb_prop in E. exact (proj2 E).
  - repeat first [ apply good_or | apply good_keep | apply good_if | apply good_nil
                 | apply good_ids_where | apply good_alias
                 | match goal with |- good_ids _ (match ?o with Some _ => _ | None => _ end) =>
                     destruct o end ].
Qed.

Lemma resolve_ids_frame (d d' : db) (p : input) :
  papers d' = papers d -> aliases d' = aliases d ->
  _resolve_existing_paper_ids stable_hash read_md_hash build_paper_key_candidates d' p =
  _resolve_existing_paper_ids stable_hash read_md_hash build_paper_key_candidates d p.
Proof.
  intros Hp Ha. unfold _resolve_existing_paper_ids, ids_where, alias_ids, paper_exists.
  rewrite Hp, Ha. reflexivity.
Qed.

Lemma paper_exists_same (d d' : db) (pid : string) :
  papers d' = papers d -> paper_exists d' pid = paper_exists d pid.
Proof. intros H. unfold paper_exists. rewrite H. reflexivity. Qed.

Lemma fold_inv {A} (f : db -> A -> db) (P : db -> Prop) (l : list A) :
  (forall d x, In x l -> P d -> P (f d x)) -> forall d, P d -> P (fold_left f l d).
Proof.
  induction l as [|x l IH]; intros Hf d Hd; cbn [fold_left]; [exact Hd|].
  apply IH; [intros d' y Hy; exact (Hf d' y (or_intror Hy)) | exact (Hf d x (or_introl eq_refl) Hd)].
Qed.

(** The rows a supplement step writes for [pid] keep [refs_ok] when [pid]
    is a paper. *)
Definition refs_for (pid : string) (d : db) : Prop :=
  refs_ok d /\ paper_exists d pid = true.

Lemma templates_refs (d : db) (pid : string) (p : input) :
  refs_for pid d -> refs_for pid (_supplement_templates d pid p).
Proof.
  intros [[Ha [Hs Ht]] He]. unfold _supplement_templates. cbv zeta.
  destruct (has_summary d pid _); [split; [split; [exact Ha | split; [exact Hs | exact Ht]] | exact He]|].
  split; [|exact He]. split; [exact Ha|]. split; [|exact Ht].
  cbn [summaries]. intros pid' tag H. apply in_app_or in H.
  destruct H as [H|[H|[]]]; [exact (Hs _ _ H) | injection H as <- _; exact He].
Qed.

Lemma lang_refs (sh pid : string) (d : db) (ld : string * list string) :
  refs_for pid d -> refs_for pid (supplement_lang processed_hash sh pid d ld).
Proof.
  intros H. destruct ld as [lang files]. unfold supplement_lang.
  destruct (has_translation d pid lang); [exact H|].
  destruct (find_translation sh pid lang files) as [f|]; [|exact H].
  destruct H as [[Ha [Hs Ht]] He].
  split; [|exact He]. split; [exact Ha|]. split; [exact Hs|].
  cbn [translations]. intros pid' lang' h H. apply in_app_or in H.
  destruct H as [H|[H|[]]].
  - apply filter_In in H. exact (Ht _ _ _ (proj1 H)).
  - injection H as <- _ _. exact He.
Qed.

Lemma translations_refs (d : db) (pid : string) (p : input) (roots : list root) :
  refs_for pid d -> refs_for pid (_supplement_translations processed_hash d pid p roots).
Proof.
  unfold _supplement_translations. cbv zeta. destruct (String.eqb _ ""); [auto|].
  apply fold_inv. intros d' r _. apply fold_inv. intros d'' ld _. apply lang_refs.
Qed.

Lemma supplement_paper_refs (roots : list root) (d : db) (p : input) :
  refs_ok d -> refs_ok (supplement_paper stable_hash read_md_hash build_paper_key_candidates
                          processed_hash roots d p).
Proof.
  intros Hr. unfold supplement_paper.
  pose proof (proj2 (resolve_ids_good d p) (proj1 Hr)) as Hex.
  apply (fold_inv _ (fun d' => refs_ok d' /\ papers d' = papers d)); [|split; [exact Hr | reflexivity]].
  intros d' pid Hpid [Hr' Hp'].
  assert (Hf : frame d' (_supplement_translations processed_hash
                           (_supplement_templates d' pid p) pid p roots)).
  { eapply SupplementFacts.frame_trans;
      [apply SupplementFacts.templates_frame | apply SupplementFacts.translations_frame]. }
  split; [|rewrite (proj1 Hf); exact Hp'].
  apply translations_refs, templates_refs. split; [exact Hr'|].
  rewrite (paper_exists_same d d' pid Hp'). exact (Hex pid Hpid).
Qed.

Lemma supplement_snapshot_refs (roots : list root) (ps : list input) (d : db) :
  refs_ok d -> refs_ok (supplement_snapshot stable_hash read_md_hash build_paper_key_candidates
                          processed_hash roots d ps).
Proof.
  unfold supplement_snapshot. apply fold_inv. intros d' p _. apply supplement_paper_refs.
Qed.

End Ids.
End SuppFacts.

Module ReachFacts.
Import Snapshot Invariants.

Lemma reachable_refs (d : db) :
  reachable d -> refs_ok d /\ NoDup (map p_paper_id (papers d)).
Proof.
  intros Hr. induction Hr as [|cpk pifk d ps _ [IHr IHn]|sh rmh bpkc ph roots d ps _ [IHr IHn]].
  - split; [split; [intros r [] | split; [intros pid tag [] | intros pid lang h []]] | constructor].
  - destruct (SnapFacts.update_snapshot_step cpk pifk ps d IHr IHn) as [H1 [H2 _]].
    split; [exact H1 | exact H2].
  - split; [apply SuppFacts.supplement_snapshot_refs, IHr|].
    rewrite (proj1 (SupplementFacts.supplement_snapshot_frame sh rmh bpkc ph roots ps d)).
    exact IHn.
Qed.

End ReachFacts.

Module IdemFacts.
Import Snapshot Supplement.

Lemma fold_noop {A} (f : db -> A -> db) (l : list A) (d : db) :
  (forall x, In x l -> f d x = d) -> fold_left f l d = d.
Proof.
  induction l as [|x l IH]; intros H; cbn [fold_left]; [reflexivity|].
  rewrite (H x (or_introl eq_refl)). apply IH. intros y Hy. exact (H y (or_intror Hy)).
Qed.

Lemma fold_keep {A} (f : db -> A -> db) (P : db -> Prop) (l : list A) :
  (forall d x, P d -> P (f d x)) -> forall d, P d -> P (fold_left f l d).
Proof.
  induction l as [|x l IH]; intros Hf d Hd; cbn [fold_left]; [exact Hd|].
  apply IH; [exact Hf | exact (Hf d x Hd)].
Qed.

Lemma fold_establish {A} (f : db -> A -> db) (P : db -> A -> Prop) :
  (forall d x, P (f d x) x) -> (forall d x y, P d y -> P (f d x) y) ->
  forall l d y, In y l -> P (fold_left f l d) y.
Proof.
  intros Hnew Hkeep l. induction l as [|x l IH]; intros d y Hy; [destruct Hy|].
  cbn [fold_left]. destruct Hy as [->|Hy]; [|exact (IH _ y Hy)].
  apply (fold_keep f (fun d => P d y)); [intros d' x'; apply Hkeep | apply Hnew].
Qed.

Definition tag_of (p : input) : string :=
  if negb (String.eqb (prompt_template p) "") then prompt_template p
  else if negb (String.eqb (template_tag p) "") then template_tag p
  else "default".

Definition sh_of (p : input) : string :=
  if negb (String.eqb (source_hash p) "") then source_hash p else source_md_content_hash p.

Lemma templates_noop (d : db) (pid : string) (p : input) :
  has_summary d pid (tag_of p) = true -> _supplement_templates d pid p = d.
Proof. intros H. unfold _supplement_templates. fold (tag_of p). rewrite H. reflexivity. Qed.

Lemma templates_done (d : db) (pid : string) (p : input) :
  has_summary (_supplement_templates d pid p) pid (tag_of p) = true.
Proof.
  unfold _supplement_templates. fold (tag_of p).
  destruct (has_summary d pid (tag_of p)) eqn:E; [exact E|].
  unfold has_summary. cbn [summaries]. rewrite existsb_app. cbn [existsb fst snd].
  rewrite !String.eqb_refl. apply orb_true_r.
Qed.

Section Idem.
Variable stable_hash : string -> string.
Variable read_md_hash : string -> option string.
Variable build_paper_key_candidates : input -> list candidate.
Variable processed_hash : string -> string.

Definition lang_done (sh pid : string) (d : db) (ld : string * list string) : Prop :=
  has_translation d pid (fst ld) = true \/ find_translation sh pid (fst ld) (snd ld) = None.

Lemma lang_noop (sh pid : string) (d : db) (ld : string * list string) :
  lang_done sh pid d ld -> supplement_lang processed_hash sh pid d ld = d.
Proof.
  destruct ld as [lang files]. unfold lang_done, supplement_lang. cbn [fst snd].
  destruct (has_translation d pid lang) eqn:E; [reflexivity|].
  intros [H|H]; [discriminate | rewrite H; reflexivity].
Qed.

Lemma lang_settles (sh pid : string) (d : db) (ld : string * list string) :
  lang_done sh pid (supplement_lang processed_hash sh pid d ld) ld.
Proof.
  destruct ld as [lang files]. unfold lang_done, supplement_lang. cbn [fst snd].
  destruct (has_translation d pid lang) eqn:E; [left; exact E|].
  destruct (find_translation sh pid lang files) as [f|] eqn:F; [|right; reflexivity].
  left. unfold has_translation, replace_translation. cbn [translations].
  rewrite existsb_app. cbn [existsb]. rewrite !String.eqb_refl. apply orb_true_r.
Qed.

Lemma lang_done_mono (sh pid : string) (d d' : db) (ld : string * list string) :
  frame d d' -> lang_done sh pid d ld -> lang_done sh pid d' ld.
Proof.
  intros Hf [H|H]; [left | right; exact H].
  exact (SupplementFacts.has_translation_mono d d' pid _ (proj1 (proj2 (proj2 (proj2 (proj2 Hf))))) H).
Qed.

(** Supplementing [pid] for [p] again would write nothing. *)
Definition pid_done (roots : list root) (p : input) (d : db) (pid : string) : Prop :=
  has_summary d pid (tag_of p) = true /\
  (String.eqb (sh_of p) "" = true \/
   forall r ld, In r roots -> In ld r -> lang_done (sh_of p) pid d ld).

Definition step (roots : list root) (p : input) (d : db) (pid : string) : db :=
  _supplement_translations processed_hash (_supplement_templates d pid p) pid p roots.

Lemma step_frame (roots : list root) (p : input) (d : db) (pid : string) :
  frame d (step roots p d pid).
Proof.
  eapply SupplementFacts.frame_trans;
    [apply SupplementFacts.templates_frame | apply SupplementFacts.translations_frame].
Qed.

Lemma pid_done_mono (roots : list root) (p : input) (d d' : db) (pid : string) :
  frame d d' -> pid_done roots p d pid -> pid_done roots p d' pid.
Proof.
  intros Hf [Hs Ht]. split.
  - exact (SupplementFacts.has_summary_mono d d' pid _ (proj1 (proj2 (proj2 Hf))) Hs).
  - destruct Ht as [Ht|Ht]; [left; exact Ht | right].
    intros r ld Hr Hld. exact (lang_done_mono _ _ d d' ld Hf (Ht r ld Hr Hld)).
Qed.

Lemma step_noop (roots : list root) (p : input) (d : db) (pid : string) :
  pid_done roots p d pid -> step roots p d pid = d.
Proof.
  intros [Hs Ht]. unfold step. rewrite (templates_noop d pid p Hs).
  unfold _supplement_translations. fold (sh_of p).
  destruct Ht as [Ht|Ht]; [rewrite Ht; reflexivity|].
  destruct (String.eqb (sh_of p) ""); [reflexivity|].
  apply fold_noop. intros r Hr. apply fold_noop. intros ld Hld.
  apply lang_noop, (Ht r ld Hr Hld).
Qed.

Lemma step_settles (roots : list root) (p : input) (d : db) (pid : string) :
  pid_done roots p (step roots p d pid) pid.
Proof.
  unfold step. split.
  - apply (SupplementFacts.has_summary_mono (_supplement_templates d pid p));
      [exact (proj1 (proj2 (proj2 (SupplementFacts.translations_frame processed_hash _ pid p roots))))
      | apply templates_done].
  - unfold _supplement_translations. fold (sh_of p).
    destruct (String.eqb (sh_of p) "") eqn:E; [left; reflexivity | right].
    intros r ld Hr Hld. revert ld Hld.
    refine (fold_establish (fun d r => fold_left (supplement_lang processed_hash (sh_of p) pid) r d)
             (fun d r => forall ld, In ld r -> lang_done (sh_of p) pid d ld) _ _ roots _ r Hr).
    + intros d' r' ld' Hld'.
      apply (fold_establish (supplement_lang processed_hash (sh_of p) pid)
               (lang_done (sh_of p) pid)); [apply lang_settles | | exact Hld'].
      intros d'' x y H. apply (lang_done_mono _ _ d''); [apply SupplementFacts.supplement_lang_frame | exact H].
    + intros d' r' y H ld' Hld'. apply (lang_done_mono _ _ d'); [|exact (H ld' Hld')].
      apply SupplementFacts.frame_fold. intros d'' x. apply SupplementFacts.supplement_lang_frame.
Qed.

Definition ids (d : db) (p : input) : list string :=
  _resolve_existing_paper_ids stable_hash read_md_hash build_paper_key_candidates d p.

Definition paper_done (roots : list root) (d : db) (p : input) : Prop :=
  forall pid, In pid (ids d p) -> pid_done roots p d pid.

Lemma ids_frame (d d' : db) (p : input) : frame d d' -> ids d' p = ids d p.
Proof. intros [Hp [Ha _]]. apply SuppFacts.resolve_ids_frame; assumption. Qed.

Lemma paper_done_mono (roots : list root) (d d' : db) (p : input) :
  frame d d' -> paper_done roots d p -> paper_done roots d' p.
Proof.
  intros Hf H pid Hpid. rewrite (ids_frame d d' p Hf) in Hpid.
  exact (pid_done_mono roots p d d' pid Hf (H pid Hpid)).
Qed.

Lemma supplement_paper_settles (roots : list root) (d : db) (p : input) :
  paper_done roots (supplement_paper stable_hash read_md_hash build_paper_key_candidates
                      processed_hash roots d p) p.
Proof.
  intros pid Hpid.
  rewrite (ids_frame _ _ p (SupplementFacts.supplement_paper_frame stable_hash read_md_hash
                             build_paper_key_candidates processed_hash roots d p)) in Hpid.
  unfold supplement_paper. fold (ids d p). fold (step roots p).
  apply (fold_establish (step roots p) (pid_done roots p)); [apply step_settles | | exact Hpid].
  intros d' x y H. exact (pid_done_mono roots p d' _ y (step_frame roots p d' x) H).
Qed.

Lemma supplement_paper_noop (roots : list root) (d : db) (p : input) :
  paper_done roots d p ->
  supplement_paper stable_hash read_md_hash build_paper_key_candidates processed_hash roots d p = d.
Proof.
  intros H. unfold supplement_paper. fold (ids d p). fold (step roots p).
  apply fold_noop. intros pid Hpid. exact (step_noop roots p d pid (H pid Hpid)).
Qed.

End Idem.
End IdemFacts.

(** In every snapshot state the tool can produce, each row of
    [paper_key_alias], [paper_summary] and [paper_translation] names an
    existing paper, and no two [paper] rows share a [paper_id]. *)
Theorem reachable_refs_integrity (d : Snapshot.db) :
  reachable d ->
  Invariants.refs_ok d /\ NoDup (map Snapshot.p_paper_id (Snapshot.papers d)).
Proof. exact (ReachFacts.reachable_refs d). Qed.

(** From a reachable state, an update pass only adds rows: every
    [paper], alias, summary and translation row is kept. *)
Theorem update_snapshot_extends (cpk : list Snapshot.candidate -> Snapshot.candidate)
        (pifk : string -> string) (d : Snapshot.db) (ps : list Snapshot.input) :
  reachable d -> Invariants.extends d (Snapshot.update_snapshot cpk pifk d ps).
Proof.
  intros Hr. destruct (ReachFacts.reachable_refs d Hr) as [Hf Hn].
  exact (proj2 (proj2 (SnapFacts.update_snapshot_step cpk pifk ps d Hf Hn))).
Qed.

(** From a reachable state, after an update pass every input paper
    resolves to an existing paper, so running the same pass again changes
    nothing. *)
Theorem update_snapshot_idempotent (cpk : list Snapshot.candidate -> Snapshot.candidate)
        (pifk : string -> string) (d : Snapshot.db) (ps : list Snapshot.input) :
  reachable d ->
  let d1 := Snapshot.update_snapshot cpk pifk d ps in
  Snapshot.update_snapshot cpk pifk d1 ps = d1 /\
  (forall p, In p ps ->
     let '(pid, _, _, _, _) :=
       Snapshot._resolve_paper_identity cpk pifk d1 (Snapshot.i_explicit_id p)
                                        (Snapshot.i_candidates p) in
     Snapshot.paper_exists d1 pid = true).
Proof.
  intros Hr. cbv zeta. destruct (ReachFacts.reachable_refs d Hr) as [Hf Hn].
  destruct (SnapFacts.update_snapshot_step cpk pifk ps d Hf Hn) as [[Ha1 _] _].
  pose proof (SnapFacts.update_snapshot_settles cpk pifk ps d Hf Hn) as Hs.
  split; [apply SnapFacts.update_snapshot_noop; [exact Ha1 | exact Hs]|].
  intros p Hp. specialize (Hs p Hp). unfold Snapshot._resolve_paper_identity.
  destruct (Snapshot.probe _ (Snapshot.i_candidates p)) as [[pid c]|] eqn:E.
  - exact (SnapFacts.probe_hit_exists _ _ pid c Ha1 E).
  - destruct Hs as [Hs|Hs]; [exact Hs | contradiction].
Qed.

(** [_resolve_existing_paper_ids] never returns an id twice; when every
    alias row names an existing paper, each id it returns is an existing
    paper. *)
Theorem resolve_existing_paper_ids_sound (stable_hash : string -> string)
        (read_md_hash : string -> option string)
        (bpkc : Supplement.input -> list Snapshot.candidate)
        (d : Snapshot.db) (p : Supplement.input) :
  let ids := Supplement._resolve_existing_paper_ids stable_hash read_md_hash bpkc d p in
  NoDup ids /\
  (Invariants.aliases_ok d -> forall pid, In pid ids -> Snapshot.paper_exists d pid = true).
Proof. exact (SuppFacts.resolve_ids_good stable_hash read_md_hash bpkc d p). Qed.

(** Running a supplement pass a second time with the same inputs and
    translation roots changes nothing. *)
Theorem supplement_snapshot_idempotent (stable_hash : string -> string)
        (read_md_hash : string -> option string)
        (bpkc : Supplement.input -> list Snapshot.candidate)
        (processed_hash : string -> string)
        (roots : list Supplement.root) (d : Snapshot.db) (ps : list Supplement.input) :
  let d1 := Supplement.supplement_snapshot stable_hash read_md_hash bpkc processed_hash roots d ps in
  Supplement.supplement_snapshot stable_hash read_md_hash bpkc processed_hash roots d1 ps = d1.
Proof.
  cbv zeta. unfold Supplement.supplement_snapshot at 1.
  apply IdemFacts.fold_noop. intros p Hp.
  apply IdemFacts.supplement_paper_noop.
  unfold Supplement.supplement_snapshot.
  refine (IdemFacts.fold_establish
            (Supplement.supplement_paper stable_hash read_md_hash bpkc processed_hash roots)
            (fun d p => IdemFacts.paper_done stable_hash read_md_hash bpkc roots d p) _ _ ps d p Hp).
  - intros d' p'. apply IdemFacts.supplement_paper_settles.
  - intros d' p' p'' H. apply (IdemFacts.paper_done_mono _ _ _ _ d'); [|exact H].
    apply SupplementFacts.supplement_paper_frame.
Qed.

(** Witness: a fresh snapshot updated with one paper. *)
Lemma reachable_refs_integrity_witness :
  let d := Snapshot.update_snapshot
             (fun cs => hd {| Snapshot.paper_key := ""; Snapshot.key_type := "";
                              Snapshot.meta_fingerprint := None |} cs)
             (fun k => "id-" ++ k) Snapshot.empty_db
             [{| Snapshot.i_explicit_id := ""; Snapshot.i_title := "A title";
                 Snapshot.i_source_hash := "h"; Snapshot.i_source_md_hash := "";
                 Snapshot.i_candidates := [{| Snapshot.paper_key := "title:a";
                                              Snapshot.key_type := "title";
                                              Snapshot.meta_fingerprint := None |}];
                 Snapshot.i_template_tags := ["simple"]; Snapshot.i_translations := [("zh", "t")] |}] in
  Invariants.refs_ok d /\ NoDup (map Snapshot.p_paper_id (Snapshot.papers d)).
Proof. apply reachable_refs_integrity. apply reach_update, reach_init. Defined.

(** Witness: a snapshot holding one paper, updated with a second one. *)
Lemma update_snapshot_extends_witness :
  let cpk := fun cs => hd {| Snapshot.paper_key := ""; Snapshot.key_type := "";
                             Snapshot.meta_fingerprint := None |} cs in
  let pifk := fun k => "id-" ++ k in
  let d := Snapshot.update_snapshot cpk pifk Snapshot.empty_db
       [{| Snapshot.i_explicit_id := ""; Snapshot.i_title := "A title";
           Snapshot.i_source_hash := "h"; Snapshot.i_source_md_hash := "";
           Snapshot.i_candidates := [{| Snapshot.paper_key := "title:a";
                                        Snapshot.key_type := "title";
                                        Snapshot.meta_fingerprint := None |}];
           Snapshot.i_template_tags := ["simple"]; Snapshot.i_translations := [("zh", "t")] |}] in
  let d1 := Snapshot.update_snapshot cpk pifk d
       [{| Snapshot.i_explicit_id := ""; Snapshot.i_title := "B title";
           Snapshot.i_source_hash := "g"; Snapshot.i_source_md_hash := "";
           Snapshot.i_candidates := [{| Snapshot.paper_key := "title:b";
                                        Snapshot.key_type := "title";
                                        Snapshot.meta_fingerprint := None |}];
           Snapshot.i_template_tags := ["simple"]; Snapshot.i_translations := [] |}] in
  List.length (Snapshot.papers d) = 1 /\ List.length (Snapshot.papers d1) = 2 /\
  Invariants.extends d d1.
Proof.
  cbv zeta. split; [vm_compute; reflexivity|]. split; [vm_compute; reflexivity|].
  apply update_snapshot_extends. apply reach_update, reach_init.
Defined.

(** Witness: the update pass of one paper on a fresh snapshot. *)
Lemma update_snapshot_idempotent_witness :
  let cpk := fun cs => hd {| Snapshot.paper_key := ""; Snapshot.key_type := "";
                             Snapshot.meta_fingerprint := None |} cs in
  let pifk := fun k => "id-" ++ k in
  let ps := [{| Snapshot.i_explicit_id := ""; Snapshot.i_title := "A title";
                Snapshot.i_source_hash := "h"; Snapshot.i_source_md_hash := "";
                Snapshot.i_candidates := [{| Snapshot.paper_key := "title:a";
                                             Snapshot.key_type := "title";
                                             Snapshot.meta_fingerprint := None |}];
                Snapshot.i_template_tags := []; Snapshot.i_translations := [] |}] in
  let d1 := Snapshot.update_snapshot cpk pifk Snapshot.empty_db ps in
  Snapshot.update_snapshot cpk pifk d1 ps = d1 /\
  (forall p, In p ps ->
     let '(pid, _, _, _, _) :=
       Snapshot._resolve_paper_identity cpk pifk d1 (Snapshot.i_explicit_id p)
                                        (Snapshot.i_candidates p) in
     Snapshot.paper_exists d1 pid = true).
Proof. apply update_snapshot_idempotent. apply reach_init. Defined.

(** Witness: a snapshot with one paper and an alias row for it, and an
    input naming the paper by its id. *)
Lemma resolve_existing_paper_ids_sound_witness :
  let d := {| Snapshot.papers := [{| Snapshot.p_paper_id := "P1"; Snapshot.p_paper_key := "title:a";
                                     Snapshot.p_paper_key_type := "title"; Snapshot.p_title := "A";
                                     Snapshot.p_source_hash := "h";
                                     Snapshot.p_source_md_content_hash := "" |}];
              Snapshot.aliases := [{| Snapshot.a_paper_key := "title:a"; Snapshot.a_paper_id := "P1";
                                      Snapshot.a_key_type := "title";
                                      Snapshot.a_meta_fingerprint := None |}];
              Snapshot.summaries := []; Snapshot.translations := [] |} in
  let p := {| Supplement.explicit := "P1"; Supplement.source_hash := "";
              Supplement.source_path := ""; Supplement.source_md_content_hash := "";
              Supplement.prompt_template := ""; Supplement.template_tag := "" |} in
  Invariants.aliases_ok d /\
  forall pid, In pid (Supplement._resolve_existing_paper_ids (fun s => s) (fun _ => None)
                        (fun _ => []) d p) -> Snapshot.paper_exists d pid = true.
Proof.
  cbv zeta.
  assert (Ha : Invariants.aliases_ok
    {| Snapshot.papers := [{| Snapshot.p_paper_id := "P1"; Snapshot.p_paper_key := "title:a";
                              Snapshot.p_paper_key_type := "title"; Snapshot.p_title := "A";
                              Snapshot.p_source_hash := "h";
                              Snapshot.p_source_md_content_hash := "" |}];
       Snapshot.aliases := [{| Snapshot.a_paper_key := "title:a"; Snapshot.a_paper_id := "P1";
                               Snapshot.a_key_type := "title";
                               Snapshot.a_meta_fingerprint := None |}];
       Snapshot.summaries := []; Snapshot.translations := [] |}).
  { intros r [<-|[]]. vm_compute. reflexivity. }
  split; [exact Ha|].
  exact (proj2 (resolve_existing_paper_ids_sound (fun s => s) (fun _ => None) (fun _ => []) _ _) Ha).
Defined.

Module NormListFacts.
Import Py NormLists.

Lemma strip_last (s : string) r c : to_list (strip s) = app r [c] -> is_space c = false.
Proof.
  unfold strip, rstrip. rewrite PyFacts.to_of_list.
  destruct (lstrip (of_list (rev (to_list (lstrip s))))) as [|x u] eqn:E; [destruct r; discriminate|].
  cbn [to_list rev]. intros H. apply app_inj_tail in H. destruct H as [_ <-].
  exact (PyFacts.lstrip_head _ _ _ E).
Qed.

Lemma strip_idem (s : string) : strip (strip s) = strip s.
Proof.
  apply TemplateFacts.strip_id; [intros c r H; exact (PyFacts.strip_head s c r H) | apply strip_last].
Qed.

Lemma split_on_chars (sep : ascii -> bool) (s : string) :
  forall part c, In part (split_on sep s) -> In c (to_list part) -> sep c = false.
Proof.
  induction s as [|x s IH]; intros part c Hp Hc; cbn [split_on] in Hp.
  - destruct Hp as [<-|[]]. destruct Hc.
  - destruct (sep x) eqn:Ex.
    + destruct Hp as [<-|Hp]; [destruct Hc | exact (IH part c Hp Hc)].
    + destruct (split_on sep s) as [|p ps] eqn:E.
      * destruct Hp as [<-|[]]. destruct Hc as [<-|[]]. exact Ex.
      * destruct Hp as [<-|Hp].
        -- destruct Hc as [<-|Hc]; [exact Ex|]. exact (IH p c (or_introl eq_refl) Hc).
        -- exact (IH part c (or_intror Hp) Hc).
Qed.

Lemma stripped_spec (parts : list string) x :
  In x (stripped_nonempty parts) ->
  x <> "" /\ strip x = x /\ exists part, In part parts /\ forall c, In c (to_list x) -> In c (to_list part).
Proof.
  induction parts as [|y ys IH]; cbn [stripped_nonempty]; [intros []|].
  destruct (String.eqb_spec (strip y) "") as [E|E].
  - intros H. destruct (IH H) as [H1 [H2 [part [Hp Hc]]]].
    split; [exact H1 | split; [exact H2 | exists part; split; [right; exact Hp | exact Hc]]].
  - intros [<-|H].
    + split; [exact E | split; [apply strip_idem|]].
      exists y. split; [left; reflexivity | apply KeyFacts.strip_sub].
    + destruct (IH H) as [H1 [H2 [part [Hp Hc]]]].
      split; [exact H1 | split; [exact H2 | exists part; split; [right; exact Hp | exact Hc]]].
Qed.

Lemma single_spec (s x : string) :
  In x (if String.eqb (strip s) "" then [] else [strip s]) -> x <> "" /\ strip x = x.
Proof.
  destruct (String.eqb_spec (strip s) "") as [E|E]; [intros []|].
  intros [<-|[]]. split; [exact E | apply strip_idem].
Qed.

End NormListFacts.

(** The names [_normalize_authors] returns, and the items
    [_normalize_str_list] returns, are never empty and are already
    stripped of surrounding white space; split from a string, an author
    name holds no comma and a list item neither a comma nor a semicolon. *)
Theorem normalize_lists_clean (value : NormLists.pyval) (x : string) :
  (In x (NormLists._normalize_authors value) ->
   x <> "" /\ Py.strip x = x /\
   (forall s, value = NormLists.VStr s -> ~ In ","%char (Py.to_list x))) /\
  (In x (NormLists._normalize_str_list value) ->
   x <> "" /\ Py.strip x = x /\
   (forall s, value = NormLists.VStr s ->
      ~ In ","%char (Py.to_list x) /\ ~ In ";"%char (Py.to_list x))).
Proof.
  split; destruct value as [|items|s|s]; cbn [NormLists._normalize_authors NormLists._normalize_str_list];
    try (intros []);
    try (intros H; destruct (NormListFacts.stripped_spec _ _ H) as [H1 [H2 _]];
         split; [exact H1 | split; [exact H2 | intros s' E; discriminate E]]);
    try (intros H; destruct (NormListFacts.single_spec _ _ H) as [H1 H2];
         split; [exact H1 | split; [exact H2 | intros s' E; discriminate E]]).
  - intros H. destruct (NormListFacts.stripped_spec _ _ H) as [H1 [H2 [part [Hp Hc]]]].
    split; [exact H1 | split; [exact H2|]]. intros s' _ Hin.
    pose proof (NormListFacts.split_on_chars _ s part "," Hp (Hc _ Hin)) as F.
    discriminate F.
  - intros H. destruct (NormListFacts.stripped_spec _ _ H) as [H1 [H2 [part [Hp Hc]]]].
    split; [exact H1 | split; [exact H2|]]. intros s' _. split; intros Hin.
    + pose proof (NormListFacts.split_on_chars _ s part "," Hp (Hc _ Hin)) as F.
      discriminate F.
    + pose proof (NormListFacts.split_on_chars _ s part ";" Hp (Hc _ Hin)) as F.
      discriminate F.
Qed.

(** Witness: the author string ["Ada, Bob ,,"]. *)
Lemma normalize_lists_clean_witness :
  "Bob" <> "" /\ Py.strip "Bob" = "Bob" /\
  (forall s, NormLists.VStr "Ada, Bob ,," = NormLists.VStr s -> ~ In ","%char (Py.to_list "Bob")).
Proof.
  apply (proj1 (normalize_lists_clean (NormLists.VStr "Ada, Bob ,,") "Bob")).
  vm_compute. right. left. reflexivity.
Defined.
